(** * PCR master-mix calculator: a shallow embedding of [pcr_calculator.py]

    The calculation engine ([PCRLogic.round_to_half], [PCRLogic.calculate])
    and the report formatter ([PCRLogic.format_text_report]) are embedded as
    executable functions.  Python values are modelled as the program has
    them:

    - [int] is an unbounded integer, here [Z];
    - [float] is an IEEE 754 binary64 number, here [spec_float] with
      precision 53 and maximal exponent 1024, every operation rounding to
      nearest with ties to even;
    - [str] is a [string] whose characters are code points (every
      string the program builds stays within Latin-1);
    - a [dict] is an insertion-ordered association list with unique keys;
    - a raised exception is the [Raise] branch of a result type.

    The form ([PCRGui.update_calc], [copy_to_clipboard], [save_report]) and
    the command line ([run_cli_mode]) are embedded over the same engine:

    - the widgets and the attribute that [update_calc] writes form a record
      that is passed through; an exception that leaves the method is
      returned beside it;
    - what the program prints, asks, copies, shows and writes is a list of
      events in program order;
    - what the outside world answers (the values read from the form, what
      the prompts give, the path chosen in the file dialog, the outcome of
      a [print] and of a file write) is a parameter. *)

From Stdlib Require Import ZArith Bool List String Ascii Lia.
From Stdlib Require Import QArith Qabs Qpower Lqa.
From Stdlib Require Import DecimalString.
From Stdlib Require Import Floats.SpecFloat.
Import ListNotations.

Local Open Scope string_scope.
Local Open Scope Z_scope.

(** ** Exceptions and results *)

Inductive exn : Type :=
| ValueError (msg : string)
| OverflowError (msg : string)
| KeyError (key : string).

Inductive result (A : Type) : Type :=
| Ok (a : A)
| Raise (e : exn).

Arguments Ok {A} a.
Arguments Raise {A} e.

Definition bind {A B : Type} (r : result A) (k : A -> result B) : result B :=
  match r with
  | Ok a => k a
  | Raise e => Raise e
  end.

Notation "x <- r ;; k" := (bind r (fun x => k))
  (at level 61, r at next level, right associativity).

Fixpoint mapM {A B : Type} (f : A -> result B) (l : list A) : result (list B) :=
  match l with
  | [] => Ok []
  | a :: t => b <- f a ;; bs <- mapM f t ;; Ok (b :: bs)
  end.

(** ** Python floats: IEEE 754 binary64 *)

Module Float64.

Definition prec : Z := 53.
Definition emax : Z := 1024.

Definition float : Type := spec_float.

Definition add : float -> float -> float := SFadd prec emax.
Definition sub : float -> float -> float := SFsub prec emax.
Definition mul : float -> float -> float := SFmul prec emax.
Definition div : float -> float -> float := SFdiv prec emax.
Definition ltb : float -> float -> bool := SFltb.
Definition leb : float -> float -> bool := SFleb.

(** The float nearest to [m * 2^e] (ties to even); an infinity when the
    magnitude is out of range. *)
Definition normalize (m e : Z) : float := binary_normalize prec emax m e false.

(** The float literal of value [m * 2^e]; every literal of the program is
    such a dyadic number ([11.0] is [lit 11 0], [0.5] is [lit 1 (-1)]). *)
Definition lit (m e : Z) : float := normalize m e.

Definition is_finite (x : float) : bool :=
  match x with
  | S754_zero _ | S754_finite _ _ _ => true
  | _ => false
  end.

(** Conversion of a Python [int] to [float], as [float * int] and
    [int / float] do it: correctly rounded, [OverflowError] when the
    integer is too large. *)
Definition of_int (n : Z) : result float :=
  let x := normalize n 0 in
  if is_finite x then Ok x
  else Raise (OverflowError "int too large to convert to float").

(** The exact value of a finite float as a rational; 0 for the others. *)
Definition to_Q (x : float) : Q :=
  match x with
  | S754_finite s m e =>
      let n := if s then Zneg m else Zpos m in
      match e with
      | Z0 => inject_Z n
      | Zpos p => inject_Z (n * 2 ^ Zpos p)
      | Zneg p => Qmake n (2 ^ p)
      end
  | _ => 0%Q
  end.

(** Division of the positive mantissa [m] by [2^p], rounded to the nearest
    integer, ties to the even one. *)
Definition shift_round_even (m : positive) (p : positive) : Z :=
  let d := 2 ^ Zpos p in
  let q := Zpos m / d in
  let r := Zpos m mod d in
  match 2 * r ?= d with
  | Lt => q
  | Gt => q + 1
  | Eq => if Z.even q then q else q + 1
  end.

(** The integer nearest to [m * 2^e], ties to the even one. *)
Definition round_magnitude (m : positive) (e : Z) : Z :=
  match e with
  | Z0 => Zpos m
  | Zpos p => Zpos m * 2 ^ Zpos p
  | Zneg p => shift_round_even m p
  end.

(** Python's built-in [round(x)] on a float, with no [ndigits]: the
    nearest [int], ties to the even one; it raises on NaN and on the
    infinities. *)
Definition round (x : float) : result Z :=
  match x with
  | S754_nan => Raise (ValueError "cannot convert float NaN to integer")
  | S754_infinity _ =>
      Raise (OverflowError "cannot convert float infinity to integer")
  | S754_zero _ => Ok 0
  | S754_finite s m e =>
      Ok (if s then - round_magnitude m e else round_magnitude m e)
  end.

End Float64.

Definition float : Type := Float64.float.

(** ** Python dicts: insertion-ordered association lists *)

Definition dict (V : Type) : Type := list (string * V).

Fixpoint dict_get {V : Type} (d : dict V) (k : string) : option V :=
  match d with
  | [] => None
  | (k', v) :: t => if String.eqb k' k then Some v else dict_get t k
  end.

(** [d[k] = v]: an existing key keeps its position, a new key goes last. *)
Fixpoint dict_set {V : Type} (d : dict V) (k : string) (v : V) : dict V :=
  match d with
  | [] => [(k, v)]
  | (k', v') :: t =>
      if String.eqb k' k then (k', v) :: t else (k', v') :: dict_set t k v
  end.

Definition dict_keys {V : Type} (d : dict V) : list string := map fst d.
Definition dict_values {V : Type} (d : dict V) : list V := map snd d.

(** [str(n)] for an [int]. *)
Definition str_of_int (n : Z) : string := NilZero.string_of_int (Z.to_int n).

(** ** Configuration constants *)

Definition PER_SAMPLE_TOTAL : float := Float64.lit 11 0.
Definition PRIMER_PER : float := Float64.lit 1 (-1).
Definition DEFAULT_EXCESS : float := Float64.lit 10 0.
Definition DEFAULT_SAMPLES : Z := 8.

(** ** The calculation engine *)

Module PCRLogic.

Import Float64.

(** [round(x * 2) / 2.0] *)
Definition round_to_half (x : float) : result float :=
  two <- of_int 2 ;;
  k <- round (mul x two) ;;
  kf <- of_int k ;;
  Ok (div kf (lit 2 0)).

(** The two [ValueError]s that [calculate] raises itself, under the names
    the specification gives them. *)
Definition InvalidMixFactor : exn :=
  ValueError "Mix concentration must be 2 or 5.".
Definition NegativeDiluentVolume : exn :=
  ValueError "Computed DDW volume is negative.".

(** [f"Mix ({mix_x}X)"] *)
Definition mix_key (mix_x : Z) : string :=
  "Mix (" ++ str_of_int mix_x ++ "X)".

(** [mix_vol = 6.0 * (2.0 / mix_x)] *)
Definition mix_vol_of (mix_x : Z) : result float :=
  mf <- of_int mix_x ;;
  Ok (mul (lit 6 0) (div (lit 2 0) mf)).

(** [primers_total = 2 * PRIMER_PER] *)
Definition primers_total : result float :=
  two <- of_int 2 ;;
  Ok (mul two PRIMER_PER).

(** [ddw_vol = PER_SAMPLE_TOTAL - (mix_vol + primers_total)] *)
Definition ddw_vol_of (mix_vol : float) : result float :=
  pt <- primers_total ;;
  Ok (sub PER_SAMPLE_TOTAL (add mix_vol pt)).

(** The dict literal [per_sample], its four keys inserted in source order. *)
Definition per_sample_of (mix_x : Z) (ddw_vol mix_vol : float) : dict float :=
  dict_set
    (dict_set
       (dict_set
          (dict_set [] "DDW" ddw_vol)
          (mix_key mix_x) mix_vol)
       "Primer Fwd" PRIMER_PER)
    "Primer Rev" PRIMER_PER.

(** [factor = 1.0 + (excess_percent / 100.0)] *)
Definition factor_of (excess_percent : float) : float :=
  add (lit 1 0) (div excess_percent (lit 100 0)).

(** One entry of the dict comprehension:
    [k: round_to_half(v * n_samples * factor)]. *)
Definition scale_entry (n_samples : Z) (factor : float)
    (kv : string * float) : result (string * float) :=
  nf <- of_int n_samples ;;
  r <- round_to_half (mul (mul (snd kv) nf) factor) ;;
  Ok (fst kv, r).

(** [sum(values)]: the [int] 0 plus the floats, left to right.  (CPython
    from 3.12 on carries a compensation term as well; it is zero, and the
    result the same, whenever the additions are exact.) *)
Definition sum (values : list float) : result float :=
  zero <- of_int 0 ;;
  Ok (fold_left add values zero).

(** The returned tuple [(per_sample, totals, grand_total)]. *)
Record calculation : Type := {
  per_sample : dict float;
  totals : dict float;
  grand_total : float
}.

(** [PCRLogic.calculate(n_samples, excess_percent, mix_x)] *)
Definition calculate (n_samples : Z) (excess_percent : float) (mix_x : Z)
  : result calculation :=
  if negb (Z.eqb mix_x 2 || Z.eqb mix_x 5) then Raise InvalidMixFactor
  else
    mix_vol <- mix_vol_of mix_x ;;
    ddw_vol <- ddw_vol_of mix_vol ;;
    if ltb ddw_vol (S754_zero false) then Raise NegativeDiluentVolume
    else
      let per := per_sample_of mix_x ddw_vol mix_vol in
      let factor := factor_of excess_percent in
      tot <- mapM (scale_entry n_samples factor) per ;;
      grand <- sum (dict_values tot) ;;
      Ok {| per_sample := per; totals := tot; grand_total := grand |}.

(** *** The report formatter *)

(** [format(x, ".1f")]: the decimal with one fractional digit nearest to
    the exact value of [x], ties to the even one. *)
Definition format_1f (x : float) : string :=
  match x with
  | S754_nan => "nan"
  | S754_infinity s => if s then "-inf" else "inf"
  | S754_zero s => if s then "-0.0" else "0.0"
  | S754_finite s m e =>
      let tenths := match e with
                    | Z0 => Zpos (10 * m)
                    | Zpos p => Zpos (10 * m) * 2 ^ Zpos p
                    | Zneg p => shift_round_even (10 * m) p
                    end in
      (if s then "-" else "")
        ++ str_of_int (tenths / 10) ++ "." ++ str_of_int (tenths mod 10)
  end.

Definition spaces (n : nat) : string := string_of_list_ascii (repeat " "%char n).

(** [format(s, "<w")] and [format(s, ">w")] *)
Definition ljust (w : nat) (s : string) : string :=
  s ++ spaces (w - String.length s).
Definition rjust (w : nat) (s : string) : string :=
  spaces (w - String.length s) ++ s.

(** The unit suffix: a space, the micro sign U+00B5 and [L]. *)
Definition uL : string := String " " (String (ascii_of_nat 181) "L").

Definition rule (c : ascii) : string := string_of_list_ascii (repeat c 50).

(** A table line: the name left-justified in 20 columns, then the two
    value columns. *)
Definition table_row (name per_col mix_col : string) : string :=
  ljust 20 name ++ " | " ++ per_col ++ " | " ++ mix_col.

(** [f"{name:<20} | {v:>7.1f} uL | {t:>9.1f} uL"], with the micro sign
    U+00B5 where this comment writes [u]. *)
Definition volume_row (name : string) (v t : float) : string :=
  table_row name (rjust 7 (format_1f v) ++ uL) (rjust 9 (format_1f t) ++ uL).

(** [tot[k]] *)
Definition dict_item (d : dict float) (k : string) : result float :=
  match dict_get d k with
  | Some v => Ok v
  | None => Raise (KeyError k)
  end.

Definition ingredient_row (tot : dict float) (kv : string * float)
  : result string :=
  t <- dict_item tot (fst kv) ;;
  Ok (volume_row (fst kv) (snd kv) t).

(** ["\n".join(lines)] *)
Definition join_lines (lines : list string) : string :=
  String.concat (String "010" "") lines.

Section Report.

(** [str(x)] of a float, the interpreter's shortest representation that
    reads back as [x]; it only occurs in the header line. *)
Variable str_of_float : float -> string.

Definition header (n : Z) (exc : float) (mx : Z) : list string :=
  [ "PCR Report | Samples: " ++ str_of_int n
      ++ " | Excess: " ++ str_of_float exc
      ++ "% | Mix: " ++ str_of_int mx ++ "X";
    rule "=";
    table_row "INGREDIENT" (rjust 10 "PER SAMPLE") (rjust 12 "MASTER MIX");
    rule "-" ].

(** [PCRLogic.format_text_report(n, exc, mx, per, tot, grand)] *)
Definition format_text_report (n : Z) (exc : float) (mx : Z)
    (per tot : dict float) (grand : float) : result string :=
  rows <- mapM (ingredient_row tot) per ;;
  Ok (join_lines
        (header n exc mx ++ rows
           ++ [rule "-"; volume_row "TOTAL VOLUME" PER_SAMPLE_TOTAL grand])).

End Report.

End PCRLogic.

(** ** What the program does to the outside world *)

(** The calls that reach the terminal, the file system, the clipboard and
    the dialogs, in the order the program makes them.  A [print] or an
    [input] that raises is recorded with the [str] of its exception. *)
Inductive event : Type :=
| Printed (text : string)              (* [print(text)] *)
| Print_raised (text message : string) (* [print(text)] raised *)
| Prompted (prompt : string)           (* [input(prompt)] *)
| Input_raised (prompt message : string) (* [input(prompt)] raised *)
| Written (path text : string)         (* [open(path, "w")], [f.write(text)] *)
| Clipboard_clear                      (* [root.clipboard_clear()] *)
| Clipboard_append (text : string)     (* [root.clipboard_append(text)] *)
| Showinfo (title message : string)    (* [messagebox.showinfo] *)
| Showerror (title message : string)   (* [messagebox.showerror] *)
| Asksaveasfilename.                   (* [filedialog.asksaveasfilename] *)

(** A line feed. *)
Definition nl : string := String "010" "".

(** Truth value of a [str], and of an attribute that is [None] or a [str]. *)
Definition truthy (s : string) : bool := negb (String.eqb s "").
Definition truthy_opt (s : option string) : bool :=
  match s with
  | Some p => truthy p
  | None => false
  end.

(** ** The form's input check *)

Module PCRGui.

(** [PCRGui.get_inputs].  The three arguments are the outcomes of
    [var_samples.get()], [var_excess.get()] and
    [int(var_mix.get().replace("X", ""))], each of which may raise; any
    exception makes the method return [None]. *)
Definition get_inputs (var_samples : result Z) (var_excess : result float)
    (var_mix : result Z) : option (Z * float * Z) :=
  match
    (n <- var_samples ;;
     e <- var_excess ;;
     m <- var_mix ;;
     if Z.ltb n 1 then Raise (ValueError "Samples < 1")
     else if Float64.ltb e (S754_zero false) then Raise (ValueError "Excess < 0")
     else Ok (n, e, m))
  with
  | Ok v => Some v
  | Raise _ => None
  end.

(** *** The form's widgets *)

(** What [update_calc] writes to: the rows of the table, the text and the
    foreground of the grand-total label, the text of the status line, and
    the attribute [current_report], which the object does not have until a
    calculation has succeeded. *)
Record form : Type := {
  tree : list (string * string * string);
  lbl_grand_total : string * string;
  lbl_status : string;
  current_report : option string
}.

Definition set_tree (rows : list (string * string * string)) (g : form) : form :=
  {| tree := rows;
     lbl_grand_total := lbl_grand_total g;
     lbl_status := lbl_status g;
     current_report := current_report g |}.

Definition set_lbl_grand_total (text foreground : string) (g : form) : form :=
  {| tree := tree g;
     lbl_grand_total := (text, foreground);
     lbl_status := lbl_status g;
     current_report := current_report g |}.

Definition set_lbl_status (text : string) (g : form) : form :=
  {| tree := tree g;
     lbl_grand_total := lbl_grand_total g;
     lbl_status := text;
     current_report := current_report g |}.

Definition set_current_report (text : string) (g : form) : form :=
  {| tree := tree g;
     lbl_grand_total := lbl_grand_total g;
     lbl_status := lbl_status g;
     current_report := Some text |}.

(** The loop [for k in per.keys(): tree.insert("", "end", values=(k,
    f"{per[k]:.1f}", f"{tot[k]:.1f}"))]: each row goes below the ones
    before it; a lookup that raises leaves the rows inserted so far. *)
Fixpoint insert_rows (per tot : dict float) (keys : list string) (g : form)
  : form * option exn :=
  match keys with
  | [] => (g, None)
  | k :: ks =>
      match (v <- PCRLogic.dict_item per k ;;
             t <- PCRLogic.dict_item tot k ;;
             Ok (k, PCRLogic.format_1f v, PCRLogic.format_1f t)) with
      | Ok row => insert_rows per tot ks (set_tree (tree g ++ [row])%list g)
      | Raise x => (g, Some x)
      end
  end.

(** [except ValueError as e: lbl_status.config(text=str(e))]: the message
    of a [ValueError] goes to the status line; any other exception leaves
    the method. *)
Definition except_ValueError (g : form) (x : exn) : form * option exn :=
  match x with
  | ValueError msg => (set_lbl_status msg g, None)
  | _ => (g, Some x)
  end.

Section Form.

Variable str_of_float : Float64.float -> string.

(** [PCRGui.update_calc]: the form after the call, and the exception that
    left the method, if one did.  The first three arguments are those of
    [get_inputs]. *)
Definition update_calc (var_samples : result Z)
    (var_excess : result Float64.float) (var_mix : result Z) (g : form)
  : form * option exn :=
  let inputs := get_inputs var_samples var_excess var_mix in
  let g := set_tree [] g in
  match inputs with
  | None =>
      (set_lbl_status "Please check your input values."
         (set_lbl_grand_total "Invalid Input" "red" g), None)
  | Some (n, exc, mx) =>
      match PCRLogic.calculate n exc mx with
      | Raise x => except_ValueError g x
      | Ok r =>
          let per := PCRLogic.per_sample r in
          let tot := PCRLogic.totals r in
          let grand := PCRLogic.grand_total r in
          match insert_rows per tot (dict_keys per) g with
          | (g, Some x) => except_ValueError g x
          | (g, None) =>
              let g := set_lbl_grand_total
                         (PCRLogic.format_1f grand ++ PCRLogic.uL) "#0055aa" g in
              let g := set_lbl_status "" g in
              match PCRLogic.format_text_report str_of_float n exc mx
                      per tot grand with
              | Ok text => (set_current_report text g, None)
              | Raise x => except_ValueError g x
              end
          end
      end
  end.

End Form.

(** [PCRGui.copy_to_clipboard] *)
Definition copy_to_clipboard (g : form) : list event :=
  match current_report g with
  | Some text =>
      [ Clipboard_clear; Clipboard_append text;
        Showinfo "Copied" "Report copied to clipboard!" ]
  | None => []
  end.

(** [PCRGui.save_report].  [save_path] is the attribute of that name,
    [chosen] the answer of the file dialog (empty when it is cancelled),
    and [open_write path text] the outcome of opening [path] for writing
    and writing [text]: [None] when both succeed, the [str] of the
    exception otherwise. *)
Definition save_report (save_path : option string) (chosen : string)
    (open_write : string -> string -> option string) (g : form) : list event :=
  match current_report g with
  | None => []
  | Some text =>
      let asked := if truthy_opt save_path then [] else [Asksaveasfilename] in
      let path := match save_path with
                  | Some p => if truthy p then p else chosen
                  | None => chosen
                  end in
      if truthy path then
        match open_write path text with
        | None => (asked ++ [Written path text;
                             Showinfo "Saved" ("Saved to " ++ path)])%list
        | Some msg => (asked ++ [Showerror "Error"
                                   ("Could not save file:" ++ nl ++ msg)])%list
        end
      else asked
  end.

End PCRGui.

(** ** The command line *)

(** The namespace that [argparse] hands to [run_cli_mode]. *)
Record args : Type := {
  samples : option Z;
  excess : Float64.float;
  mix : Z;
  save : option string;
  no_gui : bool
}.

(** What [input(prompt)] gives: the line typed, or an exception (the end of
    the input, a prompt that cannot be written), held by its [str]. *)
Inductive answer : Type :=
| Typed (line : string)
| Not_typed (message : string).

(** How [run_cli_mode] ends: it returns to its caller, it leaves through
    [sys.exit(status)], or an exception leaves it, held by its [str]. *)
Inductive ending : Type :=
| Returned
| Exited (status : Z)
| Uncaught (message : string).

(** The statements of a [try] block: the events they make, and the value
    they reach or the [str] of the exception that ends them. *)
Definition io (A : Type) : Type := list event * (A + string).

Definition io_ret {A : Type} (a : A) : io A := ([], inl a).

Definition io_bind {A B : Type} (x : io A) (k : A -> io B) : io B :=
  match x with
  | (ev, inl a) => let '(ev', r) := k a in ((ev ++ ev')%list, r)
  | (ev, inr msg) => (ev, inr msg)
  end.

Notation "x <~ r ;; k" := (io_bind r (fun x => k))
  (at level 61, r at next level, right associativity).

Section Cli.

(** [str(x)] of a float and [repr(s)] of a string, as the interpreter
    prints them; [int(s)] and [float(s)]; what the three [input] calls
    give; the outcome of [print(text)] and that of opening a file for
    writing and writing a text to it ([None] on success, the [str] of the
    exception otherwise). *)
Variable str_of_float : Float64.float -> string.
Variable repr : string -> string.
Variable int_of_str : string -> result Z.
Variable float_of_str : string -> result Float64.float.
Variables s_in e_in m_in : answer.
Variable stdout : string -> option string.
Variable open_write : string -> string -> option string.

(** [str(e)] of an exception; that of a [KeyError] is the [repr] of its
    key. *)
Definition str_of_exn (x : exn) : string :=
  match x with
  | ValueError msg | OverflowError msg => msg
  | KeyError key => repr key
  end.

(** A computation of the engine inside the [try] block. *)
Definition raises {A : Type} (r : result A) : io A :=
  match r with
  | Ok a => ([], inl a)
  | Raise x => ([], inr (str_of_exn x))
  end.

(** [print(text)] *)
Definition py_print (text : string) : io unit :=
  match stdout text with
  | None => ([Printed text], inl tt)
  | Some msg => ([Print_raised text msg], inr msg)
  end.

(** [input(prompt)] *)
Definition py_input (prompt : string) (a : answer) : io string :=
  match a with
  | Typed line => ([Prompted prompt], inl line)
  | Not_typed msg => ([Input_raised prompt msg], inr msg)
  end.

(** [with open(path, 'w') as f: f.write(text)] *)
Definition py_write (path text : string) : io unit :=
  match open_write path text with
  | None => ([Written path text], inl tt)
  | Some msg => ([], inr msg)
  end.

(** The banner and the three prompts of the interactive mode. *)
Definition prompts : list event :=
  [ Printed "--- PCR Calculator (CLI) ---";
    Prompted "Number of samples: ";
    Prompted ("Excess % [" ++ str_of_float DEFAULT_EXCESS ++ "]: ");
    Prompted "Mix (2 or 5) [2]: " ].

(** The first branch of [run_cli_mode]: the three answers are read first
    and converted afterwards, an empty answer standing for its default. *)
Definition interactive_inputs : io (Z * Float64.float * Z) :=
  _ <~ py_print "--- PCR Calculator (CLI) ---" ;;
  s <~ py_input "Number of samples: " s_in ;;
  e <~ py_input ("Excess % [" ++ str_of_float DEFAULT_EXCESS ++ "]: ") e_in ;;
  m <~ py_input "Mix (2 or 5) [2]: " m_in ;;
  n <~ raises (if truthy s then int_of_str s else Ok DEFAULT_SAMPLES) ;;
  exc <~ raises (if truthy e then float_of_str e else Ok DEFAULT_EXCESS) ;;
  mx <~ raises (if truthy m then int_of_str m else Ok 2) ;;
  io_ret (n, exc, mx).

(** The [try] block of [run_cli_mode] once [n], [exc] and [mx] are set:
    the calculation, the report and the optional save. *)
Definition report_and_save (a : args) (i : Z * Float64.float * Z) : io unit :=
  let '(n, exc, mx) := i in
  r <~ raises (PCRLogic.calculate n exc mx) ;;
  report <~ raises (PCRLogic.format_text_report str_of_float n exc mx
                      (PCRLogic.per_sample r) (PCRLogic.totals r)
                      (PCRLogic.grand_total r)) ;;
  _ <~ py_print (nl ++ report ++ nl) ;;
  match save a with
  | Some path =>
      if truthy path then
        _ <~ py_write path report ;;
        py_print ("[+] Saved to " ++ path)
      else io_ret tt
  | None => io_ret tt
  end.

(** The [try] block of [run_cli_mode]. *)
Definition try_block (a : args) : io unit :=
  i <~ match samples a with
       | None => interactive_inputs
       | Some n => io_ret (n, excess a, mix a)
       end ;;
  report_and_save a i.

(** [except Exception as e: print(f"Error: {e}"); sys.exit(1)], after the
    events [ev] of the [try] block.  A [print] that raises here is caught
    by nothing. *)
Definition except_Exception (ev : list event) (msg : string)
  : list event * ending :=
  match stdout ("Error: " ++ msg) with
  | None => ((ev ++ [Printed ("Error: " ++ msg)])%list, Exited 1)
  | Some err =>
      ((ev ++ [Print_raised ("Error: " ++ msg) err])%list, Uncaught err)
  end.

(** [run_cli_mode(args)]: what it prints, asks and writes, and how it
    ends. *)
Definition run_cli_mode (a : args) : list event * ending :=
  match try_block a with
  | (ev, inl _) => (ev, Returned)
  | (ev, inr msg) => except_Exception ev msg
  end.

End Cli.

(** ** The volumes the specification names *)

Module Spec.

Import Float64.

(** [6.0 * (2.0 / mixFactor)] *)
Definition mix_volume (mix_x : Z) : float :=
  mul (lit 6 0) (div (lit 2 0) (normalize mix_x 0)).

(** [11.0 - (mixVolume + 2 * 0.5)] *)
Definition ddw_volume (mix_x : Z) : float :=
  sub (lit 11 0) (add (mix_volume mix_x) (mul (lit 2 0) (lit 1 (-1)))).

(** The per-sample mapping, in display order. *)
Definition per_sample (mix_x : Z) : dict float :=
  [ ("DDW", ddw_volume mix_x);
    ("Mix (" ++ str_of_int mix_x ++ "X)", mix_volume mix_x);
    ("Primer Fwd", lit 1 (-1));
    ("Primer Rev", lit 1 (-1)) ].

(** Rounding to the nearest integer with halves away from zero, the
    tie rule the specification words name. *)
Definition shift_round_away (m : positive) (p : positive) : Z :=
  let d := 2 ^ Zpos p in
  let q := Zpos m / d in
  let r := Zpos m mod d in
  if Z.ltb (2 * r) d then q else q + 1.

Definition round_half_away (x : float) : result Z :=
  match x with
  | S754_nan => Raise (ValueError "cannot convert float NaN to integer")
  | S754_infinity _ =>
      Raise (OverflowError "cannot convert float infinity to integer")
  | S754_zero _ => Ok 0
  | S754_finite s m e =>
      let k := match e with
               | Z0 => Zpos m
               | Zpos p => Zpos m * 2 ^ Zpos p
               | Zneg p => shift_round_away m p
               end in
      Ok (if s then - k else k)
  end.

(** [round(x * 2) / 2] under the half-away-from-zero rule. *)
Definition round_to_half_away (x : float) : result float :=
  k <- round_half_away (mul x (lit 2 0)) ;;
  kf <- of_int k ;;
  Ok (div kf (lit 2 0)).

End Spec.

(** * Predicates of the statements *)

Import Float64 PCRLogic.

Notation "'fexp64'" := (fexp prec emax).
Notation "'bra'" := (binary_round_aux prec emax).

(** The exceptions the float arithmetic itself can raise: an [int] outside
    the float range, or the rounding of an infinity or a NaN. *)
Definition range_error (x : exn) : Prop :=
  x = OverflowError "int too large to convert to float"
  \/ x = OverflowError "cannot convert float infinity to integer"
  \/ x = ValueError "cannot convert float NaN to integer".

(** The float made of a rounded mantissa and its exponent. *)
Definition pack (s : bool) (m e : Z) : spec_float :=
  match m with
  | Z0 => S754_zero s
  | Zpos p => if Z.leb e (emax - prec) then S754_finite s p e else S754_infinity s
  | Zneg _ => S754_nan
  end.

(** [x] is a zero or a finite float below [2^K] in magnitude, with an
    exponent of at most [K]. *)
Definition fbound (K : Z) (x : spec_float) : Prop :=
  match x with
  | S754_zero _ => True
  | S754_finite _ m e => Zdigits2 (Zpos m) + e <= K /\ e <= K
  | _ => False
  end.

(** [x] is not below zero: its sign bit is clear, or it is a zero or a NaN. *)
Definition not_negative (x : float) : Prop :=
  match x with
  | S754_nan | S754_zero _ => True
  | S754_infinity s | S754_finite s _ _ => s = false
  end.

(** [k] is an integer nearest to [x], and the even one of the two when [x]
    lies halfway. *)
Definition nearest_even (x : Q) (k : Z) : Prop :=
  (Qabs (x - inject_Z k) <= 1 # 2)%Q
  /\ ((Qabs (x - inject_Z k) == 1 # 2)%Q -> Z.even k = true).

(** [x] is exactly [k / 2]. *)
Definition is_half (k : Z) (x : float) : Prop :=
  match x with
  | S754_zero _ => k = 0
  | S754_finite s m e =>
      (if s then Zneg m else Zpos m) * 2 ^ Z.max 0 (e + 1)
      = k * 2 ^ Z.max 0 (- (e + 1))
  | _ => False
  end.

(** An integer [k] that a float can hold: once aligned to 53 digits, the
    bits to drop are zero. *)
Definition representable (k : Z) : Prop :=
  let f := Zdigits2 k - prec in
  let ez := Z.min 0 f in
  (k * 2 ^ (- ez)) mod 2 ^ (f - ez) = 0.

Definition Zsum (ks : list Z) : Z := fold_right Z.add 0 ks.

Definition Qsum (l : list Q) : Q := fold_left Qplus l 0%Q.

(** A decimal numeral with exactly one digit after the point. *)
Definition one_decimal (s : string) : Prop :=
  exists (sign : string) (whole d : Z),
    (sign = "" \/ sign = "-")
    /\ 0 <= whole /\ 0 <= d <= 9
    /\ s = sign ++ str_of_int whole ++ "."
             ++ String (ascii_of_nat (48 + Z.to_nat d)) "".

(** [s] is made of blanks only. *)
Definition blank (s : string) : Prop :=
  Forall (fun c => c = " "%char) (list_ascii_of_string s).

(** [field] is [s] left-justified, or right-justified, in [w] columns:
    blanks fill it up to the width on one side, and nothing is cut from a
    longer [s]. *)
Definition left_justified (w : nat) (s field : string) : Prop :=
  exists pad,
    blank pad /\ field = s ++ pad
    /\ String.length field = Nat.max w (String.length s).
Definition right_justified (w : nat) (s field : string) : Prop :=
  exists pad,
    blank pad /\ field = pad ++ s
    /\ String.length field = Nat.max w (String.length s).

(** [s] is the text of [x] with one decimal: the sign, then the numeral of
    [tenths / 10], a point and the digit [tenths mod 10], where [tenths] is
    the integer nearest to ten times the magnitude of [x], the even one on a
    tie; [nan], [inf] and [-inf] for the values that are no numbers. *)
Definition decimal_1f (x : float) (s : string) : Prop :=
  match x with
  | S754_nan => s = "nan"
  | S754_infinity sg => s = (if sg then "-inf" else "inf")
  | S754_zero sg | S754_finite sg _ _ =>
      exists tenths : Z,
        nearest_even (Qabs (to_Q x) * 10) tenths
        /\ s = (if sg then "-" else "") ++ str_of_int (tenths / 10) ++ "."
                 ++ String (ascii_of_nat (48 + Z.to_nat (tenths mod 10))) ""
  end.

(** [row] is a line of the table for [name] with the volumes [v] and [t]:
    the name left-justified in 20 columns, the two volumes with one decimal
    right-justified in 7 and in 9 columns, each followed by a blank, the
    micro sign U+00B5 and [L], the three fields separated by a bar between
    blanks. *)
Definition volume_line (name : string) (v t : float) (row : string) : Prop :=
  exists fname sv fv st ft,
    left_justified 20 name fname
    /\ decimal_1f v sv /\ right_justified 7 sv fv
    /\ decimal_1f t st /\ right_justified 9 st ft
    /\ row = fname ++ " | " ++ fv ++ String " " (String "181" "L")
               ++ " | " ++ ft ++ String " " (String "181" "L").

(** ** Literal readings of the specification that the code does not meet *)

(** Read literally: for every valid input [calculate] returns, with the
    fixed per-sample mapping. *)
Definition per_sample_always_returned : Prop :=
  forall (n : Z) (e : float) (m : Z),
    1 <= n -> leb (S754_zero false) e = true -> m = 2 \/ m = 5 ->
    exists r, calculate n e m = Ok r /\ per_sample r = Spec.per_sample m.

(** Read literally: every scaled volume is the raw product rounded to the
    nearest 0.5 with halves away from zero. *)
Definition scaled_half_away : Prop :=
  forall (n : Z) (e : float) (m : Z) (r : calculation),
    1 <= n -> leb (S754_zero false) e = true -> m = 2 \/ m = 5 ->
    calculate n e m = Ok r ->
    forall name v t nf,
      In (name, v) (per_sample r) ->
      dict_get (totals r) name = Some t ->
      of_int n = Ok nf ->
      Spec.round_to_half_away (mul (mul v nf) (factor_of e)) = Ok t.

(** Read literally: on every valid input the grand total is the exact sum
    of the four scaled volumes. *)
Definition grand_total_always_exact : Prop :=
  forall (n : Z) (e : float) (m : Z) (r : calculation),
    1 <= n -> leb (S754_zero false) e = true -> m = 2 \/ m = 5 ->
    calculate n e m = Ok r ->
    (to_Q (grand_total r) == Qsum (map to_Q (dict_values (totals r))))%Q.

(** Read literally: [calculate] returns for every sample count of at least
    1 and every excess percent of at least 0. *)
Definition always_returns : Prop :=
  forall (n : Z) (e : float) (m : Z),
    1 <= n -> leb (S754_zero false) e = true -> m = 2 \/ m = 5 ->
    exists r, calculate n e m = Ok r.

(** Read literally: with a supported mix factor [calculate] returns for
    any sample count and any excess percent. *)
Definition never_raises : Prop :=
  forall (n : Z) (e : float) (m : Z),
    m = 2 \/ m = 5 -> exists r, calculate n e m = Ok r.

(** * Properties *)

(** ** The result monad *)

Lemma bind_Ok_inv {A B : Type} (r : result A) (k : A -> result B) (b : B) :
  bind r k = Ok b -> exists a, r = Ok a /\ k a = Ok b.
Proof.
  destruct r as [a|x]; simpl; intros H.
  - exists a; split; [reflexivity | exact H].
  - discriminate H.
Qed.

Lemma bind_Raise_inv {A B : Type} (r : result A) (k : A -> result B) (x : exn) :
  bind r k = Raise x -> r = Raise x \/ exists a, r = Ok a /\ k a = Raise x.
Proof.
  destruct r as [a|y]; simpl; intros H.
  - right; exists a; split; [reflexivity | exact H].
  - left; injection H as ->; reflexivity.
Qed.

Lemma mapM_Ok_Forall2 {A B : Type} (f : A -> result B) :
  forall l bs, mapM f l = Ok bs -> Forall2 (fun a b => f a = Ok b) l bs.
Proof.
  induction l as [|a t IH]; simpl; intros bs H.
  - injection H as <-. constructor.
  - apply bind_Ok_inv in H as (b & Hb & H).
    apply bind_Ok_inv in H as (bs' & Hbs & H).
    injection H as <-. constructor; auto.
Qed.

Lemma mapM_Raise_In {A B : Type} (f : A -> result B) :
  forall l x, mapM f l = Raise x -> exists a, In a l /\ f a = Raise x.
Proof.
  induction l as [|a t IH]; simpl; intros x H.
  - discriminate H.
  - apply bind_Raise_inv in H as [H | (b & Hb & H)].
    + exists a; auto.
    + apply bind_Raise_inv in H as [H | (bs & Hbs & H)].
      * destruct (IH _ H) as (a' & Hin & Ha'). exists a'; auto.
      * discriminate H.
Qed.

Lemma mapM_all_Ok {A B : Type} (f : A -> result B) :
  forall l, (forall a, In a l -> exists b, f a = Ok b) ->
            exists bs, mapM f l = Ok bs.
Proof.
  induction l as [|a t IH]; simpl; intros H.
  - eexists; reflexivity.
  - destruct (H a (or_introl eq_refl)) as (b & ->).
    destruct IH as (bs & ->); [intros; apply H; auto|].
    simpl. eexists; reflexivity.
Qed.

(** * Float arithmetic *)

(** ** Binary digits *)

Lemma digits2_pos_size (p : positive) : digits2_pos p = Pos.size p.
Proof. induction p; simpl; congruence. Qed.

Lemma Zdigits2_nonneg (m : Z) : 0 <= Zdigits2 m.
Proof. destruct m; simpl; lia. Qed.

(** For a non-negative [m], [Zdigits2 m] is the least [k] with [m < 2^k]. *)
Lemma Zdigits2_le (m k : Z) :
  0 <= m -> 0 <= k -> (Zdigits2 m <= k <-> m < 2 ^ k).
Proof.
  intros Hm Hk. destruct m as [|p|p]; [| |lia].
  - simpl. split; intros _; [apply Z.pow_pos_nonneg|]; lia.
  - simpl. rewrite digits2_pos_size.
    pose proof (Pos.size_gt p) as Hgt. pose proof (Pos.size_le p) as Hle.
    apply Pos2Z.pos_lt_pos in Hgt. apply Pos2Z.pos_le_pos in Hle.
    rewrite Pos2Z.inj_pow in Hgt, Hle.
    change (Zpos p~0) with (2 * Zpos p) in Hle.
    split; intros H.
    + eapply Z.lt_le_trans; [exact Hgt|].
      apply Z.pow_le_mono_r; lia.
    + destruct (Z.le_gt_cases (Zpos (Pos.size p)) k) as [|Hlt]; [assumption|].
      exfalso.
      assert (2 ^ (k + 1) <= 2 ^ Zpos (Pos.size p))
        by (apply Z.pow_le_mono_r; lia).
      rewrite Z.pow_add_r in H0 by lia. lia.
Qed.

Lemma Zdigits2_gt (m k : Z) :
  0 <= m -> 0 <= k -> (k < Zdigits2 m <-> 2 ^ k <= m).
Proof. intros Hm Hk. pose proof (Zdigits2_le m k Hm Hk). lia. Qed.

Lemma Zdigits2_mono (a b : Z) : 0 <= a <= b -> Zdigits2 a <= Zdigits2 b.
Proof.
  intros H. apply Zdigits2_le; [lia | apply Zdigits2_nonneg |].
  eapply Z.le_lt_trans; [apply H|].
  apply Zdigits2_le; [lia | apply Zdigits2_nonneg | lia].
Qed.

Lemma Zdigits2_succ (a : Z) : 0 <= a -> Zdigits2 (a + 1) <= Zdigits2 a + 1.
Proof.
  intros H. pose proof (Zdigits2_nonneg a).
  apply Zdigits2_le; [lia | lia |].
  assert (a < 2 ^ Zdigits2 a) by (apply Zdigits2_le; lia).
  rewrite Z.pow_add_r by lia. lia.
Qed.

(** Dropping [n] low bits drops [n] digits, down to none. *)
Lemma Zdigits2_div_pow2 (m n : Z) :
  0 <= m -> 0 <= n -> Zdigits2 (m / 2 ^ n) + n <= Z.max (Zdigits2 m) n.
Proof.
  intros Hm Hn. pose proof (Zdigits2_nonneg m) as Hd.
  assert (Hp : 0 < 2 ^ n) by (apply Z.pow_pos_nonneg; lia).
  assert (Hq : 0 <= m / 2 ^ n) by (apply Z.div_pos; lia).
  cut (Zdigits2 (m / 2 ^ n) <= Z.max (Zdigits2 m) n - n); [lia|].
  apply Zdigits2_le; [lia | lia |].
  apply Z.div_lt_upper_bound; [lia|].
  rewrite <- Z.pow_add_r by lia.
  replace (n + (Z.max (Zdigits2 m) n - n)) with (Z.max (Zdigits2 m) n) by lia.
  assert (m < 2 ^ Zdigits2 m) by (apply Zdigits2_le; lia).
  eapply Z.lt_le_trans; [eassumption|].
  apply Z.pow_le_mono_r; lia.
Qed.

Lemma Zdigits2_mul_pow2 (m n : Z) :
  0 < m -> 0 <= n -> Zdigits2 (m * 2 ^ n) = Zdigits2 m + n.
Proof.
  intros Hm Hn.
  assert (Hd : 0 < Zdigits2 m) by (destruct m; simpl; lia).
  assert (Hp : 0 < 2 ^ n) by (apply Z.pow_pos_nonneg; lia).
  assert (Hlt : m < 2 ^ Zdigits2 m) by (apply Zdigits2_le; lia).
  assert (Hge : 2 ^ (Zdigits2 m - 1) <= m) by (apply Zdigits2_gt; lia).
  apply Z.le_antisymm.
  - apply Zdigits2_le; [nia | lia |]. rewrite Z.pow_add_r by lia. nia.
  - cut (Zdigits2 m + n - 1 < Zdigits2 (m * 2 ^ n)); [lia|].
    apply Zdigits2_gt; [nia | lia |].
    replace (Zdigits2 m + n - 1) with ((Zdigits2 m - 1) + n) by lia.
    rewrite Z.pow_add_r by lia. nia.
Qed.

Lemma Zdigits2_mul (a b : Z) :
  0 <= a -> 0 <= b -> Zdigits2 (a * b) <= Zdigits2 a + Zdigits2 b.
Proof.
  intros Ha Hb.
  pose proof (Zdigits2_nonneg a). pose proof (Zdigits2_nonneg b).
  apply Zdigits2_le; [nia | lia |].
  assert (a < 2 ^ Zdigits2 a) by (apply Zdigits2_le; lia).
  assert (b < 2 ^ Zdigits2 b) by (apply Zdigits2_le; lia).
  rewrite Z.pow_add_r by lia. nia.
Qed.

Lemma Zdigits2_div (a b : Z) :
  0 <= a -> 0 < b ->
  Zdigits2 (a / b) <= Z.max (Zdigits2 a - Zdigits2 b + 1) 0.
Proof.
  intros Ha Hb.
  assert (Hdb : 0 < Zdigits2 b) by (destruct b; simpl; lia).
  assert (Hba : 2 ^ (Zdigits2 b - 1) <= b) by (apply Zdigits2_gt; lia).
  assert (Hab : a < 2 ^ Zdigits2 a)
    by (apply Zdigits2_le; [lia | apply Zdigits2_nonneg | lia]).
  pose proof (Zdigits2_nonneg a) as Hda.
  assert (Hp : 0 < 2 ^ (Zdigits2 b - 1)) by (apply Z.pow_pos_nonneg; lia).
  apply Zdigits2_le; [apply Z.div_pos; lia | lia |].
  apply Z.div_lt_upper_bound; [lia|].
  eapply Z.lt_le_trans; [exact Hab|].
  set (k := Z.max (Zdigits2 a - Zdigits2 b + 1) 0).
  assert (Hk : 0 < 2 ^ k) by (apply Z.pow_pos_nonneg; lia).
  apply Z.le_trans with (2 ^ (Zdigits2 b - 1) * 2 ^ k); [|nia].
  rewrite <- Z.pow_add_r by lia.
  apply Z.pow_le_mono_r; lia.
Qed.

Lemma Zpos_pow2 (p : positive) : Zpos (2 ^ p) = 2 ^ Zpos p.
Proof. apply Pos2Z.inj_pow. Qed.

(** ** Right shifts with sticky bits *)

Lemma iter_pos_nat {A : Type} (f : A -> A) (p : positive) (x : A) :
  iter_pos f p x = Nat.iter (Pos.to_nat p) f x.
Proof.
  revert x. induction p as [p IH | p IH |]; intros x; cbn [iter_pos].
  - rewrite !IH, Pos2Nat.inj_xI.
    replace (S (2 * Pos.to_nat p))%nat
      with (Pos.to_nat p + (Pos.to_nat p + 1))%nat by lia.
    rewrite !Nat.iter_add. reflexivity.
  - rewrite !IH, Pos2Nat.inj_xO.
    replace (2 * Pos.to_nat p)%nat
      with (Pos.to_nat p + Pos.to_nat p)%nat by lia.
    rewrite Nat.iter_add. reflexivity.
  - reflexivity.
Qed.

Lemma shr_1_m (mrs : shr_record) :
  0 <= shr_m mrs -> shr_m (shr_1 mrs) = shr_m mrs / 2.
Proof.
  destruct mrs as [m r s]. simpl. intros Hm.
  destruct m as [|[p|p|]|p]; try lia; simpl shr_m.
  - reflexivity.
  - rewrite Pos2Z.inj_xI. apply Z.div_unique with 1; lia.
  - rewrite Pos2Z.inj_xO. apply Z.div_unique with 0; lia.
  - reflexivity.
Qed.

Lemma shr_1_exact (mrs : shr_record) :
  0 <= shr_m mrs -> shr_r mrs = false -> shr_s mrs = false ->
  shr_m mrs mod 2 = 0 ->
  shr_r (shr_1 mrs) = false /\ shr_s (shr_1 mrs) = false.
Proof.
  destruct mrs as [m r s]. simpl. intros Hm -> -> Hmod.
  destruct m as [|[p|p|]|p]; try lia; simpl; auto.
  - exfalso. rewrite Pos2Z.inj_xI in Hmod.
    rewrite Z.add_comm, Z.mul_comm, Z.mod_add in Hmod by lia. discriminate.
  - discriminate.
Qed.

Lemma shr_iter_m (n : nat) (mrs : shr_record) :
  0 <= shr_m mrs ->
  shr_m (Nat.iter n shr_1 mrs) = shr_m mrs / 2 ^ Z.of_nat n.
Proof.
  induction n as [|n IH]; intros Hm.
  - simpl. rewrite Z.div_1_r. reflexivity.
  - rewrite Nat2Z.inj_succ, Z.pow_succ_r by lia.
    assert (Hp : 0 < 2 ^ Z.of_nat n) by (apply Z.pow_pos_nonneg; lia).
    simpl Nat.iter. rewrite shr_1_m.
    + rewrite IH by assumption.
      rewrite Z.div_div by lia.
      f_equal. lia.
    + rewrite IH by assumption. apply Z.div_pos; lia.
Qed.

Lemma shr_iter_exact (n : nat) (mrs : shr_record) :
  0 <= shr_m mrs -> shr_r mrs = false -> shr_s mrs = false ->
  shr_m mrs mod 2 ^ Z.of_nat n = 0 ->
  shr_r (Nat.iter n shr_1 mrs) = false /\ shr_s (Nat.iter n shr_1 mrs) = false.
Proof.
  induction n as [|n IH]; intros Hm Hr Hs Hmod.
  - simpl. auto.
  - rewrite Nat2Z.inj_succ, Z.pow_succ_r in Hmod by lia.
    assert (Hp : 0 < 2 ^ Z.of_nat n) by (apply Z.pow_pos_nonneg; lia).
    assert (Hdiv : (2 * 2 ^ Z.of_nat n | shr_m mrs))
      by (apply Z.mod_divide; [lia | assumption]).
    destruct Hdiv as [c Hc].
    destruct IH as [Hr' Hs']; try assumption.
    { apply Z.mod_divide; [lia|]. exists (2 * c). lia. }
    simpl Nat.iter. apply shr_1_exact; try assumption.
    + rewrite shr_iter_m by assumption. apply Z.div_pos; lia.
    + rewrite shr_iter_m by assumption.
      replace (shr_m mrs) with ((2 * c) * 2 ^ Z.of_nat n) by lia.
      rewrite Z.div_mul by lia.
      rewrite Z.mul_comm. apply Z.mod_mul. lia.
Qed.

Lemma loc_of_shr_record_of_loc (m : Z) (l : location) :
  loc_of_shr_record (shr_record_of_loc m l) = l.
Proof. destruct l as [|[]]; reflexivity. Qed.

Lemma shr_m_of_loc (m : Z) (l : location) : shr_m (shr_record_of_loc m l) = m.
Proof. destruct l as [|[]]; reflexivity. Qed.

Lemma loc_of_exact (mrs : shr_record) :
  shr_r mrs = false -> shr_s mrs = false -> loc_of_shr_record mrs = loc_Exact.
Proof. destruct mrs; simpl; intros -> ->; reflexivity. Qed.

(** [shr_fexp] brings the exponent up to the one the format asks for,
    dropping that many low bits of the mantissa. *)
Lemma shr_fexp_spec (m e : Z) (l : location) :
  0 <= m ->
  let e' := Z.max e (fexp prec emax (Zdigits2 m + e)) in
  exists mrs,
    shr_fexp prec emax m e l = (mrs, e')
    /\ shr_m mrs = m / 2 ^ (e' - e)
    /\ (e' = e -> loc_of_shr_record mrs = l)
    /\ (l = loc_Exact -> m mod 2 ^ (e' - e) = 0 ->
        loc_of_shr_record mrs = loc_Exact).
Proof.
  intros Hm e'. unfold shr_fexp, shr.
  set (t := fexp prec emax (Zdigits2 m + e)) in *.
  destruct (t - e) as [|n|n] eqn:Hn.
  - exists (shr_record_of_loc m l).
    assert (He : e' = e) by (unfold e'; lia).
    rewrite He, Z.sub_diag, Z.div_1_r.
    repeat split; auto using loc_of_shr_record_of_loc, shr_m_of_loc.
    intros ->; reflexivity.
  - assert (He : e' = t) by (unfold e'; lia).
    assert (Hte : e' - e = Z.of_nat (Pos.to_nat n))
      by (rewrite positive_nat_Z; lia).
    exists (iter_pos shr_1 n (shr_record_of_loc m l)).
    rewrite iter_pos_nat, Hte.
    repeat split.
    + f_equal. lia.
    + rewrite shr_iter_m; rewrite shr_m_of_loc; auto.
    + intros. exfalso. lia.
    + intros -> Hmod. apply loc_of_exact; apply shr_iter_exact; auto.
  - exists (shr_record_of_loc m l).
    assert (He : e' = e) by (unfold e'; lia).
    rewrite He, Z.sub_diag, Z.div_1_r.
    repeat split; auto using loc_of_shr_record_of_loc, shr_m_of_loc.
    intros ->; reflexivity.
Qed.

Lemma round_nearest_even_bounds (m : Z) (l : location) :
  m <= round_nearest_even m l <= m + 1.
Proof.
  destruct l as [|[]]; simpl; try lia.
  destruct (Z.even m); lia.
Qed.

(** ** Rounding a mantissa and exponent to the format *)

(** [binary_round_aux] in two steps: drop the bits below the target
    exponent and round ([m2]), then renormalise if the rounding carried. *)
Lemma bra_spec (s : bool) (m e : Z) (l : location) :
  0 <= m ->
  let e1 := Z.max e (fexp64 (Zdigits2 m + e)) in
  let m1 := m / 2 ^ (e1 - e) in
  exists m2,
    m1 <= m2 <= m1 + 1
    /\ (l = loc_Exact -> m mod 2 ^ (e1 - e) = 0 -> m2 = m1)
    /\ let e3 := Z.max e1 (fexp64 (Zdigits2 m2 + e1)) in
       bra s m e l = pack s (m2 / 2 ^ (e3 - e1)) e3.
Proof.
  intros Hm e1 m1. unfold binary_round_aux.
  destruct (shr_fexp_spec m e l Hm) as (mrs & Heq & Hm1 & _ & Hex).
  fold e1 in Heq, Hm1, Hex. rewrite Heq.
  set (m2 := round_nearest_even (shr_m mrs) (loc_of_shr_record mrs)).
  assert (H1 : 0 <= m1).
  { apply Z.div_pos; [assumption | apply Z.pow_pos_nonneg; lia]. }
  assert (Hb : m1 <= m2 <= m1 + 1).
  { unfold m2. rewrite Hm1. apply round_nearest_even_bounds. }
  destruct (shr_fexp_spec m2 e1 loc_Exact ltac:(lia)) as (mrs2 & Heq2 & Hm3 & _).
  rewrite Heq2. exists m2. split; [exact Hb|]. split.
  - intros Hl Hmod. unfold m2. rewrite (Hex Hl Hmod). simpl. exact Hm1.
  - cbv zeta. rewrite Hm3. reflexivity.
Qed.

(** Rounding keeps the sign and never yields a NaN. *)
Lemma bra_shape (s : bool) (m e : Z) (l : location) :
  0 <= m ->
  bra s m e l = S754_zero s
  \/ bra s m e l = S754_infinity s
  \/ exists p e', bra s m e l = S754_finite s p e'.
Proof.
  intros Hm.
  destruct (bra_spec s m e l Hm) as (m2 & Hb & _ & ->).
  set (e1 := Z.max e (fexp64 (Zdigits2 m + e))) in *.
  assert (H1 : 0 <= m / 2 ^ (e1 - e)).
  { apply Z.div_pos; [assumption | apply Z.pow_pos_nonneg; unfold e1; lia]. }
  set (e3 := Z.max e1 (fexp64 (Zdigits2 m2 + e1))).
  assert (H3 : 0 <= m2 / 2 ^ (e3 - e1)).
  { apply Z.div_pos; [lia | apply Z.pow_pos_nonneg; unfold e3; lia]. }
  unfold pack. destruct (m2 / 2 ^ (e3 - e1)) as [|q|q]; [auto | | lia].
  destruct (Z.leb e3 (emax - prec)); eauto.
Qed.

(** The mantissa of a rounded float has at most [prec] digits. *)
Lemma bra_digits (s : bool) (m e : Z) (l : location) (s' : bool) (p : positive) (e' : Z) :
  0 <= m -> bra s m e l = S754_finite s' p e' ->
  s' = s /\ Zdigits2 (Zpos p) <= prec.
Proof.
  intros Hm.
  destruct (bra_spec s m e l Hm) as (m2 & Hb & _ & ->).
  set (e1 := Z.max e (fexp64 (Zdigits2 m + e))) in *.
  set (m1 := m / 2 ^ (e1 - e)) in *.
  set (e3 := Z.max e1 (fexp64 (Zdigits2 m2 + e1))).
  assert (H1 : 0 <= m1).
  { apply Z.div_pos; [assumption | apply Z.pow_pos_nonneg; lia]. }
  unfold pack. destruct (m2 / 2 ^ (e3 - e1)) as [|q|q] eqn:Hq; try discriminate.
  destruct (Z.leb e3 (emax - prec)); try discriminate.
  intros H. injection H as -> -> <-. split; [reflexivity|].
  rewrite <- Hq.
  pose proof (Zdigits2_div_pow2 m2 (e3 - e1) ltac:(lia) ltac:(unfold e3; lia)) as Hd.
  assert (0 < Zdigits2 (m2 / 2 ^ (e3 - e1))) by (rewrite Hq; simpl; lia).
  assert (Hf : Zdigits2 m2 + e1 - prec <= fexp64 (Zdigits2 m2 + e1))
    by (unfold fexp; lia).
  unfold e3 in *. lia.
Qed.

(** A mantissa whose dropped bits are all zero is rounded exactly. *)
Lemma bra_exact (s : bool) (m e : Z) :
  0 < m ->
  let t := Z.max e (fexp64 (Zdigits2 m + e)) in
  m mod 2 ^ (t - e) = 0 ->
  bra s m e loc_Exact = pack s (m / 2 ^ (t - e)) t
  /\ Zdigits2 (m / 2 ^ (t - e)) + t = Zdigits2 m + e
  /\ m / 2 ^ (t - e) * 2 ^ (t - e) = m.
Proof.
  intros Hm t Hmod.
  destruct (bra_spec s m e loc_Exact ltac:(lia)) as (m2 & _ & Hex & Heq).
  fold t in Hex, Heq. rewrite (Hex eq_refl Hmod) in Heq.
  set (m1 := m / 2 ^ (t - e)) in *.
  assert (Hte : 0 <= t - e) by (unfold t; lia).
  assert (Hp : 0 < 2 ^ (t - e)) by (apply Z.pow_pos_nonneg; lia).
  assert (Hm1 : m1 * 2 ^ (t - e) = m).
  { pose proof (Z.div_mod m (2 ^ (t - e)) ltac:(lia)) as Hdm.
    rewrite Hmod in Hdm. fold m1 in Hdm. lia. }
  assert (H1 : 0 < m1) by nia.
  assert (Hd : Zdigits2 m1 + t = Zdigits2 m + e).
  { pose proof (Zdigits2_mul_pow2 m1 (t - e) H1 Hte) as Hdd.
    rewrite Hm1 in Hdd. lia. }
  split; [|split; assumption].
  rewrite Heq. cbv zeta. rewrite Hd.
  replace (Z.max t (fexp64 (Zdigits2 m + e))) with t by (unfold t; lia).
  rewrite Z.sub_diag, Z.pow_0_r, Z.div_1_r. reflexivity.
Qed.

Lemma pack_finite_inv (s : bool) (M f : Z) :
  0 < M -> is_finite (pack s M f) = true -> f <= emax - prec.
Proof.
  intros HM. destruct M as [|p|p]; try lia. unfold pack.
  destruct (Z.leb_spec f (emax - prec)); [auto | discriminate].
Qed.

(** ** Left alignment *)

Lemma Pos_iter_xO (m d : positive) :
  Zpos (Pos.iter xO m d) = Zpos m * 2 ^ Zpos d.
Proof.
  induction d as [|d IH] using Pos.peano_ind.
  - simpl. lia.
  - rewrite Pos.iter_succ, Pos2Z.inj_xO, IH, Pos2Z.inj_succ, Z.pow_succ_r; lia.
Qed.

Lemma shl_align_spec (mx : positive) (ex ex' : Z) :
  snd (shl_align mx ex ex') = Z.min ex ex'
  /\ Zpos (fst (shl_align mx ex ex')) = Zpos mx * 2 ^ (ex - Z.min ex ex').
Proof.
  unfold shl_align. destruct (ex' - ex) as [|d|d] eqn:Hd; cbn [fst snd].
  - replace (Z.min ex ex') with ex by lia. rewrite Z.sub_diag, Z.pow_0_r. lia.
  - replace (Z.min ex ex') with ex by lia. rewrite Z.sub_diag, Z.pow_0_r. lia.
  - replace (Z.min ex ex') with ex' by lia.
    rewrite Pos_iter_xO. split; [reflexivity|]. f_equal. f_equal. lia.
Qed.

Lemma binary_round_eq (s : bool) (mx : positive) (ex : Z) :
  let ez := Z.min ex (fexp64 (Zdigits2 (Zpos mx) + ex)) in
  binary_round prec emax s mx ex = bra s (Zpos mx * 2 ^ (ex - ez)) ez loc_Exact.
Proof.
  intros ez. unfold binary_round.
  change (Zpos (digits2_pos mx)) with (Zdigits2 (Zpos mx)).
  pose proof (shl_align_spec mx ex (fexp64 (Zdigits2 (Zpos mx) + ex))) as [H1 H2].
  destruct (shl_align mx ex _) as [mz ez']. simpl in H1, H2.
  fold ez in H1, H2. subst ez'. rewrite H2. reflexivity.
Qed.

Lemma binary_normalize_nonzero (M ez : Z) :
  M <> 0 ->
  exists p, Z.abs M = Zpos p
            /\ binary_normalize prec emax M ez false
               = binary_round prec emax (Z.ltb M 0) p ez.
Proof.
  intros HM. destruct M as [|p|p]; [lia | |]; exists p; split; reflexivity.
Qed.

(** ** Literals *)

Lemma lit_1_eq : lit 1 0 = S754_finite false 4503599627370496 (-52).
Proof. vm_compute. reflexivity. Qed.

Lemma lit_2_eq : lit 2 0 = S754_finite false 4503599627370496 (-51).
Proof. vm_compute. reflexivity. Qed.

Lemma lit_100_eq : lit 100 0 = S754_finite false 7036874417766400 (-46).
Proof. vm_compute. reflexivity. Qed.

(** ** Magnitude bounds *)

Lemma fbound_mono (K K' : Z) (x : spec_float) :
  K <= K' -> fbound K x -> fbound K' x.
Proof. destruct x; simpl; intros; lia. Qed.

Lemma fbound_is_finite (K : Z) (x : float) : fbound K x -> is_finite x = true.
Proof. destruct x; simpl; intros H; try reflexivity; contradiction. Qed.

Lemma fexp64_le (D K : Z) : D <= K -> 0 <= K -> fexp64 D <= K.
Proof. unfold fexp, emin, prec, emax. lia. Qed.

Lemma pack_fbound (s : bool) (m e K : Z) :
  0 <= m -> Zdigits2 m + e <= K -> e <= K -> K <= emax - prec ->
  fbound K (pack s m e).
Proof.
  intros Hm HD He HK. unfold pack. destruct m as [|p|p]; [exact I| |lia].
  destruct (Z.leb_spec e (emax - prec)); [|lia].
  simpl. auto.
Qed.

Lemma bra_fbound (s : bool) (m e : Z) (l : location) (K : Z) :
  0 <= m -> Zdigits2 m + e <= K -> e <= K -> 0 <= K -> K + 1 <= emax - prec ->
  fbound (K + 1) (bra s m e l).
Proof.
  intros Hm HD He HK0 HK.
  destruct (bra_spec s m e l Hm) as (m2 & Hb & _ & ->).
  set (e1 := Z.max e (fexp64 (Zdigits2 m + e))) in *.
  set (m1 := m / 2 ^ (e1 - e)) in *.
  set (e3 := Z.max e1 (fexp64 (Zdigits2 m2 + e1))).
  assert (Ht : fexp64 (Zdigits2 m + e) <= K) by (apply fexp64_le; lia).
  assert (He1 : e <= e1 <= K) by (unfold e1; lia).
  assert (H1 : 0 <= m1).
  { apply Z.div_pos; [assumption | apply Z.pow_pos_nonneg; lia]. }
  assert (HD1 : Zdigits2 m1 + e1 <= K).
  { pose proof (Zdigits2_div_pow2 m (e1 - e) Hm ltac:(lia)). fold m1 in H. lia. }
  assert (HD2 : Zdigits2 m2 + e1 <= K + 1).
  { pose proof (Zdigits2_mono m2 (m1 + 1) ltac:(lia)).
    pose proof (Zdigits2_succ m1 H1). lia. }
  assert (Ht2 : fexp64 (Zdigits2 m2 + e1) <= K + 1) by (apply fexp64_le; lia).
  assert (He3 : e1 <= e3 <= K + 1) by (unfold e3; lia).
  apply pack_fbound; try lia.
  - apply Z.div_pos; [lia | apply Z.pow_pos_nonneg; lia].
  - pose proof (Zdigits2_div_pow2 m2 (e3 - e1) ltac:(lia) ltac:(lia)). lia.
Qed.

Lemma binary_round_fbound (s : bool) (mx : positive) (ex K : Z) :
  Zdigits2 (Zpos mx) + ex <= K -> ex <= K -> 0 <= K -> K + 1 <= emax - prec ->
  fbound (K + 1) (binary_round prec emax s mx ex).
Proof.
  intros HD He HK0 HK. rewrite binary_round_eq. cbv zeta.
  set (ez := Z.min ex (fexp64 (Zdigits2 (Zpos mx) + ex))).
  assert (0 <= ex - ez) by (unfold ez; lia).
  apply bra_fbound; [ | | | lia | lia].
  - apply Z.mul_nonneg_nonneg; [lia | apply Z.pow_nonneg; lia].
  - rewrite Zdigits2_mul_pow2 by lia. lia.
  - unfold ez; lia.
Qed.

Lemma binary_normalize_fbound (m e : Z) (sz : bool) (K : Z) :
  Zdigits2 m + e <= K -> e <= K -> 0 <= K -> K + 1 <= emax - prec ->
  fbound (K + 1) (binary_normalize prec emax m e sz).
Proof.
  intros HD He HK0 HK. destruct m as [|p|p]; simpl binary_normalize.
  - exact I.
  - apply binary_round_fbound; assumption.
  - apply binary_round_fbound; assumption.
Qed.

Lemma mul_fbound (x y : spec_float) (Kx Ky : Z) :
  fbound Kx x -> fbound Ky y -> 0 <= Kx -> 0 <= Ky ->
  Kx + Ky + 1 <= emax - prec ->
  fbound (Kx + Ky + 1) (SFmul prec emax x y).
Proof.
  intros Hx Hy H0x H0y HK.
  destruct x as [sx|sx| |sx mx ex], y as [sy|sy| |sy my ey];
    unfold fbound in Hx, Hy; try contradiction; try exact I.
  unfold SFmul. apply bra_fbound; try lia.
  rewrite Pos2Z.inj_mul.
  pose proof (Zdigits2_mul (Zpos mx) (Zpos my) ltac:(lia) ltac:(lia)). lia.
Qed.

(** Division by a float of magnitude at least 1. *)
Lemma div_fbound (x y : spec_float) (K : Z) :
  fbound K x -> 0 <= K -> K + 1 <= emax - prec ->
  match y with
  | S754_finite _ my ey => 1 <= Zdigits2 (Zpos my) + ey
  | _ => False
  end ->
  fbound (K + 1) (SFdiv prec emax x y).
Proof.
  intros Hx HK0 HK Hy.
  destruct y as [sy|sy| |sy my ey]; try contradiction.
  destruct x as [sx|sx| |sx mx ex]; unfold fbound in Hx; try contradiction;
    [exact I|].
  destruct Hx as [HD He].
  unfold SFdiv, SFdiv_core_binary.
  set (d1 := Zdigits2 (Zpos mx)) in *. set (d2 := Zdigits2 (Zpos my)) in *.
  set (e' := Z.min (fexp64 (d1 + ex - (d2 + ey))) (ex - ey)).
  set (sh := ex - ey - e').
  assert (Hsh : 0 <= sh) by (unfold sh, e'; lia).
  assert (Hm' : match sh with
                | Zpos _ => Z.shiftl (Zpos mx) sh
                | Z0 => Zpos mx
                | Zneg _ => 0
                end = Zpos mx * 2 ^ sh).
  { destruct sh as [|p|p] eqn:E; [lia | | lia].
    rewrite Z.shiftl_mul_pow2 by lia. reflexivity. }
  rewrite Hm'.
  pose proof (Z.div_eucl_eq (Zpos mx * 2 ^ sh) (Zpos my) ltac:(lia)) as Hdiv.
  pose proof (Z.mod_pos_bound (Zpos mx * 2 ^ sh) (Zpos my) ltac:(lia)) as Hmod.
  unfold Z.modulo in Hmod.
  destruct (Z.div_eucl (Zpos mx * 2 ^ sh) (Zpos my)) as [q r] eqn:Hqr.
  assert (Hq : q = Zpos mx * 2 ^ sh / Zpos my).
  { apply Z.div_unique with r; lia. }
  assert (Hpos : 0 <= Zpos mx * 2 ^ sh)
    by (apply Z.mul_nonneg_nonneg; [lia | apply Z.pow_nonneg; lia]).
  assert (Hq0 : 0 <= q) by (rewrite Hq; apply Z.div_pos; lia).
  assert (He' : e' <= K).
  { unfold e'. pose proof (fexp64_le (d1 + ex - (d2 + ey)) K ltac:(lia) HK0). lia. }
  apply bra_fbound; try lia.
  pose proof (Zdigits2_div (Zpos mx * 2 ^ sh) (Zpos my) Hpos ltac:(lia)) as Hdq.
  rewrite Zdigits2_mul_pow2 in Hdq by lia. rewrite <- Hq in Hdq.
  fold d1 d2 in Hdq. unfold sh in Hdq. lia.
Qed.

Lemma add_fbound (x y : spec_float) (K : Z) :
  fbound K x -> fbound K y -> 0 <= K -> K + 2 <= emax - prec ->
  fbound (K + 2) (SFadd prec emax x y).
Proof.
  intros Hx Hy HK0 HK.
  destruct x as [sx|sx| |sx mx ex], y as [sy|sy| |sy my ey];
    unfold fbound in Hx, Hy; try contradiction.
  - destruct sx, sy; exact I.
  - unfold SFadd, fbound. lia.
  - unfold SFadd, fbound. lia.
  - unfold SFadd.
    set (ez := Z.min ex ey).
    destruct (shl_align_spec mx ex ez) as [_ Hmx].
    destruct (shl_align_spec my ey ez) as [_ Hmy].
    rewrite Hmx, Hmy.
    replace (Z.min ex ez) with ez by (unfold ez; lia).
    replace (Z.min ey ez) with ez by (unfold ez; lia).
    set (a := Zpos mx * 2 ^ (ex - ez)). set (b := Zpos my * 2 ^ (ey - ez)).
    assert (Hda : Zdigits2 a + ez <= K).
    { unfold a. rewrite Zdigits2_mul_pow2 by (unfold ez; lia). lia. }
    assert (Hdb : Zdigits2 b + ez <= K).
    { unfold b. rewrite Zdigits2_mul_pow2 by (unfold ez; lia). lia. }
    assert (Ha : 0 < a) by (unfold a; apply Z.mul_pos_pos;
                            [lia | apply Z.pow_pos_nonneg; unfold ez; lia]).
    assert (Hb : 0 < b) by (unfold b; apply Z.mul_pos_pos;
                            [lia | apply Z.pow_pos_nonneg; unfold ez; lia]).
    assert (Hez : ez <= K) by (unfold ez; lia).
    assert (Hla : a < 2 ^ (K - ez)).
    { apply Zdigits2_le; lia. }
    assert (Hlb : b < 2 ^ (K - ez)).
    { apply Zdigits2_le; lia. }
    replace (K + 2) with ((K + 1) + 1) by lia.
    apply binary_normalize_fbound; try lia.
    set (M := cond_Zopp sx a + cond_Zopp sy b).
    assert (HM : Z.abs M < 2 ^ (K - ez + 1)).
    { rewrite Z.pow_add_r by lia. unfold M, cond_Zopp. destruct sx, sy; lia. }
    assert (Zdigits2 (Z.abs M) <= K - ez + 1)
      by (apply Zdigits2_le; lia).
    assert (Zdigits2 M = Zdigits2 (Z.abs M)) by (destruct M; reflexivity).
    lia.
Qed.

Lemma of_int_fbound (n K : Z) :
  Z.abs n < 2 ^ K -> 0 <= K -> K + 1 <= emax - prec ->
  fbound (K + 1) (normalize n 0) /\ of_int n = Ok (normalize n 0).
Proof.
  intros Hn HK0 HK.
  assert (Hb : fbound (K + 1) (normalize n 0)).
  { unfold normalize. apply binary_normalize_fbound; try lia.
    assert (Zdigits2 (Z.abs n) <= K) by (apply Zdigits2_le; lia).
    assert (Zdigits2 n = Zdigits2 (Z.abs n)) by (destruct n; reflexivity).
    lia. }
  split; [exact Hb|].
  unfold of_int. rewrite (fbound_is_finite _ _ Hb). reflexivity.
Qed.

(** ** Division *)

Lemma div_finite_spec (sx : bool) (mx : positive) (ex : Z)
    (sy : bool) (my : positive) (ey : Z) :
  let e' := Z.min (fexp64 (Zdigits2 (Zpos mx) + ex - (Zdigits2 (Zpos my) + ey)))
              (ex - ey) in
  let a := Zpos mx * 2 ^ (ex - ey - e') in
  SFdiv prec emax (S754_finite sx mx ex) (S754_finite sy my ey)
  = bra (xorb sx sy) (a / Zpos my) e' (new_location (Zpos my) (a mod Zpos my)).
Proof.
  intros e' a. unfold SFdiv, SFdiv_core_binary.
  fold e'. set (sh := ex - ey - e').
  assert (Hsh : 0 <= sh) by (unfold sh, e'; lia).
  assert (Hm' : match sh with
                | Zpos _ => Z.shiftl (Zpos mx) sh
                | Z0 => Zpos mx
                | Zneg _ => 0
                end = a).
  { unfold a. fold sh. destruct sh as [|p|p] eqn:E; [lia | | lia].
    rewrite Z.shiftl_mul_pow2 by lia. reflexivity. }
  rewrite Hm'. unfold Z.div, Z.modulo.
  destruct (Z.div_eucl a (Zpos my)) as [q r]. reflexivity.
Qed.

(** Halving a normal float of moderate exponent only lowers the exponent. *)
Lemma div_two_exact (s : bool) (M f : Z) :
  0 < M -> Zdigits2 M = prec -> emin prec emax + 1 < f <= emax - prec ->
  div (pack s M f) (lit 2 0) = S754_finite s (Z.to_pos M) (f - 1).
Proof.
  intros HM Hd Hf.
  destruct M as [|p|p]; try lia.
  unfold pack. destruct (Z.leb_spec f (emax - prec)); [|lia].
  rewrite lit_2_eq. unfold div. rewrite div_finite_spec. cbv zeta.
  rewrite Hd. change (Zdigits2 (Zpos 4503599627370496)) with 53.
  assert (He' : Z.min (fexp64 (prec + f - (53 + -51))) (f - -51) = f - 2).
  { unfold fexp, emin, emax, prec in *. lia. }
  rewrite He'.
  replace (f - -51 - (f - 2)) with 53 by lia.
  replace (Zpos p * 2 ^ 53) with (2 * Zpos p * 4503599627370496)
    by (change (2 ^ 53) with 9007199254740992; lia).
  rewrite Z.div_mul, Z.mod_mul by lia.
  change (new_location (Zpos 4503599627370496) 0) with loc_Exact.
  rewrite xorb_false_r.
  assert (Hd2 : Zdigits2 (2 * Zpos p) = prec + 1).
  { pose proof (Zdigits2_mul_pow2 (Zpos p) 1 ltac:(lia) ltac:(lia)) as H2.
    change (2 ^ 1) with 2 in H2. rewrite Z.mul_comm in H2. lia. }
  pose proof (bra_exact s (2 * Zpos p) (f - 2) ltac:(lia)) as Hbra.
  cbv zeta in Hbra. rewrite Hd2 in Hbra.
  assert (Ht : Z.max (f - 2) (fexp64 (prec + 1 + (f - 2))) = f - 1).
  { unfold fexp, emin, emax, prec in *. lia. }
  rewrite Ht in Hbra.
  replace (f - 1 - (f - 2)) with 1 in Hbra by lia.
  change (2 ^ 1) with 2 in Hbra.
  destruct Hbra as (Heq & _ & _).
  { rewrite Z.mul_comm. apply Z.mod_mul. lia. }
  rewrite Heq.
  replace (2 * Zpos p / 2) with (Zpos p)
    by (rewrite Z.mul_comm, Z.div_mul; lia).
  unfold pack. destruct (Z.leb_spec (f - 1) (emax - prec)); [|lia].
  reflexivity.
Qed.

(** ** Signs *)

Lemma bra_not_negative (m e : Z) (l : location) :
  0 <= m -> not_negative (bra false m e l).
Proof.
  intros Hm.
  destruct (bra_shape false m e l Hm) as [-> | [-> | (p & e' & ->)]];
    simpl; auto.
Qed.

Lemma mul_not_negative (x y : float) :
  not_negative x -> not_negative y -> not_negative (mul x y).
Proof.
  unfold mul.
  destruct x as [sx|sx| |sx mx ex], y as [sy|sy| |sy my ey];
    unfold not_negative, SFmul; intros Hx Hy; subst; auto.
  apply bra_not_negative. lia.
Qed.

Lemma div_not_negative (mx : positive) (ex : Z) (my : positive) (ey : Z) :
  not_negative (div (S754_finite false mx ex) (S754_finite false my ey)).
Proof.
  unfold div. rewrite div_finite_spec. cbv zeta.
  apply bra_not_negative. apply Z.div_pos; [|lia].
  apply Z.mul_nonneg_nonneg; [lia|]. apply Z.pow_nonneg. lia.
Qed.

Lemma add_not_negative (mx : positive) (ex : Z) (y : float) :
  not_negative y -> y <> S754_nan ->
  not_negative (add (S754_finite false mx ex) y).
Proof.
  intros Hy Hnan. unfold add.
  destruct y as [sy|sy| |sy my ey]; unfold not_negative in Hy; subst.
  - reflexivity.
  - reflexivity.
  - congruence.
  - unfold SFadd, cond_Zopp.
    set (a := fst (shl_align mx ex (Z.min ex ey))).
    set (b := fst (shl_align my ey (Z.min ex ey))).
    change (Zpos a + Zpos b) with (Zpos (a + b)).
    unfold binary_normalize. rewrite binary_round_eq. cbv zeta.
    apply bra_not_negative.
    apply Z.mul_nonneg_nonneg; [lia|]. apply Z.pow_nonneg. lia.
Qed.

Lemma normalize_not_negative (n : Z) : 0 <= n -> not_negative (normalize n 0).
Proof.
  intros Hn. destruct n as [|p|p]; [exact I | | lia].
  unfold normalize, binary_normalize. rewrite binary_round_eq. cbv zeta.
  apply bra_not_negative.
  apply Z.mul_nonneg_nonneg; [lia|]. apply Z.pow_nonneg. lia.
Qed.

(** ** Conversions and [round] *)

Lemma of_int_Raise (n : Z) (x : exn) : of_int n = Raise x -> range_error x.
Proof.
  unfold of_int. destruct (is_finite _); intros H; [discriminate H|].
  injection H as <-. left; reflexivity.
Qed.

Lemma of_int_Ok (n : Z) (x : float) : of_int n = Ok x -> x = normalize n 0.
Proof.
  unfold of_int. destruct (is_finite _); intros H; [|discriminate H].
  injection H as <-. reflexivity.
Qed.

Lemma round_Raise (y : float) (x : exn) : round y = Raise x -> range_error x.
Proof.
  destruct y; simpl; intros H; try discriminate H; injection H as <-.
  - right; left; reflexivity.
  - right; right; reflexivity.
Qed.

Lemma round_finite (s : bool) (m : positive) (e : Z) :
  round (S754_finite s m e)
  = Ok (if s then - round_magnitude m e else round_magnitude m e).
Proof. reflexivity. Qed.

Lemma round_magnitude_pos (m p : positive) :
  round_magnitude m (Zpos p) = Zpos m * 2 ^ Zpos p.
Proof. reflexivity. Qed.

Lemma round_magnitude_neg (m p : positive) :
  round_magnitude m (Zneg p) = shift_round_even m p.
Proof. reflexivity. Qed.

Lemma shift_round_even_spec (m p : positive) :
  let k := shift_round_even m p in
  let d := 2 ^ Zpos p in
  Z.abs (2 * (Zpos m - k * d)) <= d
  /\ (Z.abs (2 * (Zpos m - k * d)) = d -> Z.even k = true).
Proof.
  unfold shift_round_even.
  assert (Hd : 0 < 2 ^ Zpos p) by (apply Z.pow_pos_nonneg; lia).
  set (d := 2 ^ Zpos p) in *.
  pose proof (Z.div_mod (Zpos m) d ltac:(lia)) as Hdm.
  pose proof (Z.mod_pos_bound (Zpos m) d Hd) as Hr.
  set (q := Zpos m / d) in *. set (r := Zpos m mod d) in *.
  assert (Hdiff : forall k, Zpos m - k * d = (q - k) * d + r) by (intros; lia).
  cbv zeta.
  destruct (Z.compare_spec (2 * r) d) as [He | Hl | Hg].
  - destruct (Z.even q) eqn:Hq.
    + rewrite Hdiff. replace ((q - q) * d + r) with r by lia.
      split; [lia | auto].
    + rewrite Hdiff. replace ((q - (q + 1)) * d + r) with (r - d) by lia.
      split; [lia|]. intros _.
      rewrite Z.even_add, Hq. reflexivity.
  - rewrite Hdiff. replace ((q - q) * d + r) with r by lia.
    split; lia.
  - rewrite Hdiff. replace ((q - (q + 1)) * d + r) with (r - d) by lia.
    split; lia.
Qed.

Lemma shift_round_even_bounds (m p : positive) :
  Zpos m / 2 ^ Zpos p <= shift_round_even m p <= Zpos m / 2 ^ Zpos p + 1.
Proof.
  unfold shift_round_even.
  destruct (2 * (Zpos m mod 2 ^ Zpos p) ?= 2 ^ Zpos p); try lia.
  destruct (Z.even _); lia.
Qed.

Lemma shift_round_even_nonneg (m p : positive) : 0 <= shift_round_even m p.
Proof.
  pose proof (shift_round_even_bounds m p).
  assert (0 <= Zpos m / 2 ^ Zpos p).
  { apply Z.div_pos; [lia | apply Z.pow_pos_nonneg; lia]. }
  lia.
Qed.

Lemma round_finite_nearest (s : bool) (m : positive) (e : Z) :
  nearest_even (to_Q (S754_finite s m e))
    (if s then - round_magnitude m e else round_magnitude m e).
Proof.
  assert (E : forall a, (Qabs (inject_Z a - inject_Z a) == 0)%Q).
  { intros a. unfold Qminus. rewrite Qplus_opp_r. reflexivity. }
  unfold nearest_even.
  destruct e as [| p | p].
  - change (round_magnitude m 0) with (Zpos m). unfold to_Q.
    replace (if s then - Zpos m else Zpos m)
      with (if s then Zneg m else Zpos m) by (destruct s; reflexivity).
    rewrite E. split; [vm_compute; discriminate | vm_compute; discriminate].
  - rewrite round_magnitude_pos. unfold to_Q.
    replace (if s then - (Zpos m * 2 ^ Zpos p) else Zpos m * 2 ^ Zpos p)
      with ((if s then Zneg m else Zpos m) * 2 ^ Zpos p)
      by (destruct s; [apply (Z.mul_opp_l (Zpos m)) | reflexivity]).
    rewrite E. split; [vm_compute; discriminate | vm_compute; discriminate].
  - rewrite round_magnitude_neg. unfold to_Q.
    destruct (shift_round_even_spec m p) as [Hle Htie].
    set (k := shift_round_even m p) in *.
    assert (Hd : 0 < 2 ^ Zpos p) by (apply Z.pow_pos_nonneg; lia).
    unfold Qle, Qeq, Qabs, Qminus, Qplus, Qopp, inject_Z.
    simpl Qnum; simpl Qden.
    rewrite Pos.mul_1_r, Zpos_pow2.
    set (d := 2 ^ Zpos p) in *.
    destruct s.
    + change (Zneg m) with (- Zpos m).
      replace (- Zpos m * 1 + - - k * d) with (- (Zpos m - k * d)) by lia.
      rewrite Z.abs_opp, Z.even_opp. split; [lia | intros; apply Htie; lia].
    + replace (Zpos m * 1 + - k * d) with (Zpos m - k * d) by lia.
      split; [lia | intros; apply Htie; lia].
Qed.

(** Python's [round] returns a nearest integer, ties to even. *)
Lemma round_nearest_even (x : float) (k : Z) :
  round x = Ok k -> nearest_even (to_Q x) k.
Proof.
  destruct x as [s | s | | s m e]; intros H; try discriminate H.
  - injection H as <-. split; [vm_compute; discriminate | reflexivity].
  - injection H as <-. apply round_finite_nearest.
Qed.

Lemma round_magnitude_bounds (m : positive) (e K : Z) :
  Zdigits2 (Zpos m) + e <= K -> 0 <= K ->
  0 <= round_magnitude m e <= 2 ^ K.
Proof.
  intros HD HK.
  assert (Hd : 0 < Zdigits2 (Zpos m)) by (simpl; lia).
  assert (Hm : Zpos m < 2 ^ Zdigits2 (Zpos m)) by (apply Zdigits2_le; lia).
  destruct e as [|p|p].
  - change (round_magnitude m 0) with (Zpos m).
    assert (2 ^ Zdigits2 (Zpos m) <= 2 ^ K) by (apply Z.pow_le_mono_r; lia).
    lia.
  - rewrite round_magnitude_pos.
    assert (Hp : 0 < 2 ^ Zpos p) by (apply Z.pow_pos_nonneg; lia).
    assert (2 ^ (Zdigits2 (Zpos m) + Zpos p) <= 2 ^ K)
      by (apply Z.pow_le_mono_r; lia).
    rewrite Z.pow_add_r in H by lia. nia.
  - rewrite round_magnitude_neg.
    pose proof (shift_round_even_bounds m p) as Hb.
    assert (Hp : 0 < 2 ^ Zpos p) by (apply Z.pow_pos_nonneg; lia).
    assert (Hq0 : 0 <= Zpos m / 2 ^ Zpos p) by (apply Z.div_pos; lia).
    pose proof (Zdigits2_div_pow2 (Zpos m) (Zpos p) ltac:(lia) ltac:(lia)) as Hq.
    assert (Hlt : Zpos m / 2 ^ Zpos p < 2 ^ K).
    { apply Zdigits2_le; lia. }
    lia.
Qed.

Lemma round_fbound (x : float) (K : Z) :
  fbound K x -> 0 <= K -> exists k, round x = Ok k /\ Z.abs k <= 2 ^ K.
Proof.
  intros Hx HK. destruct x as [s|s| |s m e]; try contradiction.
  - exists 0. split; [reflexivity|]. simpl. apply Z.pow_nonneg; lia.
  - destruct Hx as [HD _].
    pose proof (round_magnitude_bounds m e K HD HK).
    rewrite round_finite. eexists; split; [reflexivity|].
    destruct s; lia.
Qed.

Lemma round_not_negative (x : float) (k : Z) :
  not_negative x -> round x = Ok k -> 0 <= k.
Proof.
  destruct x as [s|s| |s m e]; unfold not_negative; intros Hx H;
    try discriminate H.
  - injection H as <-. lia.
  - subst s. rewrite round_finite in H. injection H as <-.
    apply (round_magnitude_bounds m e (Z.max 0 (Zdigits2 (Zpos m) + e))); lia.
Qed.

Lemma mul_digits (x y : float) (s : bool) (m : positive) (e : Z) :
  mul x y = S754_finite s m e -> Zdigits2 (Zpos m) <= prec.
Proof.
  unfold mul. destruct x as [sx|sx| |sx mx ex], y as [sy|sy| |sy my ey];
    unfold SFmul; try discriminate.
  intros H. apply bra_digits in H; [tauto | lia].
Qed.

Lemma representable_small (k : Z) :
  0 <= k -> Zdigits2 k <= prec -> representable k.
Proof.
  intros Hk Hd. unfold representable. cbv zeta.
  replace (Z.min 0 (Zdigits2 k - prec)) with (Zdigits2 k - prec) by lia.
  rewrite Z.sub_diag, Z.pow_0_r. apply Z.mod_1_r.
Qed.

Lemma round_magnitude_representable (m : positive) (e : Z) :
  Zdigits2 (Zpos m) <= prec -> representable (round_magnitude m e).
Proof.
  intros Hd.
  assert (Hdm : 0 < Zdigits2 (Zpos m)) by (simpl; lia).
  destruct e as [|p|p].
  - apply representable_small; [change (round_magnitude m 0) with (Zpos m); lia|].
    exact Hd.
  - rewrite round_magnitude_pos. unfold representable. cbv zeta.
    rewrite Zdigits2_mul_pow2 by lia.
    set (f := Zdigits2 (Zpos m) + Zpos p - prec).
    destruct (Z.le_gt_cases f 0) as [Hf | Hf].
    + replace (Z.min 0 f) with f by lia.
      rewrite Z.sub_diag, Z.pow_0_r. apply Z.mod_1_r.
    + replace (Z.min 0 f) with 0 by lia.
      rewrite Z.sub_0_r. change (- 0) with 0. rewrite Z.pow_0_r, Z.mul_1_r.
      replace (Zpos p) with ((Zpos p - f) + f) by lia.
      rewrite Z.pow_add_r by (unfold f; lia).
      rewrite Z.mul_assoc. apply Z.mod_mul.
      apply Z.pow_nonzero; lia.
  - rewrite round_magnitude_neg.
    pose proof (shift_round_even_bounds m p) as Hb.
    assert (Hp : 0 < 2 ^ Zpos p) by (apply Z.pow_pos_nonneg; lia).
    assert (Hq0 : 0 <= Zpos m / 2 ^ Zpos p) by (apply Z.div_pos; lia).
    apply representable_small; [lia|].
    apply Zdigits2_le; [lia | unfold prec; lia |].
    assert (Hm : Zpos m < 2 ^ prec)
      by (apply Zdigits2_le; [lia | unfold prec; lia | exact Hd]).
    assert (H2 : 2 <= 2 ^ Zpos p).
    { change 2 with (2 ^ 1) at 1. apply Z.pow_le_mono_r; lia. }
    assert (Hq : Zpos m / 2 ^ Zpos p < 2 ^ (prec - 1)).
    { apply Z.div_lt_upper_bound; [lia|].
      replace (2 ^ prec) with (2 * 2 ^ (prec - 1)) in Hm
        by (rewrite <- Z.pow_succ_r by (unfold prec; lia); f_equal; lia).
      assert (0 < 2 ^ (prec - 1)) by (apply Z.pow_pos_nonneg; unfold prec; lia).
      nia. }
    replace (2 ^ prec) with (2 * 2 ^ (prec - 1))
      by (rewrite <- Z.pow_succ_r by (unfold prec; lia); f_equal; lia).
    assert (0 < 2 ^ (prec - 1)) by (apply Z.pow_pos_nonneg; unfold prec; lia).
    lia.
Qed.

Lemma normalize_exact (k : Z) :
  k <> 0 -> representable (Z.abs k) ->
  let f := Zdigits2 k - prec in
  let ez := Z.min 0 f in
  exists M,
    normalize k 0 = pack (Z.ltb k 0) M f
    /\ 0 < M
    /\ Zdigits2 M = prec
    /\ M * 2 ^ (f - ez) = Z.abs k * 2 ^ (- ez).
Proof.
  intros Hk Hrep f ez.
  assert (Hdig : Zdigits2 (Z.abs k) = Zdigits2 k) by (destruct k; reflexivity).
  unfold representable in Hrep. rewrite Hdig in Hrep. fold f ez in Hrep.
  assert (Hnorm : exists p, Z.abs k = Zpos p
                            /\ normalize k 0 = binary_round prec emax (Z.ltb k 0) p 0).
  { destruct k as [|p|p]; [lia | |]; exists p; split; reflexivity. }
  destruct Hnorm as (p & Hp & ->). rewrite Hp in *.
  assert (Hdp : Zdigits2 (Zpos p) = Zdigits2 k) by exact Hdig.
  rewrite binary_round_eq. cbv zeta.
  assert (Hdk : 0 < Zdigits2 (Zpos p)) by (simpl; lia).
  assert (Hf : fexp64 (Zdigits2 (Zpos p) + 0) = f).
  { rewrite Z.add_0_r. unfold f, fexp, emin, emax, prec. lia. }
  rewrite Hf. fold ez. rewrite Z.sub_0_l.
  assert (Hez : 0 <= - ez) by (unfold ez; lia).
  assert (Ha : 0 < Zpos p * 2 ^ (- ez)).
  { apply Z.mul_pos_pos; [lia | apply Z.pow_pos_nonneg; lia]. }
  assert (Hda : Zdigits2 (Zpos p * 2 ^ (- ez)) + ez = Zdigits2 (Zpos p)).
  { rewrite Zdigits2_mul_pow2 by lia. lia. }
  pose proof (bra_exact (Z.ltb k 0) (Zpos p * 2 ^ (- ez)) ez Ha) as Hbra.
  cbv zeta in Hbra. rewrite Hda in Hbra.
  assert (Hf' : fexp64 (Zdigits2 (Zpos p)) = f).
  { rewrite Z.add_0_r in Hf. exact Hf. }
  rewrite Hf' in Hbra.
  replace (Z.max ez f) with f in Hbra by (unfold ez; lia).
  destruct (Hbra Hrep) as (Heq & Hdig' & Hval).
  exists (Zpos p * 2 ^ (- ez) / 2 ^ (f - ez)).
  split; [exact Heq|].
  assert (Hpp : 0 < 2 ^ (f - ez)) by (apply Z.pow_pos_nonneg; unfold ez; lia).
  split; [nia|]. split; [unfold f in *; lia | exact Hval].
Qed.

(** ** Half-integers *)

Lemma is_half_to_Q (k : Z) (x : float) :
  is_half k x -> (to_Q x * 2 == inject_Z k)%Q.
Proof.
  destruct x as [s|s| |s m e]; unfold is_half; try contradiction.
  - intros ->. reflexivity.
  - set (n := if s then Zneg m else Zpos m). intros H. unfold to_Q. fold n.
    destruct e as [|p|p].
    + change (Z.max 0 (0 + 1)) with 1 in H.
      change (Z.max 0 (- (0 + 1))) with 0 in H.
      change (2 ^ 1) with 2 in H. rewrite Z.pow_0_r in H.
      unfold Qeq, Qmult, inject_Z. cbn [Qnum Qden]. lia.
    + replace (Z.max 0 (Zpos p + 1)) with (Zpos p + 1) in H by lia.
      replace (Z.max 0 (- (Zpos p + 1))) with 0 in H by lia.
      rewrite Z.pow_add_r, Z.pow_0_r in H by lia. change (2 ^ 1) with 2 in H.
      unfold Qeq, Qmult, inject_Z. cbn [Qnum Qden]. lia.
    + assert (Hp : 2 ^ Zpos p = 2 * 2 ^ (Zpos p - 1)).
      { rewrite <- Z.pow_succ_r by lia. f_equal. lia. }
      unfold Qeq, Qmult, inject_Z. cbn [Qnum Qden].
      rewrite Pos.mul_1_r, Zpos_pow2, Hp.
      replace (Z.max 0 (Zneg p + 1)) with 0 in H by lia.
      replace (Z.max 0 (- (Zneg p + 1))) with (Zpos p - 1) in H by lia.
      rewrite Z.pow_0_r in H. lia.
Qed.

(** [is_half] over a common exponent [E] below both the float's exponent and
    [-1]. *)
Lemma is_half_scaled (s : bool) (m : positive) (e k E : Z) :
  E <= e -> E <= -1 ->
  (is_half k (S754_finite s m e)
   <-> (if s then Zneg m else Zpos m) * 2 ^ (e - E) = k * 2 ^ (-1 - E)).
Proof.
  intros He HE. unfold is_half.
  set (n := if s then Zneg m else Zpos m).
  destruct (Z.le_gt_cases (-1) e) as [Hge | Hlt].
  - replace (Z.max 0 (e + 1)) with (e + 1) by lia.
    replace (Z.max 0 (- (e + 1))) with 0 by lia.
    rewrite Z.pow_0_r, Z.mul_1_r.
    replace (e - E) with ((e + 1) + (-1 - E)) by lia.
    rewrite (Z.pow_add_r 2 (e + 1) (-1 - E)), Z.mul_assoc by lia.
    rewrite Z.mul_cancel_r by (apply Z.pow_nonzero; lia).
    reflexivity.
  - replace (Z.max 0 (e + 1)) with 0 by lia.
    replace (Z.max 0 (- (e + 1))) with (-1 - e) by lia.
    rewrite Z.pow_0_r, Z.mul_1_r.
    replace (-1 - E) with ((-1 - e) + (e - E)) by lia.
    rewrite (Z.pow_add_r 2 (-1 - e) (e - E)), Z.mul_assoc by lia.
    rewrite Z.mul_cancel_r by (apply Z.pow_nonzero; lia).
    reflexivity.
Qed.

(** Adding two half-integers whose sum stays below [2^52] in magnitude is
    exact. *)
Lemma add_exact (x y : float) (kx ky : Z) :
  is_half kx x -> is_half ky y -> Z.abs (kx + ky) < 2 ^ 53 ->
  is_half (kx + ky) (add x y).
Proof.
  intros Hx Hy HK.
  destruct x as [sx|sx| |sx mx ex]; try (exfalso; exact Hx);
    destruct y as [sy|sy| |sy my ey]; try (exfalso; exact Hy).
  - unfold is_half in Hx, Hy. subst. destruct sx, sy; reflexivity.
  - unfold is_half in Hx. subst kx. rewrite Z.add_0_l. exact Hy.
  - unfold is_half in Hy. subst ky. rewrite Z.add_0_r. exact Hx.
  - set (nx := if sx then Zneg mx else Zpos mx) in *.
    set (ny := if sy then Zneg my else Zpos my) in *.
    unfold add, SFadd.
    set (ez := Z.min ex ey).
    destruct (shl_align_spec mx ex ez) as [_ Hmx].
    destruct (shl_align_spec my ey ez) as [_ Hmy].
    replace (Z.min ex ez) with ez in Hmx by (unfold ez; lia).
    replace (Z.min ey ez) with ez in Hmy by (unfold ez; lia).
    assert (HM : cond_Zopp sx (Zpos (fst (shl_align mx ex ez)))
                 + cond_Zopp sy (Zpos (fst (shl_align my ey ez)))
                 = nx * 2 ^ (ex - ez) + ny * 2 ^ (ey - ez)).
    { rewrite Hmx, Hmy. unfold cond_Zopp, nx, ny.
      destruct sx, sy; change (Zneg mx) with (- Zpos mx);
        change (Zneg my) with (- Zpos my); lia. }
    rewrite HM. clear HM Hmx Hmy.
    set (M := nx * 2 ^ (ex - ez) + ny * 2 ^ (ey - ez)).
    set (f := fexp64 (Zdigits2 M + ez)).
    set (ez' := Z.min ez f).
    set (E := Z.min ez' (-1)).
    assert (HEx : E <= ex) by (unfold E, ez', ez; lia).
    assert (HEy : E <= ey) by (unfold E, ez', ez; lia).
    assert (HE1 : E <= -1) by (unfold E; lia).
    assert (HEz : E <= ez) by (unfold E, ez'; lia).
    apply (is_half_scaled sx mx ex kx E HEx HE1) in Hx. fold nx in Hx.
    apply (is_half_scaled sy my ey ky E HEy HE1) in Hy. fold ny in Hy.
    assert (Hpc : 0 < 2 ^ (-1 - E)) by (apply Z.pow_pos_nonneg; lia).
    assert (Hpz : 0 < 2 ^ (ez - E)) by (apply Z.pow_pos_nonneg; lia).
    assert (HME : M * 2 ^ (ez - E) = (kx + ky) * 2 ^ (-1 - E)).
    { unfold M. rewrite Z.mul_add_distr_r, <- !Z.mul_assoc.
      rewrite <- !Z.pow_add_r by (unfold ez; lia).
      replace (ex - ez + (ez - E)) with (ex - E) by lia.
      replace (ey - ez + (ez - E)) with (ey - E) by lia.
      rewrite Hx, Hy. lia. }
    destruct (Z.eq_dec M 0) as [HM0 | HM0].
    + rewrite HM0 in *. cbn [binary_normalize]. unfold is_half. nia.
    + destruct (binary_normalize_nonzero M ez HM0) as (p & Hp & ->).
      assert (Hdig : Zdigits2 M = Zdigits2 (Zpos p))
        by (rewrite <- Hp; destruct M; reflexivity).
      assert (Habs : Zpos p * 2 ^ (ez - E) = Z.abs (kx + ky) * 2 ^ (-1 - E)).
      { rewrite <- Hp. destruct (Z.abs_spec M) as [[? ->] | [? ->]];
          destruct (Z.abs_spec (kx + ky)) as [[? ->] | [? ->]]; nia. }
      assert (HD : Zdigits2 (Zpos p) + ez <= 52).
      { assert (Hlt : Zpos p * 2 ^ (ez - E) < 2 ^ (52 - E)).
        { rewrite Habs. replace (52 - E) with (53 + (-1 - E)) by lia.
          rewrite Z.pow_add_r by lia. nia. }
        apply Zdigits2_le in Hlt; [|nia|lia].
        rewrite Zdigits2_mul_pow2 in Hlt by lia. lia. }
      assert (Hf : f <= -1).
      { unfold f. rewrite Hdig. unfold fexp, emin, emax, prec. lia. }
      rewrite binary_round_eq. cbv zeta.
      rewrite <- Hdig. fold f. fold ez'.
      set (A := Zpos p * 2 ^ (ez - ez')).
      assert (Hzz : 0 <= ez - ez') by (unfold ez'; lia).
      assert (HA : 0 < A).
      { unfold A. apply Z.mul_pos_pos; [lia | apply Z.pow_pos_nonneg; lia]. }
      assert (HdA : Zdigits2 A + ez' = Zdigits2 M + ez).
      { unfold A. rewrite Zdigits2_mul_pow2 by lia. lia. }
      pose proof (bra_exact (Z.ltb M 0) A ez' HA) as Hbra.
      cbv zeta in Hbra. rewrite HdA in Hbra. fold f in Hbra.
      replace (Z.max ez' f) with f in Hbra by (unfold ez'; lia).
      assert (Hfz : 0 <= f - ez') by (unfold ez'; lia).
      assert (HAK : A = Z.abs (kx + ky) * 2 ^ (-1 - f) * 2 ^ (f - ez')).
      { assert (HE' : E <= ez') by (unfold E; lia).
        apply (Z.mul_cancel_r _ _ (2 ^ (ez' - E)));
          [apply Z.pow_nonzero; lia|].
        unfold A. rewrite <- !Z.mul_assoc.
        rewrite <- !Z.pow_add_r by lia.
        replace (ez - ez' + (ez' - E)) with (ez - E) by lia.
        replace (-1 - f + (f - ez' + (ez' - E))) with (-1 - E) by lia.
        exact Habs. }
      destruct Hbra as (Heq & _ & _).
      { rewrite HAK. apply Z.mod_mul. apply Z.pow_nonzero; lia. }
      rewrite Heq, HAK, Z.div_mul by (apply Z.pow_nonzero; lia).
      set (M' := Z.abs (kx + ky) * 2 ^ (-1 - f)).
      assert (Hpf : 0 < 2 ^ (-1 - f)) by (apply Z.pow_pos_nonneg; lia).
      assert (HK0 : kx + ky <> 0) by nia.
      assert (HM' : 0 < M') by (unfold M'; nia).
      destruct M' as [|q|q] eqn:HM'q; try lia.
      unfold pack. destruct (Z.leb_spec f (emax - prec));
        [|unfold emax, prec in *; lia].
      apply (is_half_scaled _ q f (kx + ky) f); [lia | lia |].
      rewrite Z.sub_diag, Z.pow_0_r, Z.mul_1_r.
      destruct (Z.ltb_spec M 0) as [Hneg | Hpos].
      * change (Zneg q) with (- Zpos q). rewrite <- HM'q. unfold M'.
        rewrite Z.abs_neq by nia. lia.
      * rewrite <- HM'q. unfold M'. rewrite Z.abs_eq by nia. lia.
Qed.

Lemma fold_add_exact (l : list float) :
  forall (ks : list Z) (acc : float) (k0 : Z),
    is_half k0 acc -> Forall2 is_half ks l ->
    0 <= k0 -> Forall (fun k => 0 <= k) ks ->
    k0 + Zsum ks < 2 ^ 53 ->
    is_half (k0 + Zsum ks) (fold_left add l acc).
Proof.
  induction l as [|t l IH]; intros ks acc k0 Hacc HF Hk0 Hks Hlt.
  - inversion HF; subst. simpl. rewrite Z.add_0_r. exact Hacc.
  - inversion HF as [|k t' ks' l' Hk HF']; subst.
    inversion Hks as [|k' ks'' Hk' Hks']; subst.
    assert (Hs : 0 <= Zsum ks').
    { clear -Hks'. induction Hks'; simpl; lia. }
    cbn [Zsum fold_right] in Hlt |- *. fold (Zsum ks') in Hlt |- *.
    cbn [fold_left]. rewrite Z.add_assoc.
    apply IH; try assumption; try lia.
    apply add_exact; try assumption. lia.
Qed.

Lemma Qsum_half (l : list float) :
  forall (ks : list Z) (q : Q) (a : Z),
    (q * 2 == inject_Z a)%Q -> Forall2 is_half ks l ->
    (fold_left Qplus (map to_Q l) q * 2 == inject_Z (a + Zsum ks))%Q.
Proof.
  induction l as [|t l IH]; intros ks q a Hq HF.
  - inversion HF; subst. simpl. rewrite Z.add_0_r. exact Hq.
  - inversion HF as [|k t' ks' l' Hk HF']; subst.
    cbn [map fold_left Zsum fold_right]. fold (Zsum ks').
    rewrite Z.add_assoc. apply IH; [|exact HF'].
    rewrite Qmult_plus_distr_l, Hq, (is_half_to_Q _ _ Hk), inject_Z_plus.
    reflexivity.
Qed.

Lemma Zsum_four_bound (ks : list Z) (B : Z) :
  Forall (fun k => 0 <= k <= B) ks -> List.length ks = 4%nat ->
  Forall (fun k => 0 <= k) ks /\ Zsum ks <= 4 * B.
Proof.
  intros HF Hlen.
  destruct ks as [|k1 [|k2 [|k3 [|k4 [|k5 ks]]]]]; try discriminate Hlen.
  inversion HF as [|? ? H1 HF1]; subst.
  inversion HF1 as [|? ? H2 HF2]; subst.
  inversion HF2 as [|? ? H3 HF3]; subst.
  inversion HF3 as [|? ? H4 HF4]; subst.
  split.
  - repeat (apply Forall_cons; [lia|]). apply Forall_nil.
  - unfold Zsum. cbn [fold_right]. lia.
Qed.

(** * The calculation engine *)

(** ** The shape of [calculate] *)

Lemma round_to_half_eq (x : float) :
  round_to_half x =
    (k <- round (mul x (lit 2 0)) ;; kf <- of_int k ;; Ok (div kf (lit 2 0))).
Proof. reflexivity. Qed.

Lemma sum_eq (values : list float) :
  sum values = Ok (fold_left add values (S754_zero false)).
Proof. reflexivity. Qed.

(** Once the mix factor is accepted, the per-sample mapping is the fixed one
    and the diluent guard is passed; what remains is the scaling. *)
Lemma calculate_supported (n : Z) (e : float) (m : Z) :
  m = 2 \/ m = 5 ->
  calculate n e m =
    (tot <- mapM (scale_entry n (factor_of e)) (Spec.per_sample m) ;;
     Ok {| per_sample := Spec.per_sample m;
           totals := tot;
           grand_total := fold_left add (dict_values tot) (S754_zero false) |}).
Proof. intros [-> | ->]; reflexivity. Qed.

Lemma round_to_half_Raise (y : float) (x : exn) :
  round_to_half y = Raise x -> range_error x.
Proof.
  rewrite round_to_half_eq. intros H.
  apply bind_Raise_inv in H as [H | (k & _ & H)].
  - eapply round_Raise; eauto.
  - apply bind_Raise_inv in H as [H | (kf & _ & H)].
    + eapply of_int_Raise; eauto.
    + discriminate H.
Qed.

Lemma scale_entry_Raise n f kv x :
  scale_entry n f kv = Raise x -> range_error x.
Proof.
  unfold scale_entry. intros H.
  apply bind_Raise_inv in H as [H | (nf & _ & H)].
  - eapply of_int_Raise; eauto.
  - apply bind_Raise_inv in H as [H | (r & _ & H)].
    + eapply round_to_half_Raise; eauto.
    + discriminate H.
Qed.

(** With a supported mix factor, [calculate] can only fail inside the float
    arithmetic. *)
Lemma calculate_Raise (n : Z) (e : float) (m : Z) (x : exn) :
  m = 2 \/ m = 5 -> calculate n e m = Raise x -> range_error x.
Proof.
  intros Hm. rewrite (calculate_supported n e m Hm). intros H.
  apply bind_Raise_inv in H as [H | (tot & _ & H)].
  - apply mapM_Raise_In in H as (kv & _ & H).
    eapply scale_entry_Raise; eauto.
  - discriminate H.
Qed.

Lemma calculate_Ok_inv (n : Z) (e : float) (m : Z) (r : calculation) :
  calculate n e m = Ok r ->
  (m = 2 \/ m = 5)
  /\ per_sample r = Spec.per_sample m
  /\ mapM (scale_entry n (factor_of e)) (Spec.per_sample m) = Ok (totals r)
  /\ grand_total r = fold_left add (dict_values (totals r)) (S754_zero false).
Proof.
  intros H.
  assert (Hm : m = 2 \/ m = 5).
  { unfold calculate in H.
    destruct (Z.eqb_spec m 2) as [->|H2]; [left; reflexivity|].
    destruct (Z.eqb_spec m 5) as [->|H5]; [right; reflexivity|].
    simpl in H. discriminate H. }
  split; [exact Hm|].
  rewrite (calculate_supported n e m Hm) in H.
  apply bind_Ok_inv in H as (tot & Htot & H).
  injection H as <-. simpl. auto.
Qed.

Lemma scale_entry_Ok_inv n f kv kt :
  scale_entry n f kv = Ok kt ->
  of_int n = Ok (normalize n 0)
  /\ fst kt = fst kv
  /\ exists k,
       round (mul (mul (mul (snd kv) (normalize n 0)) f) (lit 2 0)) = Ok k
       /\ of_int k = Ok (normalize k 0)
       /\ snd kt = div (normalize k 0) (lit 2 0).
Proof.
  unfold scale_entry. intros H.
  apply bind_Ok_inv in H as (nf & Hnf & H).
  pose proof (of_int_Ok _ _ Hnf) as ->.
  apply bind_Ok_inv in H as (t & Ht & H).
  injection H as <-.
  rewrite round_to_half_eq in Ht.
  apply bind_Ok_inv in Ht as (k & Hk & Ht).
  apply bind_Ok_inv in Ht as (kf & Hkf & Ht).
  pose proof (of_int_Ok _ _ Hkf) as ->.
  injection Ht as <-.
  split; [exact Hnf|]. split; [reflexivity|].
  exists k. auto.
Qed.

(** ** Where [calculate] returns *)

Lemma round_to_half_fbound (x : float) (K : Z) :
  fbound K x -> 0 <= K -> K + 6 <= emax - prec ->
  exists t, round_to_half x = Ok t.
Proof.
  intros Hx HK0 HK. rewrite round_to_half_eq.
  assert (H2 : fbound 2 (lit 2 0)) by (vm_compute; split; discriminate).
  pose proof (mul_fbound x (lit 2 0) K 2 Hx H2 HK0 ltac:(lia) ltac:(lia)) as Hm.
  destruct (round_fbound (mul x (lit 2 0)) _ Hm ltac:(lia)) as (k & Hk & Hkb).
  rewrite Hk. simpl bind.
  destruct (of_int_fbound k (K + 2 + 1 + 1)) as [_ Hof]; try lia.
  { rewrite (Z.pow_add_r _ _ 1) by lia. change (2 ^ 1) with 2.
    assert (0 < 2 ^ (K + 2 + 1)) by (apply Z.pow_pos_nonneg; lia). lia. }
  rewrite Hof. simpl. eexists; reflexivity.
Qed.

Lemma per_sample_fbound (m : Z) (kv : string * float) :
  m = 2 \/ m = 5 -> In kv (Spec.per_sample m) -> fbound 3 (snd kv).
Proof.
  intros Hm Hin.
  assert (Hall : Forall (fun kv => fbound 3 (snd kv)) (Spec.per_sample m)).
  { destruct Hm as [-> | ->]; vm_compute;
      repeat (constructor; [split; discriminate|]); constructor. }
  rewrite Forall_forall in Hall. apply Hall. exact Hin.
Qed.

Lemma factor_fbound (e : float) (K : Z) :
  fbound K e -> 0 <= K -> K + 3 <= emax - prec ->
  fbound (K + 3) (factor_of e).
Proof.
  intros He HK0 HK. unfold factor_of, add, div.
  replace (K + 3) with ((K + 1) + 2) by lia.
  apply add_fbound; try lia.
  - apply fbound_mono with 1; [lia|]. vm_compute; split; discriminate.
  - apply div_fbound; try assumption; try lia.
    rewrite lit_100_eq. vm_compute. discriminate.
Qed.

(** [calculate] returns whenever the mix factor is supported and the sample
    count and the excess percent are of moderate magnitude:
    [|n| < 2^Kn] and [|e| < 2^Ke] with [Kn + Ke <= 956]. *)
Lemma calculate_returns (n : Z) (e : float) (m Kn Ke : Z) :
  m = 2 \/ m = 5 ->
  0 <= Kn -> 0 <= Ke -> Kn + Ke <= 956 ->
  Z.abs n < 2 ^ Kn -> fbound Ke e ->
  exists r, calculate n e m = Ok r.
Proof.
  intros Hm HKn HKe HK Hn He.
  rewrite (calculate_supported n e m Hm).
  destruct (of_int_fbound n Kn Hn HKn ltac:(unfold emax, prec; lia)) as [Hnf Hof].
  pose proof (factor_fbound e Ke He HKe ltac:(unfold emax, prec; lia)) as Hf.
  destruct (mapM_all_Ok (scale_entry n (factor_of e)) (Spec.per_sample m))
    as (tot & Htot).
  - intros kv Hin. unfold scale_entry. rewrite Hof. simpl bind.
    pose proof (per_sample_fbound m kv Hm Hin) as Hv.
    pose proof (mul_fbound _ _ 3 (Kn + 1) Hv Hnf ltac:(lia) ltac:(lia)
                  ltac:(unfold emax, prec; lia)) as H1.
    pose proof (mul_fbound _ _ _ _ H1 Hf ltac:(lia) ltac:(lia)
                  ltac:(unfold emax, prec; lia)) as H2.
    destruct (round_to_half_fbound
                (mul (mul (snd kv) (normalize n 0)) (factor_of e)) _ H2
                ltac:(lia) ltac:(unfold emax, prec; lia)) as (t & Ht).
    rewrite Ht. simpl. eexists; reflexivity.
  - rewrite Htot. simpl. eexists; reflexivity.
Qed.

(** ** Scaled volumes *)

(** A value that [round_to_half] returns is exactly half of the integer
    that [round] produced. *)
Lemma round_to_half_is_half (x t : float) :
  round_to_half x = Ok t ->
  exists k, round (mul x (lit 2 0)) = Ok k /\ is_half k t.
Proof.
  rewrite round_to_half_eq. intros H.
  apply bind_Ok_inv in H as (k & Hk & H).
  apply bind_Ok_inv in H as (kf & Hkf & H).
  injection H as <-. exists k. split; [exact Hk|].
  assert (Hfin : is_finite (normalize k 0) = true).
  { unfold of_int in Hkf. destruct (is_finite (normalize k 0)); [reflexivity|].
    discriminate Hkf. }
  pose proof (of_int_Ok _ _ Hkf) as ->.
  assert (Hrep : representable (Z.abs k)).
  { destruct (mul x (lit 2 0)) as [s|s| |s m e] eqn:Hx2; try discriminate Hk.
    - injection Hk as <-. apply representable_small; [lia | unfold prec; simpl; lia].
    - rewrite round_finite in Hk. injection Hk as <-.
      pose proof (mul_digits _ _ _ _ _ Hx2) as Hd.
      pose proof (round_magnitude_representable m e Hd) as Hr.
      assert (H0 : 0 <= round_magnitude m e).
      { apply (round_magnitude_bounds m e (Z.max 0 (Zdigits2 (Zpos m) + e))); lia. }
      destruct s; [rewrite Z.abs_opp|]; rewrite Z.abs_eq by lia; exact Hr. }
  destruct (Z.eq_dec k 0) as [-> | Hk0].
  - vm_compute. reflexivity.
  - destruct (normalize_exact k Hk0 Hrep) as (M & Heq & HM & HdM & Hval).
    rewrite Heq in Hfin |- *.
    pose proof (pack_finite_inv _ _ _ HM Hfin) as Hf.
    assert (Hdk : 0 < Zdigits2 k) by (destruct k; simpl; lia).
    rewrite div_two_exact; try assumption;
      [|unfold emin, emax, prec in *; lia].
    unfold is_half.
    set (f := Zdigits2 k - prec) in *.
    replace (Z.max 0 (f - 1 + 1)) with (f - Z.min 0 f) by lia.
    replace (Z.max 0 (- (f - 1 + 1))) with (- Z.min 0 f) by lia.
    destruct (Z.ltb_spec k 0).
    + change (Zneg (Z.to_pos M)) with (- Zpos (Z.to_pos M)).
      rewrite Z2Pos.id by lia. rewrite Z.abs_neq in Hval by lia. lia.
    + rewrite Z2Pos.id by lia. rewrite Z.abs_eq in Hval by lia. lia.
Qed.

Lemma factor_not_negative (e : float) :
  leb (S754_zero false) e = true -> not_negative (factor_of e).
Proof.
  intros He. unfold factor_of. rewrite lit_1_eq, lit_100_eq.
  destruct e as [s|s| |s m ex].
  - reflexivity.
  - destruct s; [discriminate He | reflexivity].
  - discriminate He.
  - destruct s; [discriminate He|].
    pose proof (div_not_negative m ex 7036874417766400 (-46)) as Hd.
    assert (Hn : div (S754_finite false m ex)
                   (S754_finite false 7036874417766400 (-46)) <> S754_nan).
    { unfold div. rewrite div_finite_spec. cbv zeta.
      match goal with
      | |- bra ?s ?q ?e' ?l <> _ =>
          destruct (bra_shape s q e' l) as [E | [E | (p & e'' & E)]];
            [| rewrite E; discriminate .. ]
      end.
      apply Z.div_pos; [|lia].
      apply Z.mul_nonneg_nonneg; [lia|]. apply Z.pow_nonneg. lia. }
    apply add_not_negative; auto.
Qed.

Lemma per_sample_not_negative (m : Z) (kv : string * float) :
  m = 2 \/ m = 5 -> In kv (Spec.per_sample m) -> not_negative (snd kv).
Proof.
  intros Hm Hin.
  assert (Hall : Forall (fun kv => not_negative (snd kv)) (Spec.per_sample m)).
  { destruct Hm as [-> | ->]; vm_compute;
      repeat (constructor; [reflexivity|]); constructor. }
  rewrite Forall_forall in Hall. apply Hall. exact Hin.
Qed.

Lemma round_to_half_bounded (x t : float) (K : Z) :
  fbound K x -> 0 <= K -> K + 6 <= emax - prec ->
  not_negative x ->
  round_to_half x = Ok t ->
  exists k, is_half k t /\ 0 <= k <= 2 ^ (K + 3).
Proof.
  intros Hx HK0 HK Hnn Ht.
  apply round_to_half_is_half in Ht as (k & Hk & Hhalf).
  exists k. split; [exact Hhalf|].
  assert (H2 : fbound 2 (lit 2 0)) by (vm_compute; split; discriminate).
  pose proof (mul_fbound x (lit 2 0) K 2 Hx H2 HK0 ltac:(lia) ltac:(lia)) as Hm.
  destruct (round_fbound (mul x (lit 2 0)) _ Hm ltac:(lia)) as (k' & Hk' & Hb).
  rewrite Hk in Hk'. injection Hk' as <-.
  assert (0 <= k).
  { apply (round_not_negative _ _) in Hk; [exact Hk|].
    apply mul_not_negative; [exact Hnn | rewrite lit_2_eq; reflexivity]. }
  replace (K + 3) with (K + 2 + 1) by lia. lia.
Qed.

(** On valid inputs of moderate magnitude, every scaled volume is half of a
    bounded non-negative integer. *)
Lemma totals_bounded_halves (n : Z) (e : float) (m Kn Ke : Z) (tot : dict float) :
  1 <= n -> leb (S754_zero false) e = true -> m = 2 \/ m = 5 ->
  0 <= Kn -> 0 <= Ke -> Kn + Ke <= 956 ->
  n < 2 ^ Kn -> fbound Ke e ->
  mapM (scale_entry n (factor_of e)) (Spec.per_sample m) = Ok tot ->
  exists ks,
    Forall2 is_half ks (dict_values tot)
    /\ Forall (fun k => 0 <= k <= 2 ^ (Kn + Ke + 12)) ks
    /\ List.length ks = 4%nat.
Proof.
  intros Hn He Hm HKn HKe HK Hlt Hb Htot.
  apply mapM_Ok_Forall2 in Htot.
  destruct (of_int_fbound n Kn ltac:(lia) HKn ltac:(unfold emax, prec; lia))
    as [Hnf _].
  pose proof (factor_fbound e Ke Hb HKe ltac:(unfold emax, prec; lia)) as Hf.
  assert (Hgen : forall per tot',
             (forall kv, In kv per -> fbound 3 (snd kv) /\ not_negative (snd kv)) ->
             Forall2 (fun a b => scale_entry n (factor_of e) a = Ok b) per tot' ->
             exists ks,
               Forall2 is_half ks (dict_values tot')
               /\ Forall (fun k => 0 <= k <= 2 ^ (Kn + Ke + 12)) ks
               /\ List.length ks = List.length per).
  { intros per tot' Hper HF. induction HF as [|kv kt per' tot'' Hs HF IH].
    - exists nil. repeat split; constructor.
    - destruct IH as (ks & H1 & H2 & H3);
        [intros; apply Hper; right; assumption|].
      destruct (Hper kv (or_introl eq_refl)) as [Hv Hvn].
      unfold scale_entry in Hs.
      apply bind_Ok_inv in Hs as (nf & Hnf' & Hs).
      apply bind_Ok_inv in Hs as (t & Ht & Hs).
      injection Hs as <-.
      pose proof (of_int_Ok _ _ Hnf') as ->.
      pose proof (mul_fbound _ _ 3 (Kn + 1) Hv Hnf ltac:(lia) ltac:(lia)
                    ltac:(unfold emax, prec; lia)) as Hb1.
      pose proof (mul_fbound _ _ _ _ Hb1 Hf ltac:(lia) ltac:(lia)
                    ltac:(unfold emax, prec; lia)) as Hb2.
      apply (round_to_half_bounded _ _ _ Hb2) in Ht as (k & Hhalf & Hkb);
        [ | lia | unfold emax, prec; lia | ].
      + exists (k :: ks). split; [|split].
        * constructor; assumption.
        * constructor; [|assumption].
          replace (Kn + Ke + 12) with (3 + (Kn + 1) + 1 + (Ke + 3) + 1 + 3) by lia.
          exact Hkb.
        * simpl. f_equal. exact H3.
      + apply mul_not_negative; [|apply factor_not_negative; exact He].
        apply mul_not_negative; [exact Hvn | apply normalize_not_negative; lia]. }
  destruct (Hgen (Spec.per_sample m) tot) as (ks & H1 & H2 & H3);
    [|exact Htot|].
  - intros kv Hin. split.
    + apply (per_sample_fbound m); assumption.
    + apply (per_sample_not_negative m); assumption.
  - exists ks. split; [exact H1|]. split; [exact H2|].
    rewrite H3. destruct Hm as [-> | ->]; reflexivity.
Qed.

(** ** Printing a volume *)

Lemma str_of_digit (d : Z) :
  0 <= d <= 9 -> str_of_int d = String (ascii_of_nat (48 + Z.to_nat d)) "".
Proof.
  intros Hd.
  assert (H : d = 0 \/ d = 1 \/ d = 2 \/ d = 3 \/ d = 4 \/ d = 5 \/ d = 6
              \/ d = 7 \/ d = 8 \/ d = 9) by lia.
  repeat (destruct H as [-> | H]; [reflexivity|]). subst. reflexivity.
Qed.

(** The value of a finite float: its signed mantissa times a power of 2. *)
Lemma to_Q_Qpower (s : bool) (m : positive) (e : Z) :
  (to_Q (S754_finite s m e)
   == inject_Z (if s then Zneg m else Zpos m) * 2 ^ e)%Q.
Proof.
  unfold to_Q. set (n := if s then Zneg m else Zpos m).
  destruct e as [|p|p].
  - change (2 ^ 0)%Q with 1%Q. rewrite Qmult_1_r. reflexivity.
  - rewrite inject_Z_mult, (Zpower_Qpower 2 (Zpos p)) by lia. reflexivity.
  - rewrite Qmake_Qdiv. unfold Qdiv.
    change (Zneg p) with (- Zpos p). rewrite Qpower_opp.
    rewrite <- (Zpower_Qpower 2 (Zpos p)) by lia.
    rewrite Zpos_pow2. reflexivity.
Qed.

Lemma length_append (a b : string) :
  String.length (a ++ b) = (String.length a + String.length b)%nat.
Proof. induction a as [|c a IH]; simpl; [reflexivity | rewrite IH; reflexivity]. Qed.

Lemma append_assoc (a b c : string) : (a ++ b) ++ c = a ++ (b ++ c).
Proof. induction a as [|x a IH]; simpl; [reflexivity | rewrite IH; reflexivity]. Qed.

Lemma length_spaces (n : nat) : String.length (spaces n) = n.
Proof. induction n as [|n IH]; simpl; [reflexivity | f_equal; exact IH]. Qed.

Lemma prefix_append (a b : string) : String.prefix a (a ++ b) = true.
Proof.
  induction a as [|c a IH]; simpl.
  - destruct b; reflexivity.
  - destruct (ascii_dec c c) as [_ | Hne]; [exact IH | congruence].
Qed.

Lemma blank_spaces (n : nat) : blank (spaces n).
Proof.
  unfold blank, spaces. rewrite list_ascii_of_string_of_list_ascii.
  induction n as [|n IH]; simpl; constructor; [reflexivity | exact IH].
Qed.

Lemma ljust_left_justified (w : nat) (s : string) :
  left_justified w s (ljust w s).
Proof.
  exists (spaces (w - String.length s)).
  split; [apply blank_spaces|]. split; [reflexivity|].
  unfold ljust. rewrite length_append, length_spaces. lia.
Qed.

Lemma rjust_right_justified (w : nat) (s : string) :
  right_justified w s (rjust w s).
Proof.
  exists (spaces (w - String.length s)).
  split; [apply blank_spaces|]. split; [reflexivity|].
  unfold rjust. rewrite length_append, length_spaces. lia.
Qed.

Lemma Qabs_to_Q (s : bool) (m : positive) (e : Z) :
  Qabs (to_Q (S754_finite s m e)) = to_Q (S754_finite false m e).
Proof.
  unfold to_Q. destruct e as [|p|p]; destruct s; try reflexivity;
    unfold inject_Z, Qabs; f_equal; rewrite Z.abs_mul;
    rewrite (Z.abs_eq (2 ^ Zpos p)) by (apply Z.pow_nonneg; lia);
    reflexivity.
Qed.

Lemma to_Q_tenfold (m : positive) (e : Z) :
  (to_Q (S754_finite false (10 * m) e)
   == to_Q (S754_finite false m e) * 10)%Q.
Proof.
  rewrite !to_Q_Qpower. rewrite Pos2Z.inj_mul, inject_Z_mult.
  change (inject_Z 10) with 10%Q. ring.
Qed.

(** What [format_1f] prints is the one-decimal numeral nearest to the value
    printed. *)
Lemma format_1f_decimal (x : float) : decimal_1f x (format_1f x).
Proof.
  destruct x as [s|s| |s m e]; try reflexivity.
  - exists 0. split.
    + split; [vm_compute; discriminate | intros _; reflexivity].
    + destruct s; reflexivity.
  - exists (round_magnitude (10 * m) e). split.
    + pose proof (round_finite_nearest false (10 * m) e) as [H1 H2].
      cbv iota in H1, H2. rewrite Qabs_to_Q.
      split.
      * rewrite <- to_Q_tenfold. exact H1.
      * intros H. apply H2. rewrite to_Q_tenfold. exact H.
    + unfold format_1f.
      change (match e with
              | 0 => Zpos (10 * m)
              | Zpos p => Zpos (10 * m) * 2 ^ Zpos p
              | Zneg p => shift_round_even (10 * m) p
              end) with (round_magnitude (10 * m) e).
      assert (H0 : 0 <= round_magnitude (10 * m) e).
      { apply (round_magnitude_bounds (10 * m) e
                 (Z.max 0 (Zdigits2 (Zpos (10 * m)) + e))); lia. }
      pose proof (Z.mod_pos_bound (round_magnitude (10 * m) e) 10
                    ltac:(lia)) as Hd.
      rewrite (str_of_digit (round_magnitude (10 * m) e mod 10)) by lia.
      reflexivity.
Qed.

Lemma volume_row_line (name : string) (v t : float) :
  volume_line name v t (volume_row name v t).
Proof.
  exists (ljust 20 name), (format_1f v), (rjust 7 (format_1f v)),
    (format_1f t), (rjust 9 (format_1f t)).
  split; [apply ljust_left_justified|].
  split; [apply format_1f_decimal|].
  split; [apply rjust_right_justified|].
  split; [apply format_1f_decimal|].
  split; [apply rjust_right_justified|].
  unfold volume_row, table_row, uL.
  rewrite !append_assoc. reflexivity.
Qed.

(** Joining lines puts a line feed after each line but the last. *)
Lemma join_lines_last (l : list string) (z : string) :
  join_lines (l ++ [z])
  = fold_right (fun line rest => line ++ String "010" rest) z l.
Proof.
  induction l as [|a l IH]; [reflexivity|].
  cbn [app fold_right]. rewrite <- IH. unfold join_lines.
  destruct l as [|b l]; reflexivity.
Qed.

Lemma format_1f_one_decimal (x : float) :
  is_finite x = true -> one_decimal (format_1f x).
Proof.
  destruct x as [s|s| |s m e]; try discriminate; intros _.
  - destruct s; [exists "-", 0, 0 | exists "", 0, 0];
      (split; [auto|]); (split; [lia|]); (split; [lia|]); reflexivity.
  - unfold format_1f.
    set (tenths := match e with
                   | 0 => Zpos (10 * m)
                   | Zpos p => Zpos (10 * m) * 2 ^ Zpos p
                   | Zneg p => shift_round_even (10 * m) p
                   end).
    assert (Ht : 0 <= tenths).
    { unfold tenths. destruct e as [|p|p]; [lia | |apply shift_round_even_nonneg].
      apply Z.mul_nonneg_nonneg; [lia | apply Z.pow_nonneg; lia]. }
    pose proof (Z.mod_pos_bound tenths 10 ltac:(lia)) as Hd.
    exists (if s then "-" else ""), (tenths / 10), (tenths mod 10).
    split; [destruct s; auto|].
    split; [apply Z.div_pos; lia|].
    split; [lia|].
    rewrite (str_of_digit (tenths mod 10)) by lia. reflexivity.
Qed.

(** * The specification's claims *)

(** ** C1: the per-sample mapping *)

(** A sample count of [2^1024] is too large to convert to a float, and
    [v * n_samples] raises. *)
Lemma per_sample_always_returned_fails : ~ per_sample_always_returned.
Proof.
  intros H.
  destruct (H (2 ^ 1024) (S754_zero false) 2
              ltac:(vm_compute; discriminate) eq_refl (or_introl eq_refl))
    as (r & Hr & _).
  vm_compute in Hr. discriminate Hr.
Qed.

(** C1 (amended).  For a sample count of at least 1, an excess percent of
    at least 0 and a mix factor of 2 or 5, [calculate] fails only when the
    float arithmetic leaves its range, and returns whenever [n < 2^Kn] and
    [e < 2^Ke] with [Kn + Ke <= 956].  Whenever it returns, the per-sample
    mapping is, in this order, DDW with [11.0 - (mixVolume + 2 * 0.5)],
    Mix (NX) with [mixVolume = 6.0 * (2.0 / mixFactor)], Primer Fwd with 0.5
    and Primer Rev with 0.5. *)
Theorem per_sample_volumes (n : Z) (e : float) (m : Z) :
  1 <= n -> leb (S754_zero false) e = true -> m = 2 \/ m = 5 ->
  (forall x, calculate n e m = Raise x -> range_error x)
  /\ (forall Kn Ke, 0 <= Kn -> 0 <= Ke -> Kn + Ke <= 956 ->
                    n < 2 ^ Kn -> fbound Ke e ->
                    exists r, calculate n e m = Ok r)
  /\ (forall r, calculate n e m = Ok r ->
                let mix_volume := mul (lit 6 0) (div (lit 2 0) (normalize m 0)) in
                let ddw_volume :=
                  sub (lit 11 0) (add mix_volume (mul (lit 2 0) (lit 1 (-1)))) in
                per_sample r
                = [ ("DDW", ddw_volume);
                    ("Mix (" ++ str_of_int m ++ "X)", mix_volume);
                    ("Primer Fwd", lit 1 (-1));
                    ("Primer Rev", lit 1 (-1)) ]).
Proof.
  intros Hn He Hm. split; [|split].
  - intros x. apply calculate_Raise. exact Hm.
  - intros Kn Ke HKn HKe HK Hlt Hb.
    apply (calculate_returns n e m Kn Ke); auto. lia.
  - intros r Hr. apply calculate_Ok_inv in Hr as (_ & -> & _ & _).
    reflexivity.
Qed.

Lemma per_sample_volumes_witness :
  exists r,
    calculate 1 (S754_zero false) 5 = Ok r
    /\ per_sample r
       = [ ("DDW", sub (lit 11 0)
                     (add (mul (lit 6 0) (div (lit 2 0) (normalize 5 0)))
                        (mul (lit 2 0) (lit 1 (-1)))));
           ("Mix (5X)", mul (lit 6 0) (div (lit 2 0) (normalize 5 0)));
           ("Primer Fwd", lit 1 (-1));
           ("Primer Rev", lit 1 (-1)) ].
Proof.
  eexists. split; [vm_compute; reflexivity|].
  apply (per_sample_volumes 1 (S754_zero false) 5);
    [lia | reflexivity | right; reflexivity | vm_compute; reflexivity].
Defined.

(** ** C2: rounding to the nearest half *)

(** The claim with halves away from zero fails: one sample with 150 %
    excess has a raw primer volume of 1.25, which the code rounds to 1.0
    while the half-away rule gives 1.5. *)
Lemma scaled_half_away_fails : ~ scaled_half_away.
Proof.
  intros H.
  assert (Hc : exists r, calculate 1 (lit 150 0) 2 = Ok r
                         /\ In ("Primer Fwd", lit 1 (-1)) (per_sample r)
                         /\ dict_get (totals r) "Primer Fwd" = Some (lit 1 0)).
  { eexists. split; [vm_compute; reflexivity|].
    split; [right; right; left; reflexivity | reflexivity]. }
  destruct Hc as (r & Hr & Hin & Hget).
  specialize (H 1 (lit 150 0) 2 r ltac:(lia) eq_refl (or_introl eq_refl) Hr
                "Primer Fwd" (lit 1 (-1)) (lit 1 0) (lit 1 0) Hin Hget eq_refl).
  vm_compute in H. discriminate H.
Qed.

(** C2 (amended).  Whenever [calculate] returns, every scaled volume is
    obtained from its own per-sample volume [v] alone: the raw product
    [v * n * (1 + excess/100) * 2] is rounded to a nearest integer [k], a tie
    going to the even integer (not away from zero), and the scaled
    volume is [k / 2.0], which is exactly half of [k].  The grand total is
    the plain sum of these values and is not rounded again. *)
Theorem scaled_round_half_even (n : Z) (e : float) (m : Z) (r : calculation) :
  calculate n e m = Ok r ->
  Forall2
    (fun kv kt =>
       fst kt = fst kv
       /\ exists k,
            let raw2 := mul (mul (mul (snd kv) (normalize n 0)) (factor_of e))
                          (lit 2 0) in
            round raw2 = Ok k
            /\ nearest_even (to_Q raw2) k
            /\ snd kt = div (normalize k 0) (lit 2 0)
            /\ (to_Q (snd kt) * 2 == inject_Z k)%Q)
    (per_sample r) (totals r)
  /\ grand_total r = fold_left add (dict_values (totals r)) (S754_zero false).
Proof.
  intros H. apply calculate_Ok_inv in H as (_ & -> & Htot & Hg).
  split; [|exact Hg].
  apply mapM_Ok_Forall2 in Htot.
  eapply Forall2_impl; [|exact Htot].
  intros kv kt Hs.
  pose proof (scale_entry_Ok_inv _ _ _ _ Hs) as (_ & Hk1 & k & Hk & _ & Ht).
  split; [exact Hk1|]. exists k. cbv zeta.
  split; [exact Hk|]. split; [apply round_nearest_even; exact Hk|].
  split; [exact Ht|].
  unfold scale_entry in Hs.
  apply bind_Ok_inv in Hs as (nf & Hnf & Hs).
  apply bind_Ok_inv in Hs as (t & Hrt & Hs).
  injection Hs as <-. cbn [snd].
  pose proof (of_int_Ok _ _ Hnf) as ->.
  apply round_to_half_is_half in Hrt as (k' & Hk' & Hhalf).
  rewrite Hk in Hk'. injection Hk' as <-.
  apply is_half_to_Q. exact Hhalf.
Qed.

Lemma scaled_round_half_even_witness :
  exists r,
    calculate 1 (lit 150 0) 2 = Ok r
    /\ Forall2
         (fun kv kt =>
            fst kt = fst kv
            /\ exists k,
                 let raw2 := mul (mul (mul (snd kv) (normalize 1 0))
                                    (factor_of (lit 150 0))) (lit 2 0) in
                 round raw2 = Ok k
                 /\ nearest_even (to_Q raw2) k
                 /\ snd kt = div (normalize k 0) (lit 2 0)
                 /\ (to_Q (snd kt) * 2 == inject_Z k)%Q)
         (per_sample r) (totals r).
Proof.
  eexists. split; [vm_compute; reflexivity|].
  eapply (scaled_round_half_even 1 (lit 150 0) 2). vm_compute; reflexivity.
Defined.

(** ** C3: the grand total *)

(** With [2^53 - 1] samples the four scaled volumes add up to
    [11 * 2^53 - 13], which no float holds; the grand total is
    [11 * 2^53 - 16]. *)
Lemma grand_total_always_exact_fails : ~ grand_total_always_exact.
Proof.
  intros H.
  assert (Hc : exists r, calculate (2 ^ 53 - 1) (S754_zero false) 2 = Ok r
                         /\ ~ (to_Q (grand_total r)
                               == Qsum (map to_Q (dict_values (totals r))))%Q).
  { eexists. split; [vm_compute; reflexivity|].
    vm_compute. discriminate. }
  destruct Hc as (r & Hr & Hne). apply Hne.
  apply (H (2 ^ 53 - 1) (S754_zero false) 2 r);
    [vm_compute; discriminate | reflexivity | left; reflexivity | exact Hr].
Qed.

(** C3 (amended).  The grand total is the floating-point sum, left to
    right, of the four scaled volumes.  For a valid input with
    [n < 2^Kn], [e < 2^Ke] and [Kn + Ke <= 38], [calculate] returns and that
    sum is exact: the grand total equals the sum of the four scaled volumes
    as rationals.  It is not a rounded recomputation of [11.0 * n * factor]:
    for one sample and 30 % excess the grand total is 14.0, the naive
    product is above it, and rounding the naive product to the nearest half
    gives 14.5. *)
Theorem grand_total_exact_sum (n : Z) (e : float) (m Kn Ke : Z) :
  1 <= n -> leb (S754_zero false) e = true -> m = 2 \/ m = 5 ->
  0 <= Kn -> 0 <= Ke -> Kn + Ke <= 38 ->
  n < 2 ^ Kn -> fbound Ke e ->
  (exists r,
      calculate n e m = Ok r
      /\ sum (dict_values (totals r)) = Ok (grand_total r)
      /\ (to_Q (grand_total r)
          == Qsum (map to_Q (dict_values (totals r))))%Q)
  /\ (exists r naive,
         calculate 1 (lit 30 0) 2 = Ok r
         /\ naive = mul (mul PER_SAMPLE_TOTAL (normalize 1 0))
                      (factor_of (lit 30 0))
         /\ (to_Q (grand_total r) == 14)%Q
         /\ ltb (grand_total r) naive = true
         /\ round_to_half naive = Ok (lit 29 (-1))
         /\ (to_Q (lit 29 (-1)) == 29 # 2)%Q).
Proof.
  intros Hn He Hm HKn HKe HK Hlt Hb. split.
  - destruct (calculate_returns n e m Kn Ke Hm HKn HKe ltac:(lia)
                ltac:(lia) Hb) as (r & Hr).
    exists r. split; [exact Hr|].
    apply calculate_Ok_inv in Hr as (_ & _ & Htot & Hg).
    split; [rewrite sum_eq, Hg; reflexivity|].
    destruct (totals_bounded_halves n e m Kn Ke (totals r) Hn He Hm HKn HKe
                ltac:(lia) Hlt Hb Htot) as (ks & Hhalf & Hks & Hlen).
    destruct (Zsum_four_bound ks _ Hks Hlen) as [Hnn Hsum].
    assert (Hpow : 2 ^ (Kn + Ke + 12) <= 2 ^ 50)
      by (apply Z.pow_le_mono_r; lia).
    assert (Hex : is_half (0 + Zsum ks) (grand_total r)).
    { rewrite Hg. apply fold_add_exact; try assumption.
      - reflexivity.
      - lia.
      - change (2 ^ 53) with (8 * 2 ^ 50). lia. }
    apply is_half_to_Q in Hex.
    pose proof (Qsum_half (dict_values (totals r)) ks 0 0 ltac:(reflexivity)
                  Hhalf) as Hq.
    fold (Qsum (map to_Q (dict_values (totals r)))) in Hq.
    rewrite <- Hq in Hex.
    apply Qmult_inj_r in Hex; [exact Hex | discriminate].
  - eexists; eexists. split; [vm_compute; reflexivity|].
    split; [reflexivity|].
    split; [vm_compute; reflexivity|].
    split; [vm_compute; reflexivity|].
    split; [vm_compute; reflexivity | vm_compute; reflexivity].
Qed.

Lemma grand_total_exact_sum_witness :
  exists r,
    calculate 8 (lit 10 0) 2 = Ok r
    /\ sum (dict_values (totals r)) = Ok (grand_total r)
    /\ (to_Q (grand_total r)
        == Qsum (map to_Q (dict_values (totals r))))%Q.
Proof.
  apply (grand_total_exact_sum 8 (lit 10 0) 2 4 4);
    [lia | reflexivity | left; reflexivity | lia | lia | lia
     | vm_compute; reflexivity | vm_compute; split; discriminate].
Defined.

(** ** C4: unsupported mix factors *)

(** C4.  For every sample count and every excess percent, a mix factor
    other than 2 and 5 makes [calculate] raise the invalid-mix-factor error;
    the outcome is the exception alone, no per-sample, scaled or total value
    is produced. *)
Theorem calculate_invalid_mix_factor (n : Z) (e : float) (m : Z) :
  m <> 2 -> m <> 5 ->
  calculate n e m = Raise InvalidMixFactor
  /\ (forall r, calculate n e m <> Ok r).
Proof.
  intros H2 H5.
  assert (H : calculate n e m = Raise InvalidMixFactor).
  { unfold calculate.
    destruct (Z.eqb_spec m 2) as [->|_]; [congruence|].
    destruct (Z.eqb_spec m 5) as [->|_]; [congruence|].
    reflexivity. }
  split; [exact H|]. intros r Hr. rewrite H in Hr. discriminate Hr.
Qed.

Lemma calculate_invalid_mix_factor_witness :
  calculate 8 (lit 10 0) 3 = Raise InvalidMixFactor
  /\ (forall r, calculate 8 (lit 10 0) 3 <> Ok r).
Proof. apply calculate_invalid_mix_factor; lia. Defined.

(** ** C5: scaled volumes are non-negative multiples of 0.5 *)

(** 100 samples with an excess percent of [2^1023] push the raw product
    past the largest float; [round] then raises. *)
Lemma always_returns_fails : ~ always_returns.
Proof.
  intros H.
  destruct (H 100 (lit 1 1023) 5 ltac:(lia) eq_refl (or_intror eq_refl))
    as (r & Hr).
  vm_compute in Hr. discriminate Hr.
Qed.

(** C5 (amended).  For a sample count of at least 1, an excess percent of
    at least 0 and a mix factor of 2 or 5, [calculate] fails only when the
    float arithmetic leaves its range; it returns whenever
    [n < 2^Kn] and [e < 2^Ke] with [Kn + Ke <= 956]; and whenever it
    returns, every scaled volume is exactly [k / 2] for an integer
    [k >= 0]. *)
Theorem scaled_nonneg_half_multiples (n : Z) (e : float) (m : Z) :
  1 <= n -> leb (S754_zero false) e = true -> m = 2 \/ m = 5 ->
  (forall x, calculate n e m = Raise x -> range_error x)
  /\ (forall Kn Ke, 0 <= Kn -> 0 <= Ke -> Kn + Ke <= 956 ->
                    n < 2 ^ Kn -> fbound Ke e ->
                    exists r, calculate n e m = Ok r)
  /\ (forall r, calculate n e m = Ok r ->
                Forall (fun kt => exists k,
                            0 <= k
                            /\ is_half k (snd kt)
                            /\ (to_Q (snd kt) * 2 == inject_Z k)%Q)
                       (totals r)).
Proof.
  intros Hn He Hm. split; [|split].
  - intros x. apply calculate_Raise. exact Hm.
  - intros Kn Ke HKn HKe HK Hlt Hb.
    apply (calculate_returns n e m Kn Ke); auto. lia.
  - intros r Hr. apply calculate_Ok_inv in Hr as (_ & _ & Htot & _).
    apply mapM_Ok_Forall2 in Htot.
    assert (Hgen : forall per tot,
               (forall kv, In kv per -> not_negative (snd kv)) ->
               Forall2 (fun a b => scale_entry n (factor_of e) a = Ok b) per tot ->
               Forall (fun kt => exists k,
                           0 <= k /\ is_half k (snd kt)
                           /\ (to_Q (snd kt) * 2 == inject_Z k)%Q) tot).
    { intros per tot Hper HF. induction HF as [|kv kt per' tot' Hs HF IH].
      - constructor.
      - constructor; [|apply IH; intros; apply Hper; right; assumption].
        unfold scale_entry in Hs.
        apply bind_Ok_inv in Hs as (nf & Hnf & Hs).
        apply bind_Ok_inv in Hs as (t & Ht & Hs).
        injection Hs as <-. cbn [snd].
        pose proof (of_int_Ok _ _ Hnf) as ->.
        apply round_to_half_is_half in Ht as (k & Hk & Hhalf).
        exists k. split; [|split; [exact Hhalf | apply is_half_to_Q; exact Hhalf]].
        apply (round_not_negative _ _ ) in Hk; [exact Hk|].
        apply mul_not_negative; [|reflexivity || (rewrite lit_2_eq; reflexivity)].
        apply mul_not_negative; [|apply factor_not_negative; exact He].
        apply mul_not_negative; [|apply normalize_not_negative; lia].
        apply Hper. left; reflexivity. }
    apply (Hgen (Spec.per_sample m)); [|exact Htot].
    intros kv Hin. apply (per_sample_not_negative m); assumption.
Qed.

Lemma scaled_nonneg_half_multiples_witness :
  exists r,
    calculate 8 (lit 10 0) 2 = Ok r
    /\ Forall (fun kt => exists k,
                   0 <= k
                   /\ is_half k (snd kt)
                   /\ (to_Q (snd kt) * 2 == inject_Z k)%Q)
              (totals r).
Proof.
  eexists. split; [vm_compute; reflexivity|].
  apply (scaled_nonneg_half_multiples 8 (lit 10 0) 2);
    [lia | reflexivity | left; reflexivity | vm_compute; reflexivity].
Defined.

(** ** C6: the diluent guard *)

(** C6.  With the constants 11.0 and 0.5 and a mix factor of 2 or 5, the
    diluent volume the code computes is not below zero, so the guard
    [ddw_vol < 0] is never taken: [calculate] does not raise the
    negative-diluent error, for any sample count and excess percent. *)
Theorem negative_diluent_unreachable (m : Z) :
  m = 2 \/ m = 5 ->
  exists mix_vol ddw_vol,
    mix_vol_of m = Ok mix_vol
    /\ ddw_vol_of mix_vol = Ok ddw_vol
    /\ ltb ddw_vol (S754_zero false) = false
    /\ (0 <= to_Q ddw_vol)%Q
    /\ forall n e, calculate n e m <> Raise NegativeDiluentVolume.
Proof.
  intros Hm.
  exists (Spec.mix_volume m), (Spec.ddw_volume m).
  split; [|split; [|split; [|split]]].
  - destruct Hm as [-> | ->]; reflexivity.
  - destruct Hm as [-> | ->]; reflexivity.
  - destruct Hm as [-> | ->]; reflexivity.
  - destruct Hm as [-> | ->]; vm_compute; discriminate.
  - intros n e H. apply (calculate_Raise n e m _ Hm) in H.
    destruct H as [H | [H | H]]; discriminate H.
Qed.

Lemma negative_diluent_unreachable_witness :
  exists mix_vol ddw_vol,
    mix_vol_of 5 = Ok mix_vol
    /\ ddw_vol_of mix_vol = Ok ddw_vol
    /\ ltb ddw_vol (S754_zero false) = false
    /\ (0 <= to_Q ddw_vol)%Q
    /\ forall n e, calculate n e 5 <> Raise NegativeDiluentVolume.
Proof. apply (negative_diluent_unreachable 5). right; reflexivity. Defined.

(** ** C7: the worked scenario *)

(** C7.  [calculate(8, 10.0, 2)] returns the per-sample volumes 4.0, 6.0,
    0.5, 0.5 for DDW, Mix (2X), Primer Fwd, Primer Rev, the scaled volumes
    35.0, 53.0, 4.5, 4.5 and the grand total 97.0. *)
Theorem calculate_8_10_2 :
  exists r,
    calculate 8 (lit 10 0) 2 = Ok r
    /\ dict_keys (per_sample r) = ["DDW"; "Mix (2X)"; "Primer Fwd"; "Primer Rev"]
    /\ Forall2 Qeq (map to_Q (dict_values (per_sample r)))
         [4; 6; 1 # 2; 1 # 2]%Q
    /\ dict_keys (totals r) = ["DDW"; "Mix (2X)"; "Primer Fwd"; "Primer Rev"]
    /\ Forall2 Qeq (map to_Q (dict_values (totals r)))
         [35; 53; 9 # 2; 9 # 2]%Q
    /\ (to_Q (grand_total r) == 97)%Q.
Proof.
  eexists. split; [vm_compute; reflexivity|].
  repeat split; repeat constructor.
Qed.

(** ** C8: the report *)

(** C8.  Given per-sample and scaled mappings over the same ingredients,
    [format_text_report] returns a text of lines, each but the last followed
    by a line feed: the header with the sample count, the excess and the mix
    factor, a rule of 50 [=], the column titles, a rule of 50 [-], then one
    row per entry of the per-sample mapping in its insertion order, a rule
    of 50 [-] and the total row.  A row shows the ingredient left-justified
    in 20 columns, its per-sample volume and the scaled volume found under
    the same key, each printed as the nearest numeral with one decimal and
    followed by the unit.  The total row shows 11.0, the constant
    [PER_SAMPLE_TOTAL], whatever the per-sample mapping holds, and the grand
    total.  The report for 8 samples, 10 % and a 2X mix is spelled out. *)
Theorem format_text_report_rows (str_of_float : float -> string)
    (n : Z) (exc : float) (mx : Z) (per tot : dict float) (grand : float) :
  (forall kv, In kv per -> exists t, dict_get tot (fst kv) = Some t) ->
  let ul := String " " (String "181" "L") in
  exists rows total text,
    format_text_report str_of_float n exc mx per tot grand = Ok text
    /\ text
       = fold_right (fun line rest => line ++ String "010" rest) total
           ([ "PCR Report | Samples: " ++ str_of_int n
                ++ " | Excess: " ++ str_of_float exc
                ++ "% | Mix: " ++ str_of_int mx ++ "X";
              "==================================================";
              "INGREDIENT           | PER SAMPLE |   MASTER MIX";
              "--------------------------------------------------" ]
              ++ rows
              ++ [ "--------------------------------------------------" ])
    /\ Forall2
         (fun kv row =>
            exists t, dict_get tot (fst kv) = Some t
                      /\ volume_line (fst kv) (snd kv) t row)
         per rows
    /\ volume_line "TOTAL VOLUME" PER_SAMPLE_TOTAL grand total
    /\ (exists sg fg,
          decimal_1f grand sg /\ right_justified 9 sg fg
          /\ total = "TOTAL VOLUME         |    11.0" ++ ul
                       ++ " | " ++ fg ++ ul)
    /\ format_text_report (fun _ => "10.0") 8 (lit 10 0) 2
         [("DDW", lit 4 0); ("Mix (2X)", lit 6 0);
          ("Primer Fwd", lit 1 (-1)); ("Primer Rev", lit 1 (-1))]
         [("DDW", lit 35 0); ("Mix (2X)", lit 53 0);
          ("Primer Fwd", lit 9 (-1)); ("Primer Rev", lit 9 (-1))]
         (lit 97 0)
       = Ok (fold_right (fun line rest => line ++ String "010" rest)
             ("TOTAL VOLUME         |    11.0" ++ ul ++ " |      97.0" ++ ul)
             [
              "PCR Report | Samples: 8 | Excess: 10.0% | Mix: 2X";
              "==================================================";
              "INGREDIENT           | PER SAMPLE |   MASTER MIX";
              "--------------------------------------------------";
              "DDW                  |     4.0" ++ ul ++ " |      35.0" ++ ul;
              "Mix (2X)             |     6.0" ++ ul ++ " |      53.0" ++ ul;
              "Primer Fwd           |     0.5" ++ ul ++ " |       4.5" ++ ul;
              "Primer Rev           |     0.5" ++ ul ++ " |       4.5" ++ ul;
              "--------------------------------------------------" ]).
Proof.
  intros Hkeys ul.
  destruct (mapM_all_Ok (ingredient_row tot) per) as (rows & Hrows).
  { intros kv Hin. destruct (Hkeys kv Hin) as (t & Ht).
    unfold ingredient_row, dict_item. rewrite Ht. eexists; reflexivity. }
  exists rows, (volume_row "TOTAL VOLUME" PER_SAMPLE_TOTAL grand),
    (join_lines
       (header str_of_float n exc mx ++ rows
          ++ [rule "-"; volume_row "TOTAL VOLUME" PER_SAMPLE_TOTAL grand])).
  split; [unfold format_text_report; rewrite Hrows; reflexivity|].
  split.
  { replace (header str_of_float n exc mx ++ rows
               ++ [rule "-"; volume_row "TOTAL VOLUME" PER_SAMPLE_TOTAL grand])%list
      with ((header str_of_float n exc mx ++ rows ++ [rule "-"])
              ++ [volume_row "TOTAL VOLUME" PER_SAMPLE_TOTAL grand])%list
      by (rewrite <- !app_assoc; reflexivity).
    rewrite join_lines_last. reflexivity. }
  split.
  { apply mapM_Ok_Forall2 in Hrows.
    eapply Forall2_impl; [|exact Hrows].
    intros kv row Hrow. unfold ingredient_row, dict_item in Hrow.
    destruct (dict_get tot (fst kv)) as [t|]; [|discriminate Hrow].
    injection Hrow as <-. exists t. split; [reflexivity|].
    apply volume_row_line. }
  split; [apply volume_row_line|].
  split.
  { exists (format_1f grand), (rjust 9 (format_1f grand)).
    split; [apply format_1f_decimal|].
    split; [apply rjust_right_justified|].
    unfold volume_row, table_row, uL, ul.
    replace (rjust 7 (format_1f PER_SAMPLE_TOTAL)) with "   11.0"
      by (vm_compute; reflexivity).
    rewrite !append_assoc. reflexivity. }
  vm_compute. reflexivity.
Qed.

Lemma format_text_report_rows_witness :
  exists (rows : list string) (total text : string),
    format_text_report (fun _ => "10.0") 8 (lit 10 0) 2
      [("DDW", lit 4 0); ("Mix (2X)", lit 6 0);
       ("Primer Fwd", lit 1 (-1)); ("Primer Rev", lit 1 (-1))]
      [("DDW", lit 35 0); ("Mix (2X)", lit 53 0);
       ("Primer Fwd", lit 9 (-1)); ("Primer Rev", lit 9 (-1))]
      (lit 97 0)
    = Ok text
    /\ List.length rows = 4%nat
    /\ volume_line "TOTAL VOLUME" PER_SAMPLE_TOTAL (lit 97 0) total.
Proof.
  destruct (format_text_report_rows (fun _ => "10.0") 8 (lit 10 0) 2
              [("DDW", lit 4 0); ("Mix (2X)", lit 6 0);
               ("Primer Fwd", lit 1 (-1)); ("Primer Rev", lit 1 (-1))]
              [("DDW", lit 35 0); ("Mix (2X)", lit 53 0);
               ("Primer Fwd", lit 9 (-1)); ("Primer Rev", lit 9 (-1))]
              (lit 97 0))
    as (rows & total & text & Heq & _ & HF & Htotal & _).
  - intros kv Hin. cbn [In] in Hin.
    destruct Hin as [<- | [<- | [<- | [<- | []]]]]; eexists; reflexivity.
  - exists rows, total, text. split; [exact Heq|]. split; [|exact Htotal].
    apply Forall2_length in HF. rewrite <- HF. reflexivity.
Defined.

(** ** C9: range checks live in the form, not in the engine *)

(** A sample count of [-(2^1024)] with an excess of -50 %: the conversion
    of the count to a float raises. *)
Lemma never_raises_fails : ~ never_raises.
Proof.
  intros H.
  destruct (H (- 2 ^ 1024) (lit (-50) 0) 5 (or_intror eq_refl)) as (r & Hr).
  vm_compute in Hr. discriminate Hr.
Qed.

(** C9 (amended).  [calculate] validates nothing but the mix factor: with
    a mix factor of 2 or 5 it fails only when the float arithmetic leaves its
    range, and returns for every sample count and excess percent with
    [|n| < 2^Kn], [|e| < 2^Ke], [Kn + Ke <= 956], zero and negative values
    included.  An excess below -100 can give negative scaled volumes
    ([calculate(1, -200.0, 2)] gives -4.0, -6.0, -0.5, -0.5) but need not
    ([calculate(1, -101.0, 2)] gives zeros).  The form's [get_inputs] is
    where a sample count below 1 and an excess below 0 are refused. *)
Theorem no_range_validation (n : Z) (e : float) (m : Z) :
  m = 2 \/ m = 5 ->
  (forall x, calculate n e m = Raise x -> range_error x)
  /\ (forall Kn Ke, 0 <= Kn -> 0 <= Ke -> Kn + Ke <= 956 ->
                    Z.abs n < 2 ^ Kn -> fbound Ke e ->
                    exists r, calculate n e m = Ok r)
  /\ (exists r, calculate 0 (lit 10 0) m = Ok r)
  /\ (exists r, calculate (-3) (lit (-10) 0) m = Ok r)
  /\ (exists r, calculate 1 (lit (-200) 0) 2 = Ok r
                /\ Forall2 Qeq (map to_Q (dict_values (totals r)))
                     [-4; -6; - (1 # 2); - (1 # 2)]%Q)
  /\ (exists r, calculate 1 (lit (-101) 0) 2 = Ok r
                /\ Forall2 Qeq (map to_Q (dict_values (totals r)))
                     [0; 0; 0; 0]%Q)
  /\ (forall n' e' m',
         PCRGui.get_inputs (Ok n') (Ok e') (Ok m') = Some (n', e', m')
         <-> 1 <= n' /\ ltb e' (S754_zero false) = false)
  /\ PCRGui.get_inputs (Ok 0) (Ok (lit 10 0)) (Ok m) = None
  /\ PCRGui.get_inputs (Ok 8) (Ok (lit (-10) 0)) (Ok m) = None.
Proof.
  intros Hm.
  split; [intros x; apply calculate_Raise; exact Hm|].
  split; [intros Kn Ke HKn HKe HK Hlt Hb;
          apply (calculate_returns n e m Kn Ke); auto|].
  split; [destruct Hm as [-> | ->]; eexists; vm_compute; reflexivity|].
  split; [destruct Hm as [-> | ->]; eexists; vm_compute; reflexivity|].
  split.
  { eexists. split; [vm_compute; reflexivity|].
    repeat (constructor; [vm_compute; reflexivity|]). constructor. }
  split.
  { eexists. split; [vm_compute; reflexivity|].
    repeat (constructor; [vm_compute; reflexivity|]). constructor. }
  split.
  { intros n' e' m'. unfold PCRGui.get_inputs. cbn [bind].
    destruct (Z.ltb_spec n' 1) as [Hlt | Hge].
    - split; [discriminate | lia].
    - destruct (ltb e' (S754_zero false)).
      + split; [discriminate | intros [_ H]; discriminate H].
      + split; [intros _; split; [lia | reflexivity] | reflexivity]. }
  split; reflexivity.
Qed.

Lemma no_range_validation_witness :
  (exists r, calculate 0 (lit 10 0) 5 = Ok r)
  /\ (exists r, calculate 1 (lit (-200) 0) 2 = Ok r
                /\ Forall2 Qeq (map to_Q (dict_values (totals r)))
                     [-4; -6; - (1 # 2); - (1 # 2)]%Q).
Proof.
  split; apply (no_range_validation 0 (lit 10 0) 5); right; reflexivity.
Defined.

(** ** C10: the per-sample column adds up to the fixed total *)

(** C10.  For a mix factor of 2 or 5, the four per-sample volumes that
    [calculate] returns add up to exactly 11: as rationals, and as floats
    added left to right, where the sum is the constant [PER_SAMPLE_TOTAL]
    itself.  The fixed figure of the report's total row is therefore the sum
    of the per-sample column. *)
Theorem per_sample_sums_to_total (n : Z) (e : float) (m : Z) (r : calculation) :
  calculate n e m = Ok r ->
  (Qsum (map to_Q (dict_values (per_sample r))) == 11)%Q
  /\ (to_Q PER_SAMPLE_TOTAL == 11)%Q
  /\ sum (dict_values (per_sample r)) = Ok PER_SAMPLE_TOTAL
  /\ format_1f PER_SAMPLE_TOTAL = "11.0".
Proof.
  intros H. apply calculate_Ok_inv in H as (Hm & -> & _ & _).
  destruct Hm as [-> | ->]; repeat split.
Qed.

Lemma per_sample_sums_to_total_witness :
  exists r,
    calculate 1 (S754_zero false) 5 = Ok r
    /\ (Qsum (map to_Q (dict_values (per_sample r))) == 11)%Q
    /\ sum (dict_values (per_sample r)) = Ok PER_SAMPLE_TOTAL.
Proof.
  eexists. split; [vm_compute; reflexivity|].
  split; eapply (per_sample_sums_to_total 1 (S754_zero false) 5);
    vm_compute; reflexivity.
Defined.

(** * Further properties of the code *)

(** ** [round_to_half] *)

Lemma bra_exponent (s : bool) (m e : Z) (l : location) (s' : bool)
    (p : positive) (e' : Z) :
  0 <= m -> bra s m e l = S754_finite s' p e' -> e' <= emax - prec.
Proof.
  intros Hm. destruct (bra_spec s m e l Hm) as (m2 & _ & _ & ->).
  unfold pack. destruct (_ / _) as [|q|q]; try discriminate.
  match goal with |- context [Z.leb ?a ?b] => destruct (Z.leb_spec a b) end;
    try discriminate.
  intros Hf. injection Hf as _ _ <-. assumption.
Qed.

Lemma mul_exponent (x y : float) (s : bool) (m : positive) (e : Z) :
  mul x y = S754_finite s m e -> e <= emax - prec.
Proof.
  unfold mul. destruct x as [sx|sx| |sx mx ex], y as [sy|sy| |sy my ey];
    unfold SFmul; try discriminate.
  intros H. apply bra_exponent in H; [exact H | lia].
Qed.

Lemma round_magnitude_digits (m : positive) (e : Z) :
  Zdigits2 (Zpos m) <= prec -> e <= emax - prec ->
  0 <= round_magnitude m e /\ Zdigits2 (round_magnitude m e) <= emax.
Proof.
  intros Hd He.
  assert (H0 : 0 <= round_magnitude m e).
  { apply (round_magnitude_bounds m e (Z.max 0 (Zdigits2 (Zpos m) + e))); lia. }
  split; [exact H0|].
  destruct e as [|p|p].
  - change (round_magnitude m 0) with (Zpos m). unfold emax, prec in *. lia.
  - rewrite round_magnitude_pos, Zdigits2_mul_pow2 by lia.
    unfold emax, prec in *. lia.
  - pose proof (round_magnitude_bounds m (Zneg p) prec) as Hb.
    assert (Hk : round_magnitude m (Zneg p) <= 2 ^ prec)
      by (apply Hb; unfold prec in *; lia).
    apply Z.le_trans with (prec + 1); [|unfold emax, prec; lia].
    apply Zdigits2_le; [lia | unfold prec; lia |].
    rewrite Z.pow_add_r by (unfold prec; lia).
    assert (0 < 2 ^ prec) by (apply Z.pow_pos_nonneg; unfold prec; lia).
    lia.
Qed.

(** What [round_to_half] returns: a zero, or a normal float whose mantissa
    and exponent are read off the rounded integer [k]. *)
Lemma round_to_half_shape (x t : float) :
  round_to_half x = Ok t ->
  exists k,
    round (mul x (lit 2 0)) = Ok k
    /\ ((k = 0 /\ t = S754_zero false)
        \/ (k <> 0
            /\ exists M f,
                 0 < M /\ Zdigits2 M = prec
                 /\ f = Zdigits2 k - prec /\ f <= emax - prec
                 /\ M * 2 ^ (f - Z.min 0 f) = Z.abs k * 2 ^ (- Z.min 0 f)
                 /\ t = S754_finite (Z.ltb k 0) (Z.to_pos M) (f - 1))).
Proof.
  rewrite round_to_half_eq. intros H.
  apply bind_Ok_inv in H as (k & Hk & H).
  apply bind_Ok_inv in H as (kf & Hkf & H).
  injection H as <-. exists k. split; [exact Hk|].
  assert (Hfin : is_finite (normalize k 0) = true).
  { unfold of_int in Hkf. destruct (is_finite (normalize k 0)); [reflexivity|].
    discriminate Hkf. }
  pose proof (of_int_Ok _ _ Hkf) as ->.
  assert (Hrep : representable (Z.abs k)).
  { destruct (mul x (lit 2 0)) as [s|s| |s m e] eqn:Hx2; try discriminate Hk.
    - injection Hk as <-. apply representable_small; [lia | unfold prec; simpl; lia].
    - rewrite round_finite in Hk. injection Hk as <-.
      pose proof (mul_digits _ _ _ _ _ Hx2) as Hd.
      pose proof (round_magnitude_representable m e Hd) as Hr.
      assert (H0 : 0 <= round_magnitude m e).
      { apply (round_magnitude_bounds m e (Z.max 0 (Zdigits2 (Zpos m) + e))); lia. }
      destruct s; [rewrite Z.abs_opp|]; rewrite Z.abs_eq by lia; exact Hr. }
  destruct (Z.eq_dec k 0) as [-> | Hk0].
  - left. split; [reflexivity | vm_compute; reflexivity].
  - right. split; [exact Hk0|].
    destruct (normalize_exact k Hk0 Hrep) as (M & Heq & HM & HdM & Hval).
    rewrite Heq in Hfin |- *.
    pose proof (pack_finite_inv _ _ _ HM Hfin) as Hf.
    assert (Hdk : 0 < Zdigits2 k) by (destruct k; simpl; lia).
    exists M, (Zdigits2 k - prec).
    repeat (split; [assumption || reflexivity|]).
    apply div_two_exact; try assumption.
    unfold emin, emax, prec in *. lia.
Qed.

(** [round_to_half x] returns exactly when [x * 2] is finite; on an infinite
    product it raises [OverflowError], on a NaN [ValueError]. *)
Theorem round_to_half_returns_iff (x : float) :
  ((exists r, round_to_half x = Ok r) <-> is_finite (mul x (lit 2 0)) = true)
  /\ (forall s, mul x (lit 2 0) = S754_infinity s ->
                round_to_half x
                = Raise (OverflowError "cannot convert float infinity to integer"))
  /\ (mul x (lit 2 0) = S754_nan ->
      round_to_half x
      = Raise (ValueError "cannot convert float NaN to integer")).
Proof.
  split; [|split].
  - split.
    + intros (r & Hr). rewrite round_to_half_eq in Hr.
      apply bind_Ok_inv in Hr as (k & Hk & _).
      destruct (mul x (lit 2 0)); try discriminate Hk; reflexivity.
    + intros Hfin. rewrite round_to_half_eq.
      destruct (mul x (lit 2 0)) as [s|s| |s m e] eqn:Hx2; try discriminate Hfin.
      * eexists. vm_compute. reflexivity.
      * rewrite round_finite. cbn [bind].
        pose proof (mul_digits _ _ _ _ _ Hx2) as Hd.
        pose proof (mul_exponent _ _ _ _ _ Hx2) as He.
        destruct (round_magnitude_digits m e Hd He) as [H0 Hdig].
        pose proof (round_magnitude_representable m e Hd) as Hrep.
        set (a := round_magnitude m e) in *.
        set (k := if s then - a else a).
        assert (Habs : Z.abs k = a) by (unfold k; destruct s; lia).
        assert (Hkd : Zdigits2 k = Zdigits2 a)
          by (unfold k; destruct s; [destruct a|]; reflexivity).
        destruct (Z.eq_dec k 0) as [Hk0 | Hk0].
        { rewrite Hk0. eexists. vm_compute. reflexivity. }
        destruct (normalize_exact k Hk0) as (M & Heq & HM & _ & _);
          [rewrite Habs; exact Hrep|].
        unfold of_int. rewrite Heq.
        destruct M as [|q|q]; try lia. unfold pack.
        destruct (Z.leb_spec (Zdigits2 k - prec) (emax - prec));
          [|unfold emax, prec in *; lia].
        cbn. eexists. reflexivity.
  - intros s Hs. rewrite round_to_half_eq, Hs. reflexivity.
  - intros Hn. rewrite round_to_half_eq, Hn. reflexivity.
Qed.

(** Doubling a well-formed float is exact: the product is the float of the
    same sign whose exponent is the one the format gives to the doubled
    value. *)
Lemma mul_two_exact (s : bool) (m : positive) (e : Z) :
  bounded prec emax m e = true ->
  let t := fexp64 (Zdigits2 (Zpos m) + e + 1) in
  exists M,
    mul (S754_finite s m e) (lit 2 0) = pack s M t
    /\ 0 < M
    /\ ((t = e /\ M = 2 * Zpos m) \/ (t = e + 1 /\ M = Zpos m)).
Proof.
  intros Hb t. unfold bounded, canonical_mantissa in Hb.
  apply andb_true_iff in Hb as [Hc He].
  apply Z.eqb_eq in Hc. apply Z.leb_le in He.
  change (Zpos (digits2_pos m)) with (Zdigits2 (Zpos m)) in Hc.
  assert (Hd : 0 < Zdigits2 (Zpos m)) by (simpl; lia).
  rewrite lit_2_eq. unfold mul, SFmul. rewrite xorb_false_r.
  rewrite Pos2Z.inj_mul.
  change (Zpos 4503599627370496) with (2 ^ 52).
  assert (Hpos : 0 < Zpos m * 2 ^ 52) by lia.
  pose proof (bra_exact s (Zpos m * 2 ^ 52) (e + -51) Hpos) as Hbra.
  cbv zeta in Hbra. rewrite Zdigits2_mul_pow2 in Hbra by lia.
  replace (Zdigits2 (Zpos m) + 52 + (e + -51))
    with (Zdigits2 (Zpos m) + e + 1) in Hbra by lia.
  fold t in Hbra.
  assert (Ht : t = e \/ t = e + 1).
  { unfold t. unfold fexp, emin, emax, prec in *. lia. }
  replace (Z.max (e + -51) t) with t in Hbra by lia.
  destruct Ht as [Ht | Ht].
  - replace (t - (e + -51)) with 51 in Hbra by lia.
    replace (Zpos m * 2 ^ 52) with (2 * Zpos m * 2 ^ 51) in Hbra |- *
      by (change (2 ^ 52) with (2 * 2 ^ 51); lia).
    rewrite Z.mod_mul, Z.div_mul in Hbra by (apply Z.pow_nonzero; lia).
    destruct (Hbra eq_refl) as (Heq & _ & _).
    exists (2 * Zpos m). split; [exact Heq|]. split; [lia|]. left; auto.
  - replace (t - (e + -51)) with 52 in Hbra by lia.
    rewrite Z.mod_mul, Z.div_mul in Hbra by (apply Z.pow_nonzero; lia).
    destruct (Hbra eq_refl) as (Heq & _ & _).
    exists (Zpos m). split; [exact Heq|]. split; [lia|]. right; auto.
Qed.

Lemma mul_two_value (x : float) :
  valid_binary prec emax x = true ->
  is_finite (mul x (lit 2 0)) = true ->
  (to_Q (mul x (lit 2 0)) == 2 * to_Q x)%Q.
Proof.
  intros Hv Hfin. destruct x as [s|s| |s m e].
  - rewrite lit_2_eq. reflexivity.
  - rewrite lit_2_eq in Hfin. discriminate Hfin.
  - discriminate Hfin.
  - destruct (mul_two_exact s m e Hv) as (M & Heq & HM & Hcase).
    rewrite Heq in Hfin |- *.
    pose proof (pack_finite_inv _ _ _ HM Hfin) as Ht.
    destruct M as [|q|q]; try lia. unfold pack.
    destruct (Z.leb_spec (fexp64 (Zdigits2 (Zpos m) + e + 1)) (emax - prec));
      [|lia].
    rewrite !to_Q_Qpower.
    destruct Hcase as [[-> Hq] | [-> Hq]].
    + assert (E : (if s then Zneg q else Zpos q)
                  = 2 * (if s then Zneg m else Zpos m)).
      { destruct s; [change (Zneg q) with (- Zpos q);
                     change (Zneg m) with (- Zpos m)|]; lia. }
      rewrite E, inject_Z_mult. change (inject_Z 2) with 2%Q. ring.
    + assert (E : (if s then Zneg q else Zpos q)
                  = (if s then Zneg m else Zpos m)).
      { destruct s; [change (Zneg q) with (- Zpos q);
                     change (Zneg m) with (- Zpos m)|]; lia. }
      rewrite E, Qpower_plus by discriminate.
      change (2 ^ 1)%Q with 2%Q. ring.
Qed.

(** The rounding law: on a well-formed float, [round_to_half] returns a
    multiple of 0.5 at most 0.25 away from its argument. *)
Theorem round_to_half_law (x r : float) :
  valid_binary prec emax x = true ->
  round_to_half x = Ok r ->
  (Qabs (to_Q r - to_Q x) <= 1 # 4)%Q
  /\ exists k : Z, (to_Q r * 2 == inject_Z k)%Q.
Proof.
  intros Hv Hr.
  assert (Hfin : is_finite (mul x (lit 2 0)) = true).
  { pose proof Hr as Hr'. rewrite round_to_half_eq in Hr'.
    apply bind_Ok_inv in Hr' as (k0 & Hk0 & _).
    destruct (mul x (lit 2 0)); try discriminate Hk0; reflexivity. }
  apply round_to_half_is_half in Hr as (k & Hk & Hhalf).
  apply is_half_to_Q in Hhalf.
  split; [|exists k; exact Hhalf].
  destruct (round_nearest_even _ _ Hk) as [Hle _].
  rewrite (mul_two_value x Hv Hfin) in Hle.
  assert (Hrq : (to_Q r == inject_Z k * (1 # 2))%Q)
    by (rewrite <- Hhalf; field).
  assert (E : (to_Q r - to_Q x == (2 * to_Q x - inject_Z k) * (- (1 # 2)))%Q)
    by (rewrite Hrq; field).
  rewrite E, Qabs_Qmult.
  change (Qabs (- (1 # 2))) with (1 # 2)%Q.
  setoid_replace (1 # 4)%Q with ((1 # 2) * (1 # 2))%Q by reflexivity.
  apply Qmult_le_compat_r; [exact Hle | discriminate].
Qed.

Lemma round_to_half_law_witness :
  valid_binary prec emax (lit 11 (-2)) = true
  /\ round_to_half (lit 11 (-2)) = Ok (lit 3 0)
  /\ (Qabs (to_Q (lit 3 0) - to_Q (lit 11 (-2))) <= 1 # 4)%Q.
Proof.
  split; [reflexivity|]. split; [vm_compute; reflexivity|].
  apply (round_to_half_law (lit 11 (-2)) (lit 3 0));
    vm_compute; reflexivity.
Defined.

Lemma shift_round_even_exact (m p : positive) (c : Z) :
  Zpos m = c * 2 ^ Zpos p -> shift_round_even m p = c.
Proof.
  intros Hm. unfold shift_round_even.
  assert (Hd : 0 < 2 ^ Zpos p) by (apply Z.pow_pos_nonneg; lia).
  rewrite Hm, Z.div_mul, Z.mod_mul by lia.
  rewrite Z.mul_0_r.
  destruct (Z.compare_spec 0 (2 ^ Zpos p)); [lia | reflexivity | lia].
Qed.

(** Rounding a rounded value again changes nothing. *)
Theorem round_to_half_idempotent (x r : float) :
  round_to_half x = Ok r -> round_to_half r = Ok r.
Proof.
  intros Hx.
  destruct (round_to_half_shape x r Hx) as (k & Hk & Hcase).
  destruct Hcase as [[-> ->] | (Hk0 & M & f & HM & HdM & Hf & Hf971 & Hval & ->)].
  - vm_compute. reflexivity.
  - assert (Hcont : (kf <- of_int k ;; Ok (div kf (lit 2 0)))
                    = Ok (S754_finite (Z.ltb k 0) (Z.to_pos M) (f - 1))).
    { rewrite round_to_half_eq, Hk in Hx. exact Hx. }
    assert (Hdk : 0 < Zdigits2 k) by (destruct k; simpl; lia).
    assert (Hb : bounded prec emax (Z.to_pos M) (f - 1) = true).
    { unfold bounded, canonical_mantissa.
      change (Zpos (digits2_pos (Z.to_pos M)))
        with (Zdigits2 (Zpos (Z.to_pos M))).
      rewrite Z2Pos.id by lia. rewrite HdM.
      apply andb_true_iff. split; [apply Z.eqb_eq | apply Z.leb_le].
      - unfold fexp, emin, emax, prec in *. lia.
      - lia. }
    destruct (mul_two_exact (Z.ltb k 0) (Z.to_pos M) (f - 1) Hb)
      as (M' & Heq & HM' & Hcase).
    rewrite Z2Pos.id in Heq, Hcase by lia. rewrite HdM in Heq, Hcase.
    assert (Ht : fexp64 (prec + (f - 1) + 1) = f)
      by (unfold fexp, emin, emax, prec in *; lia).
    rewrite Ht in Heq, Hcase.
    destruct Hcase as [[Hbad _] | [_ ->]]; [lia|].
    rewrite round_to_half_eq, Heq.
    destruct M as [|q|q]; try lia. unfold pack.
    destruct (Z.leb_spec f (emax - prec)); [|lia].
    rewrite round_finite. cbn [bind].
    assert (Ha : round_magnitude q f = Z.abs k).
    { destruct f as [|p|p].
      - change (round_magnitude q 0) with (Zpos q).
        change (Z.min 0 0) with 0 in Hval. rewrite Z.sub_0_r in Hval.
        change (- 0) with 0 in Hval. rewrite Z.pow_0_r in Hval. lia.
      - rewrite round_magnitude_pos.
        replace (Z.min 0 (Zpos p)) with 0 in Hval by lia.
        rewrite Z.sub_0_r in Hval. change (- 0) with 0 in Hval.
        rewrite Z.pow_0_r in Hval. lia.
      - rewrite round_magnitude_neg. apply shift_round_even_exact.
        replace (Z.min 0 (Zneg p)) with (Zneg p) in Hval by lia.
        rewrite Z.sub_diag, Z.pow_0_r in Hval.
        change (- Zneg p) with (Zpos p) in Hval. lia. }
    rewrite Ha.
    replace (if Z.ltb k 0 then - Z.abs k else Z.abs k) with k
      by (destruct (Z.ltb_spec k 0); lia).
    exact Hcont.
Qed.

Lemma round_to_half_idempotent_witness :
  round_to_half (lit 11 (-2)) = Ok (lit 3 0)
  /\ round_to_half (lit 3 0) = Ok (lit 3 0).
Proof.
  split; [vm_compute; reflexivity|].
  apply (round_to_half_idempotent (lit 11 (-2))). vm_compute; reflexivity.
Defined.

(** ** [calculate] at the edges of its input *)

Lemma round_to_half_zero (s : bool) :
  round_to_half (S754_zero s) = Ok (S754_zero false).
Proof. destruct s; vm_compute; reflexivity. Qed.

Lemma mul_zero_l (s : bool) (y : float) :
  is_finite y = true -> exists s', mul (S754_zero s) y = S754_zero s'.
Proof.
  destruct y as [sy|sy| |sy my ey]; try discriminate; intros _;
    eexists; reflexivity.
Qed.

Lemma mul_zero_r (x : float) (s : bool) :
  is_finite x = true -> exists s', mul x (S754_zero s) = S754_zero s'.
Proof.
  destruct x as [sx|sx| |sx mx ex]; try discriminate; intros _;
    eexists; reflexivity.
Qed.

(** With no samples every scaled volume and the grand total are 0.0,
    whatever the excess percent (of magnitude below [2^Ke], [Ke <= 968]). *)
Theorem calculate_zero_samples (e : float) (m Ke : Z) :
  m = 2 \/ m = 5 -> 0 <= Ke <= 968 -> fbound Ke e ->
  calculate 0 e m
  = Ok {| per_sample := Spec.per_sample m;
          totals := map (fun kv => (fst kv, S754_zero false))
                      (Spec.per_sample m);
          grand_total := S754_zero false |}.
Proof.
  intros Hm HKe He. rewrite (calculate_supported 0 e m Hm).
  pose proof (factor_fbound e Ke He ltac:(lia) ltac:(unfold emax, prec; lia))
    as Hf.
  apply fbound_is_finite in Hf.
  assert (Hentry : forall kv, In kv (Spec.per_sample m) ->
                              scale_entry 0 (factor_of e) kv
                              = Ok (fst kv, S754_zero false)).
  { intros kv Hin. unfold scale_entry.
    change (of_int 0) with (Ok (A := float) (S754_zero false)). cbn [bind].
    pose proof (per_sample_fbound m kv Hm Hin) as Hv.
    apply fbound_is_finite in Hv.
    destruct (mul_zero_r (snd kv) false Hv) as (s1 & ->).
    destruct (mul_zero_l s1 (factor_of e) Hf) as (s2 & ->).
    rewrite round_to_half_zero. reflexivity. }
  assert (Hmap : forall l, (forall kv, In kv l ->
                                       scale_entry 0 (factor_of e) kv
                                       = Ok (fst kv, S754_zero false)) ->
                           mapM (scale_entry 0 (factor_of e)) l
                           = Ok (map (fun kv => (fst kv, S754_zero false)) l)).
  { induction l as [|kv l IH]; intros Hl; [reflexivity|].
    cbn [mapM map]. rewrite (Hl kv (or_introl eq_refl)). cbn [bind].
    rewrite IH by (intros; apply Hl; right; assumption). reflexivity. }
  rewrite (Hmap _ Hentry). cbn [bind].
  destruct Hm as [-> | ->]; reflexivity.
Qed.

Lemma calculate_zero_samples_witness :
  calculate 0 (lit 10 0) 2
  = Ok {| per_sample := Spec.per_sample 2;
          totals := map (fun kv => (fst kv, S754_zero false))
                      (Spec.per_sample 2);
          grand_total := S754_zero false |}.
Proof.
  apply (calculate_zero_samples (lit 10 0) 2 4);
    [left; reflexivity | lia | vm_compute; split; discriminate].
Defined.

Lemma mul_nonfinite_r (x y : float) :
  is_finite y = false -> is_finite (mul x y) = false.
Proof.
  destruct y as [sy|sy| |sy my ey]; try discriminate; intros _;
    destruct x as [sx|sx| |sx mx ex]; reflexivity.
Qed.

Lemma mul_nonfinite_l (x y : float) :
  is_finite x = false -> is_finite (mul x y) = false.
Proof.
  intros Hx.
  destruct x as [sx|sx| |sx mx ex]; try discriminate;
    destruct y as [sy|sy| |sy my ey]; reflexivity.
Qed.

Lemma factor_nonfinite (e : float) :
  is_finite e = false -> is_finite (factor_of e) = false.
Proof.
  unfold factor_of. rewrite lit_1_eq, lit_100_eq.
  destruct e as [s|s| |s m ex]; try discriminate; intros _; reflexivity.
Qed.

(** Rounding a positive mantissa at an exponent the format has: the result
    is not a zero, and its exponent is no smaller. *)
Lemma bra_positive (s : bool) (m e : Z) (l : location) :
  0 < m -> SpecFloat.emin prec emax <= e ->
  bra s m e l = S754_infinity s
  \/ exists p e', bra s m e l = S754_finite s p e' /\ e <= e'.
Proof.
  intros Hm He.
  destruct (bra_spec s m e l ltac:(lia)) as (m2 & Hb & _ & ->).
  set (e1 := Z.max e (fexp64 (Zdigits2 m + e))) in *.
  set (m1 := m / 2 ^ (e1 - e)) in *.
  set (e3 := Z.max e1 (fexp64 (Zdigits2 m2 + e1))).
  assert (Hd : 0 < Zdigits2 m) by (destruct m; simpl; lia).
  assert (Hge : 2 ^ (Zdigits2 m - 1) <= m) by (apply Zdigits2_gt; lia).
  assert (He1 : e1 = Z.max e (Zdigits2 m + e - prec))
    by (unfold e1, fexp; unfold prec in *; lia).
  assert (Hm1 : 0 < m1).
  { unfold m1. apply Z.div_str_pos. split.
    - apply Z.pow_pos_nonneg; lia.
    - eapply Z.le_trans; [|exact Hge].
      apply Z.pow_le_mono_r; unfold prec in *; lia. }
  assert (Hm2 : 0 < m2) by lia.
  assert (Hd2 : 0 < Zdigits2 m2) by (destruct m2; simpl; lia).
  assert (Hge2 : 2 ^ (Zdigits2 m2 - 1) <= m2) by (apply Zdigits2_gt; lia).
  assert (He3 : e3 = Z.max e1 (Zdigits2 m2 + e1 - prec))
    by (unfold e3, fexp; unfold prec in *; lia).
  assert (Hq : 0 < m2 / 2 ^ (e3 - e1)).
  { apply Z.div_str_pos. split.
    - apply Z.pow_pos_nonneg; lia.
    - eapply Z.le_trans; [|exact Hge2].
      apply Z.pow_le_mono_r; unfold prec in *; lia. }
  unfold pack. destruct (m2 / 2 ^ (e3 - e1)) as [|q|q]; try lia.
  destruct (Z.leb e3 (emax - prec)); [right | left; reflexivity].
  exists q, e3. split; [reflexivity | lia].
Qed.

Lemma normalize_positive (n : Z) :
  0 < n ->
  normalize n 0 = S754_infinity false
  \/ exists p e, normalize n 0 = S754_finite false p e /\ - 52 <= e.
Proof.
  intros Hn. unfold normalize.
  destruct (binary_normalize_nonzero n 0 ltac:(lia)) as (p & Hp & ->).
  rewrite binary_round_eq. cbv zeta.
  replace (Z.ltb n 0) with false by (symmetry; apply Z.ltb_ge; lia).
  set (ez := Z.min 0 (fexp64 (Zdigits2 (Zpos p) + 0))).
  assert (Hd : 0 < Zdigits2 (Zpos p)) by (simpl; lia).
  assert (Hez : - 52 <= ez <= 0)
    by (unfold ez, fexp, SpecFloat.emin, emax, prec; lia).
  destruct (bra_positive false (Zpos p * 2 ^ (0 - ez)) ez loc_Exact)
    as [H | (q & e & H & He)].
  - assert (0 < 2 ^ (0 - ez)) by (apply Z.pow_pos_nonneg; lia). lia.
  - unfold SpecFloat.emin, emax, prec. lia.
  - left. exact H.
  - right. exists q, e. split; [exact H | lia].
Qed.

Lemma mul_positive (mx : positive) (ex : Z) (my : positive) (ey : Z) :
  SpecFloat.emin prec emax <= ex + ey ->
  mul (S754_finite false mx ex) (S754_finite false my ey) = S754_infinity false
  \/ exists p e, mul (S754_finite false mx ex) (S754_finite false my ey)
                 = S754_finite false p e.
Proof.
  intros He. unfold mul, SFmul. cbn [xorb].
  destruct (bra_positive false (Zpos (mx * my)) (ex + ey) loc_Exact)
    as [H | (p & e & H & _)]; [lia | exact He | left; exact H |].
  right. exists p, e. exact H.
Qed.

Lemma ddw_first (m : Z) :
  m = 2 \/ m = 5 ->
  exists p l, Spec.per_sample m = ("DDW", S754_finite false p (-50)) :: l.
Proof. intros [-> | ->]; eexists; eexists; vm_compute; reflexivity. Qed.

(** With an infinite excess every scaled volume is infinite, and the first
    rounding raises [OverflowError], unless the conversion of the sample
    count has raised it before. *)
Lemma calculate_infinite_excess (n m : Z) :
  1 <= n -> m = 2 \/ m = 5 ->
  exists msg, calculate n (S754_infinity false) m = Raise (OverflowError msg).
Proof.
  intros Hn Hm. rewrite (calculate_supported n _ m Hm).
  destruct (ddw_first m Hm) as (p & l & ->).
  cbn [mapM]. unfold scale_entry at 1. cbn [fst snd]. unfold of_int.
  destruct (is_finite (normalize n 0)) eqn:Hfin; cbn [bind];
    [|eexists; reflexivity].
  assert (Hf : factor_of (S754_infinity false) = S754_infinity false)
    by (vm_compute; reflexivity).
  rewrite Hf.
  assert (Hinf : mul (mul (S754_finite false p (-50)) (normalize n 0))
                   (S754_infinity false) = S754_infinity false).
  { destruct (normalize_positive n ltac:(lia)) as [H | (q & e & H & He)];
      rewrite H in Hfin |- *; [discriminate Hfin|].
    destruct (mul_positive p (-50) q e) as [H2 | (p2 & e2 & H2)];
      [unfold SpecFloat.emin, emax, prec; lia | |]; rewrite H2; reflexivity. }
  rewrite Hinf, round_to_half_eq, lit_2_eq.
  change (mul (S754_infinity false) (S754_finite false 4503599627370496 (-51)))
    with (S754_infinity false).
  cbn [round bind]. eexists; reflexivity.
Qed.

Lemma mul_nan_r (x : float) : mul x S754_nan = S754_nan.
Proof. destruct x; reflexivity. Qed.

Lemma round_to_half_nan :
  round_to_half S754_nan
  = Raise (ValueError "cannot convert float NaN to integer").
Proof. reflexivity. Qed.

Lemma round_to_half_infinity (s : bool) :
  round_to_half (S754_infinity s)
  = Raise (OverflowError "cannot convert float infinity to integer").
Proof. rewrite round_to_half_eq, lit_2_eq. reflexivity. Qed.

Lemma factor_of_infinity (s : bool) :
  factor_of (S754_infinity s) = S754_infinity s.
Proof. destruct s; vm_compute; reflexivity. Qed.

(** The float of a non-zero [int] is not a zero and has the sign of the
    [int]. *)
Lemma normalize_nonzero (n : Z) :
  n <> 0 ->
  normalize n 0 = S754_infinity (Z.ltb n 0)
  \/ exists p e, normalize n 0 = S754_finite (Z.ltb n 0) p e /\ - 52 <= e.
Proof.
  intros Hn. unfold normalize.
  destruct (binary_normalize_nonzero n 0 Hn) as (p & Hp & ->).
  rewrite binary_round_eq. cbv zeta.
  set (ez := Z.min 0 (fexp64 (Zdigits2 (Zpos p) + 0))).
  assert (Hd : 0 < Zdigits2 (Zpos p)) by (simpl; lia).
  assert (Hez : - 52 <= ez <= 0)
    by (unfold ez, fexp, SpecFloat.emin, emax, prec; lia).
  destruct (bra_positive (Z.ltb n 0) (Zpos p * 2 ^ (0 - ez)) ez loc_Exact)
    as [H | (q & e & H & He)].
  - assert (0 < 2 ^ (0 - ez)) by (apply Z.pow_pos_nonneg; lia). lia.
  - unfold SpecFloat.emin, emax, prec. lia.
  - left. exact H.
  - right. exists q, e. split; [exact H | lia].
Qed.

(** A product of two finite non-zero floats whose exponents add up to one
    of the format is not a zero. *)
Lemma mul_nonzero (sx : bool) (mx : positive) (ex : Z)
    (sy : bool) (my : positive) (ey : Z) :
  SpecFloat.emin prec emax <= ex + ey ->
  (exists s, mul (S754_finite sx mx ex) (S754_finite sy my ey)
             = S754_infinity s)
  \/ exists s p e, mul (S754_finite sx mx ex) (S754_finite sy my ey)
                   = S754_finite s p e.
Proof.
  intros He. unfold mul, SFmul.
  destruct (bra_positive (xorb sx sy) (Zpos (mx * my)) (ex + ey) loc_Exact)
    as [H | (p & e & H & _)]; [lia | exact He | left; eauto |].
  right. eauto.
Qed.

(** When the first scaled volume raises, [calculate] raises the same. *)
Lemma calculate_first_raises (n : Z) (e : float) (m : Z) (x : exn) :
  m = 2 \/ m = 5 ->
  (forall kv l, Spec.per_sample m = kv :: l ->
                scale_entry n (factor_of e) kv = Raise x) ->
  calculate n e m = Raise x.
Proof.
  intros Hm H. rewrite (calculate_supported n e m Hm).
  destruct (Spec.per_sample m) as [|kv l] eqn:Hl.
  - destruct Hm as [-> | ->]; discriminate Hl.
  - cbn [mapM]. rewrite (H kv l eq_refl). reflexivity.
Qed.

(** An infinite or NaN excess percent is never accepted: [calculate] has no
    check for it, but the first scaled volume cannot be computed.  Which
    exception is raised depends on the sample count: one too large for a
    float raises [OverflowError] in its conversion; otherwise a NaN excess,
    or no samples (zero times infinity is a NaN), raises the [ValueError] of
    [round]; otherwise the infinite product raises the [OverflowError] of
    [round]. *)
Theorem nonfinite_excess_rejected (n : Z) (e : float) (m : Z) :
  m = 2 \/ m = 5 -> is_finite e = false ->
  (exists x, calculate n e m = Raise x /\ range_error x)
  /\ (forall x, of_int n = Raise x ->
        x = OverflowError "int too large to convert to float"
        /\ calculate n e m = Raise x)
  /\ (forall nf, of_int n = Ok nf -> e = S754_nan \/ n = 0 ->
        calculate n e m
        = Raise (ValueError "cannot convert float NaN to integer"))
  /\ (forall nf, of_int n = Ok nf -> e <> S754_nan -> n <> 0 ->
        calculate n e m
        = Raise (OverflowError "cannot convert float infinity to integer")).
Proof.
  intros Hm He.
  assert (Hany : forall x, calculate n e m = Raise x ->
                           exists x, calculate n e m = Raise x /\ range_error x).
  { intros x Hc. exists x. split; [exact Hc|].
    apply (calculate_Raise n e m x Hm Hc). }
  assert (H1 : forall x, of_int n = Raise x ->
                 x = OverflowError "int too large to convert to float"
                 /\ calculate n e m = Raise x).
  { intros x Hx. split.
    - unfold of_int in Hx. destruct (is_finite (normalize n 0));
        [discriminate Hx | injection Hx as <-; reflexivity].
    - apply calculate_first_raises; [exact Hm|].
      intros kv l _. unfold scale_entry. rewrite Hx. reflexivity. }
  assert (H2 : forall nf, of_int n = Ok nf -> e = S754_nan \/ n = 0 ->
                 calculate n e m
                 = Raise (ValueError "cannot convert float NaN to integer")).
  { intros nf Hnf Hcase. apply calculate_first_raises; [exact Hm|].
    intros kv l Hl. destruct (ddw_first m Hm) as (p & l' & Hd).
    rewrite Hd in Hl. injection Hl as <- _.
    unfold scale_entry. rewrite Hnf. cbn [bind fst snd].
    assert (Hnan : mul (mul (S754_finite false p (-50)) nf) (factor_of e)
                   = S754_nan).
    { destruct Hcase as [-> | ->].
      - change (factor_of S754_nan) with S754_nan. apply mul_nan_r.
      - injection Hnf as <-.
        pose proof (factor_nonfinite e He) as Hf.
        destruct (factor_of e) as [s|s| |s q ex]; try discriminate Hf;
          reflexivity. }
    rewrite Hnan, round_to_half_nan. reflexivity. }
  assert (H3 : forall nf, of_int n = Ok nf -> e <> S754_nan -> n <> 0 ->
                 calculate n e m
                 = Raise (OverflowError
                            "cannot convert float infinity to integer")).
  { intros nf Hnf Hnn Hn0. apply calculate_first_raises; [exact Hm|].
    intros kv l Hl. destruct (ddw_first m Hm) as (p & l' & Hd).
    rewrite Hd in Hl. injection Hl as <- _.
    unfold scale_entry. rewrite Hnf. cbn [bind fst snd].
    assert (Hfin : is_finite (normalize n 0) = true).
    { unfold of_int in Hnf. destruct (is_finite (normalize n 0));
        [reflexivity | discriminate Hnf]. }
    pose proof (of_int_Ok _ _ Hnf) as ->.
    assert (Hinf : exists s,
               mul (mul (S754_finite false p (-50)) (normalize n 0))
                 (factor_of e) = S754_infinity s).
    { destruct e as [s|s| |s q ex]; try discriminate He; [|congruence].
      rewrite factor_of_infinity.
      destruct (normalize_nonzero n Hn0) as [H | (q & ex & H & Hex)];
        rewrite H in Hfin |- *; [discriminate Hfin|].
      destruct (mul_nonzero false p (-50) (Z.ltb n 0) q ex)
        as [(s1 & Hs) | (s1 & p1 & e1 & Hs)];
        [unfold SpecFloat.emin, emax, prec; lia | |]; rewrite Hs;
        eexists; reflexivity. }
    destruct Hinf as (s & ->). rewrite round_to_half_infinity. reflexivity. }
  split; [|split; [exact H1 | split; [exact H2 | exact H3]]].
  destruct (of_int n) as [nf | x] eqn:Hnf.
  - destruct e as [s|s| |s q ex]; try discriminate He.
    + destruct (Z.eq_dec n 0) as [Hn0 | Hn0].
      * eapply Hany. apply (H2 nf eq_refl). right; exact Hn0.
      * eapply Hany. apply (H3 nf eq_refl); [discriminate | exact Hn0].
    + eapply Hany. apply (H2 nf eq_refl). left; reflexivity.
  - eapply Hany. apply (H1 x eq_refl).
Qed.

Lemma nonfinite_excess_rejected_witness :
  calculate 0 (S754_infinity false) 2
  = Raise (ValueError "cannot convert float NaN to integer")
  /\ calculate 8 (S754_infinity false) 2
     = Raise (OverflowError "cannot convert float infinity to integer").
Proof.
  split.
  - destruct (nonfinite_excess_rejected 0 (S754_infinity false) 2)
      as (_ & _ & H & _); [left; reflexivity | reflexivity |].
    apply (H (S754_zero false)); [reflexivity | right; reflexivity].
  - destruct (nonfinite_excess_rejected 8 (S754_infinity false) 2)
      as (_ & _ & _ & H); [left; reflexivity | reflexivity |].
    apply (H (normalize 8 0)); [reflexivity | discriminate | lia].
Defined.

(** ** The report formatter *)

Lemma dict_get_In (V : Type) (d : dict V) (k : string) :
  In k (dict_keys d) -> exists v, dict_get d k = Some v.
Proof.
  induction d as [|[k' v'] d IH]; simpl; [contradiction|].
  intros [-> | Hin].
  - rewrite String.eqb_refl. eauto.
  - destruct (String.eqb k' k); eauto.
Qed.

Lemma dict_get_NoDup (V : Type) (d : dict V) (k : string) (v : V) :
  NoDup (dict_keys d) -> In (k, v) d -> dict_get d k = Some v.
Proof.
  induction d as [|[k' v'] d IH]; simpl; [contradiction|].
  intros Hnd [Heq | Hin]; inversion Hnd as [|? ? Hnotin Hnd']; subst.
  - injection Heq as -> ->. rewrite String.eqb_refl. reflexivity.
  - destruct (String.eqb_spec k' k) as [-> | Hne].
    + exfalso. apply Hnotin. change (In (fst (k, v)) (map fst d)).
      apply in_map. exact Hin.
    + apply IH; assumption.
Qed.

(** A scaled mapping that lacks an ingredient of the per-sample mapping makes
    the formatter raise [KeyError] with the first such ingredient; no text is
    returned. *)
Theorem format_text_report_missing_key (str_of_float : float -> string)
    (n : Z) (exc : float) (mx : Z) (per1 : dict float) (k : string) (v : float)
    (per2 tot : dict float) (grand : float) :
  (forall kv, In kv per1 -> In (fst kv) (dict_keys tot)) ->
  ~ In k (dict_keys tot) ->
  format_text_report str_of_float n exc mx (per1 ++ (k, v) :: per2)%list tot grand
  = Raise (KeyError k).
Proof.
  intros H1 Hk. unfold format_text_report.
  assert (Hnone : dict_get tot k = None).
  { clear -Hk. induction tot as [|[k' v'] tot IH]; [reflexivity|].
    simpl in *. destruct (String.eqb_spec k' k) as [-> | Hne].
    - exfalso. apply Hk. left; reflexivity.
    - apply IH. intros Hin. apply Hk. right; exact Hin. }
  assert (Hm : mapM (ingredient_row tot) (per1 ++ (k, v) :: per2)%list
               = Raise (KeyError k)).
  { induction per1 as [|kv per1 IH]; cbn [app mapM].
    - unfold ingredient_row at 1, dict_item. cbn [fst]. rewrite Hnone.
      reflexivity.
    - destruct (dict_get_In _ tot (fst kv) (H1 kv (or_introl eq_refl)))
        as (t & Ht).
      unfold ingredient_row at 1, dict_item. rewrite Ht. cbn [bind].
      rewrite IH by (intros; apply H1; right; assumption). reflexivity. }
  rewrite Hm. reflexivity.
Qed.

Lemma format_text_report_missing_key_witness :
  format_text_report (fun _ => "10.0") 8 (lit 10 0) 2
    ([("DDW", lit 4 0)] ++ ("Mix (2X)", lit 6 0) :: [("Primer Fwd", lit 1 (-1))])%list
    [("DDW", lit 35 0); ("Primer Fwd", lit 9 (-1))] (lit 97 0)
  = Raise (KeyError "Mix (2X)").
Proof.
  apply format_text_report_missing_key.
  - intros kv [<- | []]. left; reflexivity.
  - intros [H | [H | []]]; discriminate H.
Defined.

Lemma per_sample_keys_NoDup (m : Z) :
  m = 2 \/ m = 5 -> NoDup (dict_keys (Spec.per_sample m)).
Proof.
  intros [-> | ->]; vm_compute;
    repeat (constructor; [intros H; repeat (destruct H as [H | H];
                                            [discriminate H|]); exact H|]);
    constructor.
Qed.

(** Formatting the rows of what [calculate] returned: every lookup in the
    scaled mapping succeeds and finds the volume at the same position. *)
Lemma rows_of_calculation (n : Z) (e : float) (m : Z) (r : calculation) :
  calculate n e m = Ok r ->
  mapM (ingredient_row (totals r)) (per_sample r)
  = Ok (map (fun p => volume_row (fst (fst p)) (snd (fst p)) (snd (snd p)))
          (combine (per_sample r) (totals r)))
  /\ dict_keys (totals r) = dict_keys (per_sample r)
  /\ List.length (totals r) = 4%nat
  /\ NoDup (dict_keys (per_sample r)).
Proof.
  intros Hc. apply calculate_Ok_inv in Hc as (Hm & Hper & Htot & _).
  rewrite Hper. apply mapM_Ok_Forall2 in Htot.
  assert (Hkeys : Forall2 (fun kv kt => fst kt = fst kv)
                    (Spec.per_sample m) (totals r)).
  { eapply Forall2_impl; [|exact Htot].
    intros kv kt Hs. apply scale_entry_Ok_inv in Hs. tauto. }
  assert (Heqk : dict_keys (totals r) = dict_keys (Spec.per_sample m)).
  { clear -Hkeys. induction Hkeys as [|kv kt l l' H HF IH]; [reflexivity|].
    unfold dict_keys in *. cbn [map]. rewrite H, IH. reflexivity. }
  assert (Hnd : NoDup (dict_keys (totals r))).
  { rewrite Heqk. apply per_sample_keys_NoDup. exact Hm. }
  assert (Hrows : forall per' tot',
             Forall2 (fun kv kt => fst kt = fst kv) per' tot' ->
             (forall kt, In kt tot' -> In kt (totals r)) ->
             mapM (ingredient_row (totals r)) per'
             = Ok (map (fun p => volume_row (fst (fst p)) (snd (fst p))
                                   (snd (snd p)))
                     (combine per' tot'))).
  { intros per' tot' HF. induction HF as [|kv kt l l' H HF IH]; intros Hin.
    - reflexivity.
    - assert (Hget : dict_get (totals r) (fst kv) = Some (snd kt)).
      { rewrite <- H. apply dict_get_NoDup; [exact Hnd|].
        rewrite <- surjective_pairing. apply Hin. left; reflexivity. }
      cbn [mapM combine map]. unfold ingredient_row at 1, dict_item.
      rewrite Hget. cbn [bind].
      rewrite IH by (intros; apply Hin; right; assumption).
      reflexivity. }
  split; [|split; [|split]].
  - apply Hrows; auto.
  - exact Heqk.
  - apply Forall2_length in Hkeys. rewrite <- Hkeys.
    destruct Hm as [-> | ->]; reflexivity.
  - apply per_sample_keys_NoDup. exact Hm.
Qed.

(** The report of a calculation: formatting what [calculate] returned never
    raises, and the row of each ingredient carries that ingredient's own
    per-sample and scaled volume, in the per-sample order. *)
Theorem report_of_calculation (str_of_float : float -> string)
    (n : Z) (e : float) (m : Z) (r : calculation) :
  calculate n e m = Ok r ->
  format_text_report str_of_float n e m
    (per_sample r) (totals r) (grand_total r)
  = Ok (join_lines
          (header str_of_float n e m
             ++ map (fun p => volume_row (fst (fst p)) (snd (fst p)) (snd (snd p)))
                  (combine (per_sample r) (totals r))
             ++ [rule "-";
                 volume_row "TOTAL VOLUME" PER_SAMPLE_TOTAL (grand_total r)]))
  /\ dict_keys (totals r) = dict_keys (per_sample r)
  /\ List.length (totals r) = 4%nat.
Proof.
  intros Hc.
  destruct (rows_of_calculation n e m r Hc) as (Hrows & Hkeys & Hlen & _).
  split; [|split; assumption].
  unfold format_text_report. rewrite Hrows. reflexivity.
Qed.

Lemma report_of_calculation_witness :
  exists r,
    calculate 8 (lit 10 0) 2 = Ok r
    /\ dict_keys (totals r) = dict_keys (per_sample r).
Proof.
  eexists. split; [vm_compute; reflexivity|].
  apply (report_of_calculation (fun _ => "10.0") 8 (lit 10 0) 2).
  vm_compute. reflexivity.
Defined.

(** Fields are padded, never cut: a table row starts with the whole
    ingredient name, and its length is the sum of the three field widths,
    each at least 20, 7 and 9, plus 12 for the separators and units.  A row
    whose fields fit is therefore 48 characters long, two less than the
    rules above and below it. *)
Theorem volume_row_width (name : string) (v t : float) :
  String.prefix name (volume_row name v t) = true
  /\ String.length (volume_row name v t)
     = (Nat.max 20 (String.length name)
        + Nat.max 7 (String.length (format_1f v))
        + Nat.max 9 (String.length (format_1f t)) + 12)%nat
  /\ String.length (rule "-") = 50%nat.
Proof.
  split; [|split].
  - unfold volume_row, table_row, ljust.
    rewrite append_assoc. apply prefix_append.
  - unfold volume_row, table_row, ljust, rjust, uL.
    rewrite !length_append, !length_spaces. cbn [String.length]. lia.
  - reflexivity.
Qed.

(** A scaled volume is printed exactly: what [round_to_half] returns is
    [k / 2] for the integer [k] that [round] produced, and its text with one
    decimal is that of [k / 2] itself, ending in 0 or 5; the display does
    no rounding of its own. *)
Theorem round_to_half_printed (x t : float) :
  round_to_half x = Ok t ->
  exists k,
    round (mul x (lit 2 0)) = Ok k
    /\ format_1f t
       = (if Z.ltb k 0 then "-" else "")
           ++ str_of_int (Z.abs k / 2) ++ "."
           ++ (if Z.even k then "0" else "5").
Proof.
  intros H.
  destruct (round_to_half_shape x t H)
    as (k & Hk & [[-> ->] | (Hk0 & M & f & HM & _ & _ & _ & Hval & ->)]).
  - exists 0. split; [exact Hk | reflexivity].
  - exists k. split; [exact Hk|]. unfold format_1f.
    assert (HM10 : Zpos (10 * Z.to_pos M) = 10 * M)
      by (rewrite Pos2Z.inj_mul, Z2Pos.id by lia; reflexivity).
    assert (Ht : match f - 1 with
                 | 0 => Zpos (10 * Z.to_pos M)
                 | Zpos p => Zpos (10 * Z.to_pos M) * 2 ^ Zpos p
                 | Zneg p => shift_round_even (10 * Z.to_pos M) p
                 end = 5 * Z.abs k).
    { destruct (f - 1) as [|p|p] eqn:He.
      - assert (f = 1) by lia. subst f. rewrite HM10.
        change (2 ^ (1 - Z.min 0 1)) with 2 in Hval.
        change (2 ^ (- Z.min 0 1)) with 1 in Hval. lia.
      - assert (Hf : f = Zpos p + 1) by lia. rewrite HM10.
        replace (Z.min 0 f) with 0 in Hval by lia.
        rewrite Z.sub_0_r, Z.opp_0, Z.pow_0_r, Hf in Hval.
        rewrite (Z.pow_add_r 2 (Zpos p) 1) in Hval by lia.
        change (2 ^ 1) with 2 in Hval. lia.
      - assert (Hf : f = 1 - Zpos p) by lia.
        apply shift_round_even_exact. rewrite HM10.
        replace (Z.min 0 f) with f in Hval by lia.
        rewrite Z.sub_diag, Z.pow_0_r in Hval.
        replace (- f) with (Zpos p - 1) in Hval by lia.
        assert (Hp : 2 ^ Zpos p = 2 * 2 ^ (Zpos p - 1)).
        { rewrite <- Z.pow_succ_r by lia. f_equal. lia. }
        rewrite Hp. rewrite Z.mul_1_r in Hval. rewrite Hval. ring. }
    rewrite Ht.
    replace (5 * Z.abs k / 10) with (Z.abs k / 2)
      by (change 10 with (5 * 2); rewrite Z.div_mul_cancel_l by lia;
          reflexivity).
    replace (5 * Z.abs k mod 10) with (5 * (Z.abs k mod 2))
      by (change 10 with (5 * 2); rewrite Z.mul_mod_distr_l by lia;
          reflexivity).
    rewrite Zmod_even.
    replace (Z.even (Z.abs k)) with (Z.even k) by (destruct k; reflexivity).
    destruct (Z.even k); reflexivity.
Qed.

Lemma round_to_half_printed_witness :
  exists k,
    round (mul (lit 11 (-2)) (lit 2 0)) = Ok k
    /\ format_1f (lit 3 0)
       = (if Z.ltb k 0 then "-" else "")
           ++ str_of_int (Z.abs k / 2) ++ "."
           ++ (if Z.even k then "0" else "5").
Proof.
  apply (round_to_half_printed (lit 11 (-2)) (lit 3 0)).
  vm_compute. reflexivity.
Defined.

(** ** What the rounding of each ingredient costs *)

Lemma bra_exponent_min (s : bool) (m e : Z) (l : location) (s' : bool)
    (p : positive) (e' : Z) :
  0 <= m -> bra s m e l = S754_finite s' p e' ->
  SpecFloat.emin prec emax <= e'.
Proof.
  intros Hm. destruct (bra_spec s m e l Hm) as (m2 & _ & _ & ->).
  unfold pack. destruct (_ / _) as [|q|q]; try discriminate.
  match goal with |- context [Z.leb ?a ?b] => destruct (Z.leb_spec a b) end;
    try discriminate.
  intros Hf. injection Hf as _ _ <-. unfold fexp. lia.
Qed.

Lemma mul_exponent_min (x y : float) (s : bool) (m : positive) (e : Z) :
  mul x y = S754_finite s m e -> SpecFloat.emin prec emax <= e.
Proof.
  unfold mul. destruct x as [sx|sx| |sx mx ex], y as [sy|sy| |sy my ey];
    unfold SFmul; try discriminate.
  intros H. apply bra_exponent_min in H; [exact H | lia].
Qed.

Lemma Qpower_inject (k : Z) : 0 <= k -> (2 ^ k == inject_Z (2 ^ k))%Q.
Proof. intros Hk. rewrite (Zpower_Qpower 2 k) by exact Hk. reflexivity. Qed.

(** Doubling is exact on every float that an operation can return: a
    mantissa of at most 53 digits at an exponent of the format. *)
Lemma mul_two_value_wide (s : bool) (m : positive) (e : Z) :
  Zdigits2 (Zpos m) <= prec -> SpecFloat.emin prec emax <= e ->
  is_finite (mul (S754_finite s m e) (lit 2 0)) = true ->
  (to_Q (mul (S754_finite s m e) (lit 2 0)) == 2 * to_Q (S754_finite s m e))%Q.
Proof.
  intros Hd He.
  assert (Hd0 : 0 < Zdigits2 (Zpos m)) by (simpl; lia).
  rewrite lit_2_eq. unfold mul, SFmul. rewrite xorb_false_r.
  rewrite Pos2Z.inj_mul. change (Zpos 4503599627370496) with (2 ^ 52).
  assert (Hpos : 0 < Zpos m * 2 ^ 52) by lia.
  pose proof (bra_exact s (Zpos m * 2 ^ 52) (e + -51) Hpos) as Hbra.
  cbv zeta in Hbra. rewrite Zdigits2_mul_pow2 in Hbra by lia.
  set (t := Z.max (e + -51)
              (fexp64 (Zdigits2 (Zpos m) + 52 + (e + -51)))) in *.
  assert (Ht : e + -51 <= t <= e + 1)
    by (unfold t, fexp in *; unfold prec in *; lia).
  set (j := t - (e + -51)) in *.
  assert (Hj : 0 <= j <= 52) by (unfold j; lia).
  assert (Hmod : (Zpos m * 2 ^ 52) mod 2 ^ j = 0).
  { replace 52 with ((52 - j) + j) by lia. rewrite Z.pow_add_r by lia.
    rewrite Z.mul_assoc. apply Z.mod_mul. apply Z.pow_nonzero; lia. }
  destruct (Hbra Hmod) as (Heq & _ & Hval). rewrite Heq.
  assert (Hpj : 0 < 2 ^ j) by (apply Z.pow_pos_nonneg; lia).
  destruct (Zpos m * 2 ^ 52 / 2 ^ j) as [|q|q]; try nia.
  unfold pack. destruct (Z.leb t (emax - prec)); [|discriminate].
  intros _. rewrite !to_Q_Qpower.
  assert (E : (if s then Zneg q else Zpos q) * 2 ^ j
              = (if s then Zneg m else Zpos m) * 2 ^ 52).
  { destruct s; [change (Zneg q) with (- Zpos q);
                 change (Zneg m) with (- Zpos m)|]; lia. }
  set (a := if s then Zneg q else Zpos q) in *.
  set (b := if s then Zneg m else Zpos m) in *.
  assert (EQ : (inject_Z a * 2 ^ j == inject_Z b * 2 ^ 52)%Q).
  { rewrite (Qpower_inject j), (Qpower_inject 52) by lia.
    rewrite <- !inject_Z_mult, E. reflexivity. }
  assert (PW : (2 ^ 52 * 2 ^ (e + -51) == 2 * 2 ^ e)%Q).
  { rewrite <- Qpower_plus by discriminate.
    replace (52 + (e + -51)) with (1 + e) by lia.
    rewrite Qpower_plus by discriminate. reflexivity. }
  replace t with (j + (e + -51)) by (unfold j; lia).
  rewrite Qpower_plus by discriminate.
  setoid_replace (inject_Z a * (2 ^ j * 2 ^ (e + -51)))%Q
    with ((inject_Z a * 2 ^ j) * 2 ^ (e + -51))%Q by ring.
  rewrite EQ.
  setoid_replace (inject_Z b * 2 ^ 52 * 2 ^ (e + -51))%Q
    with (inject_Z b * (2 ^ 52 * 2 ^ (e + -51)))%Q by ring.
  rewrite PW. ring.
Qed.

(** The rounding law on the products [calculate] rounds. *)
Lemma round_to_half_close (x y t : float) :
  round_to_half (mul x y) = Ok t ->
  (Qabs (to_Q t - to_Q (mul x y)) <= 1 # 4)%Q.
Proof.
  intros Hr.
  assert (Hfin : is_finite (mul (mul x y) (lit 2 0)) = true).
  { pose proof Hr as Hr'. rewrite round_to_half_eq in Hr'.
    apply bind_Ok_inv in Hr' as (k0 & Hk0 & _).
    destruct (mul (mul x y) (lit 2 0)); try discriminate Hk0; reflexivity. }
  assert (Hval : (to_Q (mul (mul x y) (lit 2 0)) == 2 * to_Q (mul x y))%Q).
  { destruct (mul x y) as [s|s| |s m e] eqn:Hxy.
    - rewrite lit_2_eq. reflexivity.
    - rewrite lit_2_eq in Hfin. discriminate Hfin.
    - discriminate Hfin.
    - apply mul_two_value_wide; [|  |exact Hfin].
      + exact (mul_digits _ _ _ _ _ Hxy).
      + exact (mul_exponent_min _ _ _ _ _ Hxy). }
  apply round_to_half_is_half in Hr as (k & Hk & Hhalf).
  apply is_half_to_Q in Hhalf.
  destruct (round_nearest_even _ _ Hk) as [Hle _].
  rewrite Hval in Hle.
  apply Qabs_Qle_condition in Hle. apply Qabs_Qle_condition.
  split; lra.
Qed.

Lemma scale_entry_close (n : Z) (f : float) (kv kt : string * float) :
  scale_entry n f kv = Ok kt ->
  fst kt = fst kv
  /\ (Qabs (to_Q (snd kt) - to_Q (mul (mul (snd kv) (normalize n 0)) f))
      <= 1 # 4)%Q.
Proof.
  unfold scale_entry. intros H.
  apply bind_Ok_inv in H as (nf & Hnf & H).
  pose proof (of_int_Ok _ _ Hnf) as ->.
  apply bind_Ok_inv in H as (t & Ht & H).
  injection H as <-. cbn [fst snd].
  split; [reflexivity|]. apply round_to_half_close. exact Ht.
Qed.

(** Each scaled volume that [calculate] returns lies within 0.25 of the
    product it was rounded from, the float
    [v * n_samples * factor]. *)
Theorem scaled_within_quarter (n : Z) (e : float) (m : Z) (r : calculation) :
  calculate n e m = Ok r ->
  Forall2
    (fun kv kt =>
       fst kt = fst kv
       /\ (Qabs (to_Q (snd kt)
                 - to_Q (mul (mul (snd kv) (normalize n 0)) (factor_of e)))
           <= 1 # 4)%Q)
    (per_sample r) (totals r).
Proof.
  intros Hc. apply calculate_Ok_inv in Hc as (_ & -> & Htot & _).
  apply mapM_Ok_Forall2 in Htot.
  eapply Forall2_impl; [|exact Htot].
  intros kv kt Hs. apply scale_entry_close. exact Hs.
Qed.

Lemma scaled_within_quarter_witness :
  exists r,
    calculate 8 (lit 10 0) 2 = Ok r
    /\ Forall2
         (fun kv kt =>
            fst kt = fst kv
            /\ (Qabs (to_Q (snd kt)
                      - to_Q (mul (mul (snd kv) (normalize 8 0))
                                (factor_of (lit 10 0))))
                <= 1 # 4)%Q)
         (per_sample r) (totals r).
Proof.
  eexists. split; [vm_compute; reflexivity|].
  apply (scaled_within_quarter 8 (lit 10 0) 2). vm_compute. reflexivity.
Defined.

(** The grand total and the unrounded total: on a valid input of moderate
    size ([n < 2^Kn], [e < 2^Ke], [Kn + Ke <= 38]) the grand total differs
    by at most 1.0 from the exact sum of the four products
    [v * n_samples * factor] before their rounding. *)
Theorem grand_total_within_one (n : Z) (e : float) (m Kn Ke : Z) :
  1 <= n -> leb (S754_zero false) e = true -> m = 2 \/ m = 5 ->
  0 <= Kn -> 0 <= Ke -> Kn + Ke <= 38 ->
  n < 2 ^ Kn -> fbound Ke e ->
  exists r,
    calculate n e m = Ok r
    /\ (Qabs (to_Q (grand_total r)
              - Qsum (map (fun kv =>
                             to_Q (mul (mul (snd kv) (normalize n 0))
                                     (factor_of e)))
                        (per_sample r)))
        <= 1)%Q.
Proof.
  intros Hn He Hm HKn HKe HK Hlt Hb.
  destruct (calculate_returns n e m Kn Ke Hm HKn HKe ltac:(lia)
              ltac:(lia) Hb) as (r & Hr).
  exists r. split; [exact Hr|].
  apply calculate_Ok_inv in Hr as (_ & Hper & Htot & Hg).
  assert (Hsum : (to_Q (grand_total r)
                  == Qsum (map to_Q (dict_values (totals r))))%Q).
  { destruct (totals_bounded_halves n e m Kn Ke (totals r) Hn He Hm HKn HKe
                ltac:(lia) Hlt Hb Htot) as (ks & Hhalf & Hks & Hlen).
    destruct (Zsum_four_bound ks _ Hks Hlen) as [Hnn Hs4].
    assert (Hpow : 2 ^ (Kn + Ke + 12) <= 2 ^ 50)
      by (apply Z.pow_le_mono_r; lia).
    assert (Hex : is_half (0 + Zsum ks) (grand_total r)).
    { rewrite Hg. apply fold_add_exact; try assumption.
      - reflexivity.
      - lia.
      - change (2 ^ 53) with (8 * 2 ^ 50). lia. }
    apply is_half_to_Q in Hex.
    pose proof (Qsum_half (dict_values (totals r)) ks 0 0 ltac:(reflexivity)
                  Hhalf) as Hq.
    fold (Qsum (map to_Q (dict_values (totals r)))) in Hq.
    rewrite <- Hq in Hex.
    apply Qmult_inj_r in Hex; [exact Hex | discriminate]. }
  rewrite Hper. apply mapM_Ok_Forall2 in Htot.
  unfold Spec.per_sample in Htot |- *.
  inversion Htot as [|kv1 kt1 l1 l1' H1 Htot1 E1 E1']; subst.
  inversion Htot1 as [|kv2 kt2 l2 l2' H2 Htot2 E2 E2']; subst.
  inversion Htot2 as [|kv3 kt3 l3 l3' H3 Htot3 E3 E3']; subst.
  inversion Htot3 as [|kv4 kt4 l4 l4' H4 Htot4 E4 E4']; subst.
  inversion Htot4; subst.
  match goal with H : _ = totals r |- _ => rewrite <- H in Hsum end.
  apply scale_entry_close in H1 as [_ H1].
  apply scale_entry_close in H2 as [_ H2].
  apply scale_entry_close in H3 as [_ H3].
  apply scale_entry_close in H4 as [_ H4].
  cbn [snd] in H1, H2, H3, H4.
  unfold Qsum, dict_values in Hsum |- *.
  cbn [map fold_left snd] in Hsum |- *.
  change (binary_round prec emax false 1 (-1)) with (lit 1 (-1)) in H3, H4.
  apply Qabs_Qle_condition in H1, H2, H3, H4.
  destruct H1, H2, H3, H4.
  apply Qabs_Qle_condition. split; lra.
Qed.

Lemma grand_total_within_one_witness :
  exists r,
    calculate 8 (lit 10 0) 2 = Ok r
    /\ (Qabs (to_Q (grand_total r)
              - Qsum (map (fun kv =>
                             to_Q (mul (mul (snd kv) (normalize 8 0))
                                     (factor_of (lit 10 0))))
                        (per_sample r)))
        <= 1)%Q.
Proof.
  apply (grand_total_within_one 8 (lit 10 0) 2 4 4);
    [lia | reflexivity | left; reflexivity | lia | lia | lia
     | reflexivity | vm_compute; split; discriminate].
Defined.

(** ** The form *)

Import PCRGui.

Lemma dict_keys_Forall2 (per tot : dict float) :
  dict_keys tot = dict_keys per ->
  Forall2 (fun kv kt => fst kt = fst kv) per tot.
Proof.
  revert tot. induction per as [|kv per IH]; intros [|kt tot] H;
    try discriminate H; constructor.
  - injection H as H _. exact H.
  - apply IH. injection H as _ H. exact H.
Qed.

Lemma insert_rows_all (per tot : dict float) (g : form) :
  NoDup (dict_keys per) -> dict_keys tot = dict_keys per ->
  insert_rows per tot (dict_keys per) g
  = (set_tree
       (tree g ++ map (fun p => (fst (fst p), format_1f (snd (fst p)),
                                 format_1f (snd (snd p))))
                    (combine per tot))%list g, None).
Proof.
  intros Hnd Hk.
  assert (Hndt : NoDup (dict_keys tot)) by (rewrite Hk; exact Hnd).
  pose proof (dict_keys_Forall2 per tot Hk) as HF.
  assert (Hgen : forall per' tot',
             Forall2 (fun kv kt => fst kt = fst kv) per' tot' ->
             (forall kv, In kv per' -> In kv per) ->
             (forall kt, In kt tot' -> In kt tot) ->
             forall g0,
               insert_rows per tot (dict_keys per') g0
               = (set_tree
                    (tree g0 ++ map (fun p => (fst (fst p),
                                               format_1f (snd (fst p)),
                                               format_1f (snd (snd p))))
                                  (combine per' tot'))%list g0, None)).
  { intros per' tot' HF'.
    induction HF' as [|kv kt l l' H HF' IH]; intros Hp Ht g0.
    - cbn [dict_keys map insert_rows combine]. rewrite app_nil_r.
      destruct g0; reflexivity.
    - assert (Hgp : dict_get per (fst kv) = Some (snd kv)).
      { apply dict_get_NoDup; [exact Hnd|].
        rewrite <- surjective_pairing. apply Hp. left; reflexivity. }
      assert (Hgt : dict_get tot (fst kv) = Some (snd kt)).
      { rewrite <- H. apply dict_get_NoDup; [exact Hndt|].
        rewrite <- surjective_pairing. apply Ht. left; reflexivity. }
      unfold dict_keys. cbn [map insert_rows combine]. unfold dict_item.
      rewrite Hgp, Hgt. cbn [bind].
      fold (dict_keys l).
      rewrite IH by (intros; (apply Hp || apply Ht); right; assumption).
      unfold set_tree. cbn [tree lbl_grand_total lbl_status current_report].
      rewrite <- app_assoc. reflexivity. }
  apply Hgen; auto.
Qed.

(** A successful recalculation: when the inputs pass the form's check and
    [calculate] returns, the table holds the four ingredients with both
    volumes printed with one decimal, the grand total is shown in blue with
    its unit, the status line is empty, the formatter's text is stored, and
    it is that text which the copy button puts on the clipboard.  Nothing
    of the earlier form survives. *)
Theorem update_calc_success (str_of_float : float -> string)
    (var_samples : result Z) (var_excess : result float) (var_mix : result Z)
    (g : form) (n : Z) (e : float) (m : Z) (r : calculation) :
  get_inputs var_samples var_excess var_mix = Some (n, e, m) ->
  calculate n e m = Ok r ->
  exists text,
    format_text_report str_of_float n e m
      (per_sample r) (totals r) (grand_total r) = Ok text
    /\ update_calc str_of_float var_samples var_excess var_mix g
       = ({| tree := map (fun p => (fst (fst p), format_1f (snd (fst p)),
                                    format_1f (snd (snd p))))
                       (combine (per_sample r) (totals r));
             lbl_grand_total := (format_1f (grand_total r) ++ uL, "#0055aa");
             lbl_status := "";
             current_report := Some text |}, None)
    /\ List.length (combine (per_sample r) (totals r)) = 4%nat
    /\ copy_to_clipboard
         (fst (update_calc str_of_float var_samples var_excess var_mix g))
       = [ Clipboard_clear; Clipboard_append text;
           Showinfo "Copied" "Report copied to clipboard!" ].
Proof.
  intros Hin Hc.
  destruct (rows_of_calculation n e m r Hc) as (Hrows & Hkeys & Hlen & Hnd).
  assert (Hfmt : exists text,
             format_text_report str_of_float n e m
               (per_sample r) (totals r) (grand_total r) = Ok text).
  { unfold format_text_report. rewrite Hrows. eexists. reflexivity. }
  destruct Hfmt as (text & Hfmt). exists text.
  assert (Hu : update_calc str_of_float var_samples var_excess var_mix g
               = ({| tree := map (fun p => (fst (fst p), format_1f (snd (fst p)),
                                            format_1f (snd (snd p))))
                               (combine (per_sample r) (totals r));
                     lbl_grand_total := (format_1f (grand_total r) ++ uL,
                                         "#0055aa");
                     lbl_status := "";
                     current_report := Some text |}, None)).
  { unfold update_calc. rewrite Hin, Hc.
    rewrite (insert_rows_all _ _ _ Hnd Hkeys), Hfmt. reflexivity. }
  split; [exact Hfmt|]. split; [exact Hu|]. split.
  - rewrite length_combine.
    assert (Hl : List.length (per_sample r) = List.length (totals r)).
    { unfold dict_keys in Hkeys.
      rewrite <- (length_map fst (per_sample r)), <- Hkeys.
      apply length_map. }
    rewrite Hl, Hlen. reflexivity.
  - rewrite Hu. reflexivity.
Qed.

Lemma update_calc_success_witness :
  exists text,
    update_calc (fun _ => "10.0") (Ok 8) (Ok (lit 10 0)) (Ok 2)
      {| tree := [("stale", "1.0", "2.0")];
         lbl_grand_total := ("Invalid Input", "red");
         lbl_status := "Please check your input values.";
         current_report := None |}
    = ({| tree := [ ("DDW", "4.0", "35.0"); ("Mix (2X)", "6.0", "53.0");
                    ("Primer Fwd", "0.5", "4.5"); ("Primer Rev", "0.5", "4.5") ];
          lbl_grand_total := ("97.0" ++ uL, "#0055aa");
          lbl_status := "";
          current_report := Some text |}, None).
Proof.
  destruct (update_calc_success (fun _ => "10.0")
              (Ok 8) (Ok (lit 10 0)) (Ok 2)
              {| tree := [("stale", "1.0", "2.0")];
                 lbl_grand_total := ("Invalid Input", "red");
                 lbl_status := "Please check your input values.";
                 current_report := None |}
              8 (lit 10 0) 2
              {| per_sample := Spec.per_sample 2;
                 totals := [ ("DDW", lit 35 0); ("Mix (2X)", lit 53 0);
                             ("Primer Fwd", lit 9 (-1));
                             ("Primer Rev", lit 9 (-1)) ];
                 grand_total := lit 97 0 |})
    as (text & _ & Hu & _).
  - vm_compute. reflexivity.
  - vm_compute. reflexivity.
  - exists text. rewrite Hu. vm_compute. reflexivity.
Defined.

(** An infinite excess passes the form's check, which only asks that it be
    not below zero; the calculation then raises [OverflowError], which
    [update_calc] does not catch: the table has been emptied, while the
    grand total, the status line and the stored report stay as they
    were. *)
Theorem infinite_excess_escapes (str_of_float : float -> string)
    (n m : Z) (g : form) :
  1 <= n -> m = 2 \/ m = 5 ->
  get_inputs (Ok n) (Ok (S754_infinity false)) (Ok m)
  = Some (n, S754_infinity false, m)
  /\ exists msg,
       update_calc str_of_float (Ok n) (Ok (S754_infinity false)) (Ok m) g
       = (set_tree [] g, Some (OverflowError msg)).
Proof.
  intros Hn Hm.
  assert (Hin : get_inputs (Ok n) (Ok (S754_infinity false)) (Ok m)
                = Some (n, S754_infinity false, m)).
  { unfold get_inputs. cbn [bind].
    replace (Z.ltb n 1) with false by (symmetry; apply Z.ltb_ge; lia).
    reflexivity. }
  split; [exact Hin|].
  destruct (calculate_infinite_excess n m Hn Hm) as (msg & Hc).
  exists msg. unfold update_calc. rewrite Hin, Hc. reflexivity.
Qed.

Lemma infinite_excess_escapes_witness :
  exists msg,
    update_calc (fun _ => "inf") (Ok 8) (Ok (S754_infinity false)) (Ok 2)
      {| tree := [("DDW", "4.0", "35.0")];
         lbl_grand_total := ("97.0" ++ uL, "#0055aa");
         lbl_status := "";
         current_report := Some "PCR Report" |}
    = ({| tree := [];
          lbl_grand_total := ("97.0" ++ uL, "#0055aa");
          lbl_status := "";
          current_report := Some "PCR Report" |}, Some (OverflowError msg)).
Proof.
  apply (infinite_excess_escapes (fun _ => "inf") 8 2);
    [lia | left; reflexivity].
Defined.

(** A recalculation without a result: when the inputs fail the form's check
    or [calculate] raises, the table is emptied but the stored report is
    left as it was, so the copy and save buttons go on exporting the report
    of the last successful calculation.  Invalid inputs are marked on the
    grand-total label; a [ValueError] of [calculate] only reaches the
    status line, the label keeps the previous total; any other exception
    leaves the method with label and status line untouched. *)
Theorem update_calc_failure (str_of_float : float -> string)
    (var_samples : result Z) (var_excess : result float) (var_mix : result Z)
    (g : form) :
  (forall n e m r, get_inputs var_samples var_excess var_mix = Some (n, e, m) ->
                   calculate n e m <> Ok r) ->
  let out := update_calc str_of_float var_samples var_excess var_mix g in
  tree (fst out) = []
  /\ current_report (fst out) = current_report g
  /\ copy_to_clipboard (fst out) = copy_to_clipboard g
  /\ (forall save_path chosen open_write,
        save_report save_path chosen open_write (fst out)
        = save_report save_path chosen open_write g)
  /\ match get_inputs var_samples var_excess var_mix with
     | None =>
         lbl_grand_total (fst out) = ("Invalid Input", "red")
         /\ lbl_status (fst out) = "Please check your input values."
         /\ snd out = None
     | Some (n, e, m) =>
         lbl_grand_total (fst out) = lbl_grand_total g
         /\ exists x,
              calculate n e m = Raise x
              /\ match x with
                 | ValueError msg =>
                     lbl_status (fst out) = msg /\ snd out = None
                 | _ => lbl_status (fst out) = lbl_status g /\ snd out = Some x
                 end
     end.
Proof.
  intros Hno out.
  assert (Hrep : tree (fst out) = []
                 /\ current_report (fst out) = current_report g
                 /\ match get_inputs var_samples var_excess var_mix with
                    | None =>
                        lbl_grand_total (fst out) = ("Invalid Input", "red")
                        /\ lbl_status (fst out)
                           = "Please check your input values."
                        /\ snd out = None
                    | Some (n, e, m) =>
                        lbl_grand_total (fst out) = lbl_grand_total g
                        /\ exists x,
                             calculate n e m = Raise x
                             /\ match x with
                                | ValueError msg =>
                                    lbl_status (fst out) = msg /\ snd out = None
                                | _ => lbl_status (fst out) = lbl_status g
                                       /\ snd out = Some x
                                end
                    end).
  { unfold out, update_calc.
    destruct (get_inputs var_samples var_excess var_mix) as [[[n e] m]|] eqn:Hin.
    - destruct (calculate n e m) as [r | x] eqn:Hc.
      + exfalso. exact (Hno n e m r eq_refl Hc).
      + destruct x as [msg | msg | key]; cbn;
          (split; [reflexivity|]); (split; [reflexivity|]);
          (split; [reflexivity|]); eexists; (split; [reflexivity|]);
          split; reflexivity.
    - cbn. repeat split; reflexivity. }
  destruct Hrep as (Ht & Hr & Hl).
  split; [exact Ht|]. split; [exact Hr|]. split; [|split; [|exact Hl]].
  - unfold copy_to_clipboard. rewrite Hr. reflexivity.
  - intros. unfold save_report. rewrite Hr. reflexivity.
Qed.

Lemma update_calc_failure_witness :
  let g := {| tree := [("DDW", "4.0", "35.0")];
              lbl_grand_total := ("97.0" ++ uL, "#0055aa");
              lbl_status := "";
              current_report := Some "PCR Report" |} in
  let out := update_calc (fun _ => "nan") (Ok 8) (Ok S754_nan) (Ok 2) g in
  tree (fst out) = []
  /\ current_report (fst out) = Some "PCR Report"
  /\ copy_to_clipboard (fst out) = copy_to_clipboard g.
Proof.
  intros g out.
  destruct (update_calc_failure (fun _ => "nan") (Ok 8) (Ok S754_nan) (Ok 2) g)
    as (Ht & Hr & Hc & _).
  - intros n e m r H. injection H as <- <- <-. vm_compute. discriminate.
  - split; [exact Ht|]. split; [exact Hr | exact Hc].
Defined.

(** Saving after a successful recalculation: the file at the path given on
    the command line receives exactly the text of the formatter for the
    calculation on display; a failed write is reported in an error dialog
    with its cause, nothing is recorded as written, and the stored report
    stays for another attempt.  Without a path the file dialog is asked,
    and cancelling it writes nothing. *)
Theorem save_report_after_update (str_of_float : float -> string)
    (var_samples : result Z) (var_excess : result float) (var_mix : result Z)
    (g : form) (n : Z) (e : float) (m : Z) (r : calculation)
    (open_write : string -> string -> option string) :
  get_inputs var_samples var_excess var_mix = Some (n, e, m) ->
  calculate n e m = Ok r ->
  exists text,
    let g' := fst (update_calc str_of_float var_samples var_excess var_mix g) in
    format_text_report str_of_float n e m
      (per_sample r) (totals r) (grand_total r) = Ok text
    /\ (forall path chosen,
          truthy path = true ->
          save_report (Some path) chosen open_write g'
          = match open_write path text with
            | None => [ Written path text;
                        Showinfo "Saved" ("Saved to " ++ path) ]
            | Some msg => [ Showerror "Error"
                              ("Could not save file:" ++ nl ++ msg) ]
            end)
    /\ (forall chosen,
          truthy chosen = true ->
          save_report None chosen open_write g'
          = Asksaveasfilename
              :: match open_write chosen text with
                 | None => [ Written chosen text;
                             Showinfo "Saved" ("Saved to " ++ chosen) ]
                 | Some msg => [ Showerror "Error"
                                   ("Could not save file:" ++ nl ++ msg) ]
                 end)
    /\ save_report None "" open_write g' = [Asksaveasfilename].
Proof.
  intros Hin Hc.
  destruct (rows_of_calculation n e m r Hc) as (Hrows & Hkeys & _ & Hnd).
  assert (Hfmt : exists text,
             format_text_report str_of_float n e m
               (per_sample r) (totals r) (grand_total r) = Ok text).
  { unfold format_text_report. rewrite Hrows. eexists. reflexivity. }
  destruct Hfmt as (text & Hfmt). exists text. cbv zeta.
  assert (Hr : current_report
                 (fst (update_calc str_of_float var_samples var_excess
                         var_mix g)) = Some text).
  { unfold update_calc. rewrite Hin, Hc.
    rewrite (insert_rows_all _ _ _ Hnd Hkeys), Hfmt. reflexivity. }
  split; [exact Hfmt|]. split; [|split].
  - intros path chosen Hp. unfold save_report. rewrite Hr.
    cbn [truthy_opt]. rewrite Hp. cbn iota. rewrite Hp.
    destruct (open_write path text); reflexivity.
  - intros chosen Hp. unfold save_report. rewrite Hr.
    cbn [truthy_opt]. rewrite Hp.
    destruct (open_write chosen text); reflexivity.
  - unfold save_report. rewrite Hr. reflexivity.
Qed.

Lemma save_report_after_update_witness :
  exists text,
    save_report (Some "report.txt") ""
      (fun path _ => if String.eqb path "report.txt" then None
                     else Some "Permission denied")
      (fst (update_calc (fun _ => "10.0") (Ok 8) (Ok (lit 10 0)) (Ok 2)
              {| tree := []; lbl_grand_total := ("---", "");
                 lbl_status := ""; current_report := None |}))
    = [ Written "report.txt" text; Showinfo "Saved" "Saved to report.txt" ].
Proof.
  destruct (save_report_after_update (fun _ => "10.0")
              (Ok 8) (Ok (lit 10 0)) (Ok 2)
              {| tree := []; lbl_grand_total := ("---", "");
                 lbl_status := ""; current_report := None |}
              8 (lit 10 0) 2
              {| per_sample := Spec.per_sample 2;
                 totals := [ ("DDW", lit 35 0); ("Mix (2X)", lit 53 0);
                             ("Primer Fwd", lit 9 (-1));
                             ("Primer Rev", lit 9 (-1)) ];
                 grand_total := lit 97 0 |}
              (fun path _ => if String.eqb path "report.txt" then None
                             else Some "Permission denied"))
    as (text & _ & Hs & _).
  - vm_compute. reflexivity.
  - vm_compute. reflexivity.
  - exists text. rewrite (Hs "report.txt" "" eq_refl). reflexivity.
Defined.

(** ** The command line *)

Section CliProperties.

Variable str_of_float : float -> string.
Variable repr : string -> string.
Variable int_of_str : string -> result Z.
Variable float_of_str : string -> result float.
Variables s_in e_in m_in : answer.
Variable stdout : string -> option string.
Variable open_write : string -> string -> option string.

Local Notation "'run'" :=
  (run_cli_mode str_of_float repr int_of_str float_of_str
     s_in e_in m_in stdout open_write).
Local Notation "'inputs'" :=
  (interactive_inputs str_of_float repr int_of_str float_of_str
     s_in e_in m_in stdout).
Local Notation "'tail'" :=
  (report_and_save str_of_float repr stdout open_write).
Local Notation "'handler'" := (except_Exception stdout).

Lemma format_after_calculate (n : Z) (e : float) (m : Z) (r : calculation) :
  calculate n e m = Ok r ->
  exists text,
    format_text_report str_of_float n e m
      (per_sample r) (totals r) (grand_total r) = Ok text.
Proof.
  intros Hc. destruct (rows_of_calculation n e m r Hc) as (Hrows & _).
  unfold format_text_report. rewrite Hrows. eexists. reflexivity.
Qed.

Lemma run_batch_eq (a : args) (n : Z) :
  samples a = Some n ->
  run a = match tail a (n, excess a, mix a) with
          | (ev, inl _) => (ev, Returned)
          | (ev, inr msg) => handler ev msg
          end.
Proof.
  intros Hs. unfold run_cli_mode, try_block. rewrite Hs.
  unfold io_bind, io_ret.
  destruct (tail a (n, excess a, mix a)) as [ev [[]|msg]]; reflexivity.
Qed.

Lemma run_interactive_eq (a : args) :
  samples a = None ->
  run a = match inputs with
          | (ev, inl i) =>
              match tail a i with
              | (ev', inl _) => ((ev ++ ev')%list, Returned)
              | (ev', inr msg) => handler (ev ++ ev')%list msg
              end
          | (ev, inr msg) => handler ev msg
          end.
Proof.
  intros Hs. unfold run_cli_mode, try_block. rewrite Hs. unfold io_bind.
  destruct inputs as [ev [i|msg]]; [|reflexivity].
  destruct (tail a i) as [ev' [[]|msg]]; reflexivity.
Qed.

Lemma tail_Raise (a : args) (n : Z) (e : float) (m : Z) (x : exn) :
  calculate n e m = Raise x ->
  tail a (n, e, m) = ([], inr (str_of_exn repr x)).
Proof. intros Hc. unfold report_and_save. rewrite Hc. reflexivity. Qed.

Lemma tail_Ok (a : args) (n : Z) (e : float) (m : Z) (r : calculation)
    (text : string) :
  calculate n e m = Ok r ->
  format_text_report str_of_float n e m
    (per_sample r) (totals r) (grand_total r) = Ok text ->
  tail a (n, e, m)
  = match stdout (nl ++ text ++ nl) with
    | Some msg => ([Print_raised (nl ++ text ++ nl) msg], inr msg)
    | None =>
        if truthy_opt (save a) then
          match save a with
          | Some path =>
              match open_write path text with
              | Some msg => ([Printed (nl ++ text ++ nl)], inr msg)
              | None =>
                  match stdout ("[+] Saved to " ++ path) with
                  | None => ([ Printed (nl ++ text ++ nl); Written path text;
                               Printed ("[+] Saved to " ++ path) ], inl tt)
                  | Some msg =>
                      ([ Printed (nl ++ text ++ nl); Written path text;
                         Print_raised ("[+] Saved to " ++ path) msg ], inr msg)
                  end
              end
          | None => ([Printed (nl ++ text ++ nl)], inl tt)
          end
        else ([Printed (nl ++ text ++ nl)], inl tt)
    end.
Proof.
  intros Hc Hf. unfold report_and_save. rewrite Hc. cbn [raises io_bind].
  rewrite Hf. cbn [raises io_bind]. unfold py_print, py_write.
  destruct (stdout (nl ++ text ++ nl)) as [msg|]; [reflexivity|].
  cbn [io_bind].
  destruct (save a) as [path|]; cbn [truthy_opt]; [|reflexivity].
  destruct (truthy path); [|reflexivity].
  destruct (open_write path text) as [msg|]; [reflexivity|].
  cbn [io_bind].
  destruct (stdout ("[+] Saved to " ++ path)) as [msg|]; reflexivity.
Qed.

Lemma interactive_inputs_inv (ev : list event) (n : Z) (e : float) (m : Z) :
  inputs = (ev, inl (n, e, m)) ->
  ev = prompts str_of_float
  /\ exists s e' m',
       s_in = Typed s /\ e_in = Typed e' /\ m_in = Typed m'
       /\ (if truthy s then int_of_str s else Ok DEFAULT_SAMPLES) = Ok n
       /\ (if truthy e' then float_of_str e' else Ok DEFAULT_EXCESS) = Ok e
       /\ (if truthy m' then int_of_str m' else Ok 2) = Ok m.
Proof.
  unfold interactive_inputs, py_print, py_input.
  destruct (stdout "--- PCR Calculator (CLI) ---"); [discriminate|].
  destruct s_in as [s|]; [|discriminate].
  destruct e_in as [e'|]; [|discriminate].
  destruct m_in as [m'|]; [|discriminate].
  cbn [io_bind].
  destruct (if truthy s then int_of_str s else Ok DEFAULT_SAMPLES)
    as [n0|] eqn:Hn; [|discriminate].
  cbn [raises io_bind].
  destruct (if truthy e' then float_of_str e' else Ok DEFAULT_EXCESS)
    as [e0|] eqn:He; [|discriminate].
  cbn [raises io_bind].
  destruct (if truthy m' then int_of_str m' else Ok 2)
    as [m0|] eqn:Hm; [|discriminate].
  cbn [raises io_bind io_ret app]. intros H. injection H as <- <- <- <-.
  split; [reflexivity|]. exists s, e', m'.
  repeat (split; [reflexivity|]). split; [exact Hn|]. split; [exact He|].
  exact Hm.
Qed.

Lemma error_line_not_report (msg text : string) :
  Printed ("Error: " ++ msg) <> Printed (nl ++ text ++ nl).
Proof. intros H. discriminate H. Qed.

Lemma error_line_not_saved (msg path : string) :
  Printed ("Error: " ++ msg) <> Printed ("[+] Saved to " ++ path).
Proof. intros H. discriminate H. Qed.

Lemma error_line_not_asked (msg : string) :
  ~ In (Printed ("Error: " ++ msg)) (prompts str_of_float).
Proof. intros [H | [H | [H | [H | []]]]]; discriminate H. Qed.

(** Batch mode validates neither the sample count nor the excess: for a
    supported mix factor and any sample count and excess of moderate
    magnitude, zero and negative ones included, the calculation and the
    report succeed, and the first thing the run does is to print the report
    between two empty lines.  It returns normally when that print, and the
    save and its confirmation if a save is asked for, succeed; a print or a
    write that raises is handled by the [except] clause, after what has
    been printed and written so far. *)
Theorem run_cli_mode_batch (a : args) (n Kn Ke : Z) :
  samples a = Some n -> mix a = 2 \/ mix a = 5 ->
  0 <= Kn -> 0 <= Ke -> Kn + Ke <= 956 ->
  Z.abs n < 2 ^ Kn -> fbound Ke (excess a) ->
  exists r text,
    calculate n (excess a) (mix a) = Ok r
    /\ format_text_report str_of_float n (excess a) (mix a)
         (per_sample r) (totals r) (grand_total r) = Ok text
    /\ run a
       = match stdout (nl ++ text ++ nl) with
         | Some msg => handler [Print_raised (nl ++ text ++ nl) msg] msg
         | None =>
             if truthy_opt (save a) then
               match save a with
               | Some path =>
                   match open_write path text with
                   | Some msg => handler [Printed (nl ++ text ++ nl)] msg
                   | None =>
                       match stdout ("[+] Saved to " ++ path) with
                       | None =>
                           ([ Printed (nl ++ text ++ nl); Written path text;
                              Printed ("[+] Saved to " ++ path) ], Returned)
                       | Some msg =>
                           handler
                             [ Printed (nl ++ text ++ nl); Written path text;
                               Print_raised ("[+] Saved to " ++ path) msg ]
                             msg
                       end
                   end
               | None => ([Printed (nl ++ text ++ nl)], Returned)
               end
             else ([Printed (nl ++ text ++ nl)], Returned)
         end.
Proof.
  intros Hs Hm HKn HKe HK Hn He.
  destruct (calculate_returns n (excess a) (mix a) Kn Ke Hm HKn HKe HK Hn He)
    as (r & Hc).
  destruct (format_after_calculate _ _ _ _ Hc) as (text & Hf).
  exists r, text. split; [exact Hc|]. split; [exact Hf|].
  rewrite (run_batch_eq a n Hs), (tail_Ok a _ _ _ r text Hc Hf).
  destruct (stdout (nl ++ text ++ nl)) as [msg|]; [reflexivity|].
  destruct (save a) as [path|]; cbn [truthy_opt]; [|reflexivity].
  destruct (truthy path); [|reflexivity].
  destruct (open_write path text) as [msg|]; [reflexivity|].
  destruct (stdout ("[+] Saved to " ++ path)) as [msg|]; reflexivity.
Qed.

(** How a run ends.  Either it exits with status 1 and the last thing it
    printed is an error line; or it returns normally, has printed no error
    line, and has printed the formatter's text for a calculation that
    succeeded; or the error line itself could not be printed, and the
    exception of that [print] leaves the function.  The formatter never
    fails on what [calculate] returned. *)
Theorem run_cli_mode_exit (a : args) :
  ((snd (run a) = Exited 1
    /\ exists front msg,
         fst (run a) = (front ++ [Printed ("Error: " ++ msg)])%list)
   \/ (snd (run a) = Returned
       /\ (forall msg, ~ In (Printed ("Error: " ++ msg)) (fst (run a)))
       /\ exists n e m r text,
            calculate n e m = Ok r
            /\ format_text_report str_of_float n e m
                 (per_sample r) (totals r) (grand_total r) = Ok text
            /\ In (Printed (nl ++ text ++ nl)) (fst (run a)))
   \/ (exists front msg err,
         stdout ("Error: " ++ msg) = Some err
         /\ snd (run a) = Uncaught err
         /\ fst (run a)
            = (front ++ [Print_raised ("Error: " ++ msg) err])%list))
  /\ (forall n e m r,
        calculate n e m = Ok r ->
        exists text,
          format_text_report str_of_float n e m
            (per_sample r) (totals r) (grand_total r) = Ok text).
Proof.
  split; [|exact format_after_calculate].
  assert (Hh : forall ev msg out,
             out = handler ev msg ->
             (snd out = Exited 1
              /\ exists front msg0,
                   fst out = (front ++ [Printed ("Error: " ++ msg0)])%list)
             \/ (snd out = Returned
                 /\ (forall msg0, ~ In (Printed ("Error: " ++ msg0)) (fst out))
                 /\ exists n e m r text,
                      calculate n e m = Ok r
                      /\ format_text_report str_of_float n e m
                           (per_sample r) (totals r) (grand_total r) = Ok text
                      /\ In (Printed (nl ++ text ++ nl)) (fst out))
             \/ (exists front msg0 err,
                   stdout ("Error: " ++ msg0) = Some err
                   /\ snd out = Uncaught err
                   /\ fst out
                      = (front ++ [Print_raised ("Error: " ++ msg0) err])%list)).
  { intros ev msg out ->. unfold except_Exception.
    destruct (stdout ("Error: " ++ msg)) as [err|] eqn:Hso.
    - right; right. exists ev, msg, err.
      split; [exact Hso|]. split; reflexivity.
    - left. split; [reflexivity|]. exists ev, msg. reflexivity. }
  assert (Ht : forall asked n e m out,
             (forall msg, ~ In (Printed ("Error: " ++ msg)) asked) ->
             out = match tail a (n, e, m) with
                   | (ev', inl _) => ((asked ++ ev')%list, Returned)
                   | (ev', inr msg) => handler (asked ++ ev')%list msg
                   end ->
             (snd out = Exited 1
              /\ exists front msg0,
                   fst out = (front ++ [Printed ("Error: " ++ msg0)])%list)
             \/ (snd out = Returned
                 /\ (forall msg0, ~ In (Printed ("Error: " ++ msg0)) (fst out))
                 /\ exists n e m r text,
                      calculate n e m = Ok r
                      /\ format_text_report str_of_float n e m
                           (per_sample r) (totals r) (grand_total r) = Ok text
                      /\ In (Printed (nl ++ text ++ nl)) (fst out))
             \/ (exists front msg0 err,
                   stdout ("Error: " ++ msg0) = Some err
                   /\ snd out = Uncaught err
                   /\ fst out
                      = (front ++ [Print_raised ("Error: " ++ msg0) err])%list)).
  { intros asked n e m out Hasked Hout.
    destruct (calculate n e m) as [r | x] eqn:Hc.
    2:{ rewrite (tail_Raise a n e m x Hc) in Hout. eapply Hh; exact Hout. }
    destruct (format_after_calculate _ _ _ _ Hc) as (text & Hf).
    rewrite (tail_Ok a n e m r text Hc Hf) in Hout.
    assert (Hok : forall ev',
               (forall msg, ~ In (Printed ("Error: " ++ msg)) ev') ->
               In (Printed (nl ++ text ++ nl)) ev' ->
               out = ((asked ++ ev')%list, Returned) ->
               snd out = Returned
               /\ (forall msg0, ~ In (Printed ("Error: " ++ msg0)) (fst out))
               /\ exists n e m r text,
                    calculate n e m = Ok r
                    /\ format_text_report str_of_float n e m
                         (per_sample r) (totals r) (grand_total r) = Ok text
                    /\ In (Printed (nl ++ text ++ nl)) (fst out)).
    { intros ev' Hno Hin ->. cbn [fst snd]. split; [reflexivity|]. split.
      - intros msg H. apply in_app_or in H as [H | H].
        + exact (Hasked msg H).
        + exact (Hno msg H).
      - exists n, e, m, r, text. split; [exact Hc|]. split; [exact Hf|].
        apply in_or_app. right. exact Hin. }
    assert (Hone : forall msg,
               ~ In (Printed ("Error: " ++ msg)) [Printed (nl ++ text ++ nl)]).
    { intros msg [H | []]. symmetry in H.
      exact (error_line_not_report _ _ H). }
    destruct (stdout (nl ++ text ++ nl)) as [msg|];
      [eapply Hh; exact Hout|].
    destruct (truthy_opt (save a));
      [|right; left; apply (Hok _ Hone (or_introl eq_refl) Hout)].
    destruct (save a) as [path|];
      [|right; left; apply (Hok _ Hone (or_introl eq_refl) Hout)].
    destruct (open_write path text) as [msg|]; [eapply Hh; exact Hout|].
    destruct (stdout ("[+] Saved to " ++ path)) as [msg|];
      [eapply Hh; exact Hout|].
    right; left.
    apply (Hok [ Printed (nl ++ text ++ nl); Written path text;
                 Printed ("[+] Saved to " ++ path) ]);
      [|left; reflexivity | exact Hout].
    intros msg0 [H | [H | [H | []]]].
    - symmetry in H. exact (error_line_not_report _ _ H).
    - discriminate H.
    - symmetry in H. exact (error_line_not_saved _ _ H). }
  destruct (samples a) as [n|] eqn:Hs.
  - apply (Ht [] n (excess a) (mix a)); [intros msg []|].
    rewrite (run_batch_eq a n Hs).
    destruct (tail a (n, excess a, mix a)) as [ev' [[]|msg]]; reflexivity.
  - rewrite (run_interactive_eq a Hs).
    destruct inputs as [ev [[[n e] m]|msg]] eqn:Hi.
    + destruct (interactive_inputs_inv ev n e m Hi) as (-> & _).
      apply (Ht (prompts str_of_float) n e m);
        [exact error_line_not_asked | reflexivity].
    + eapply Hh. reflexivity.
Qed.

(** The interactive mode is the batch mode behind its prompts: once the
    banner is printed and the three answers are read and convert (an empty
    answer standing for 8 samples, 10.0 percent and mix factor 2), the run
    has made the banner and the three prompts and then does what the batch
    run on the converted values does.  The excess and the mix factor given
    on the command line play no part. *)
Theorem run_cli_mode_interactive (a : args) (n : Z) (e : float) (m : Z) :
  samples a = None ->
  snd inputs = inl (n, e, m) ->
  let b := {| samples := Some n; excess := e; mix := m;
              save := save a; no_gui := no_gui a |} in
  run a = ((prompts str_of_float ++ fst (run b))%list, snd (run b))
  /\ (s_in = Typed "" -> n = DEFAULT_SAMPLES)
  /\ (e_in = Typed "" -> e = DEFAULT_EXCESS)
  /\ (m_in = Typed "" -> m = 2).
Proof.
  intros Hs Hi b.
  destruct inputs as [ev res] eqn:Hin. cbn [snd] in Hi. subst res.
  destruct (interactive_inputs_inv ev n e m Hin)
    as (-> & s & e' & m' & Hsi & Hei & Hmi & Hn & He & Hm).
  split; [|split; [|split]].
  - rewrite (run_interactive_eq a Hs), Hin.
    rewrite (run_batch_eq b n eq_refl). subst b. cbn [excess mix].
    change (tail {| samples := Some n; excess := e; mix := m;
                    save := save a; no_gui := no_gui a |} (n, e, m))
      with (tail a (n, e, m)).
    destruct (tail a (n, e, m)) as [ev' [[]|msg]]; [reflexivity|].
    unfold except_Exception.
    destruct (stdout ("Error: " ++ msg)); cbn [fst snd];
      rewrite app_assoc; reflexivity.
  - intros H. rewrite Hsi in H. injection H as ->.
    cbn in Hn. injection Hn as <-. reflexivity.
  - intros H. rewrite Hei in H. injection H as ->.
    cbn in He. injection He as <-. reflexivity.
  - intros H. rewrite Hmi in H. injection H as ->.
    cbn in Hm. injection Hm as <-. reflexivity.
Qed.

End CliProperties.

Lemma run_cli_mode_batch_witness :
  exists r text,
    calculate 0 (lit (-5) 0) 5 = Ok r
    /\ run_cli_mode (fun _ => "-5.0") (fun k => k)
         (fun _ => Raise (ValueError "invalid literal for int()"))
         (fun _ => Raise (ValueError "could not convert string to float"))
         (Typed "") (Typed "") (Typed "") (fun _ => None) (fun _ _ => None)
         {| samples := Some 0; excess := lit (-5) 0; mix := 5;
            save := None; no_gui := true |}
       = ([Printed (nl ++ text ++ nl)], Returned)
    /\ run_cli_mode (fun _ => "-5.0") (fun k => k)
         (fun _ => Raise (ValueError "invalid literal for int()"))
         (fun _ => Raise (ValueError "could not convert string to float"))
         (Typed "") (Typed "") (Typed "")
         (fun t => if String.prefix "Error: " t then None
                   else Some "codec can't encode character")
         (fun _ _ => None)
         {| samples := Some 0; excess := lit (-5) 0; mix := 5;
            save := None; no_gui := true |}
       = ([ Print_raised (nl ++ text ++ nl) "codec can't encode character";
            Printed "Error: codec can't encode character" ], Exited 1).
Proof.
  destruct (run_cli_mode_batch (fun _ => "-5.0") (fun k => k)
              (fun _ => Raise (ValueError "invalid literal for int()"))
              (fun _ => Raise (ValueError "could not convert string to float"))
              (Typed "") (Typed "") (Typed "")
              (fun _ => None) (fun _ _ => None)
              {| samples := Some 0; excess := lit (-5) 0; mix := 5;
                 save := None; no_gui := true |} 0 1 3)
    as (r & text & Hc & Hf & Hrun);
    [reflexivity | right; reflexivity | lia | lia | lia | reflexivity
     | vm_compute; split; discriminate |].
  destruct (run_cli_mode_batch (fun _ => "-5.0") (fun k => k)
              (fun _ => Raise (ValueError "invalid literal for int()"))
              (fun _ => Raise (ValueError "could not convert string to float"))
              (Typed "") (Typed "") (Typed "")
              (fun t => if String.prefix "Error: " t then None
                        else Some "codec can't encode character")
              (fun _ _ => None)
              {| samples := Some 0; excess := lit (-5) 0; mix := 5;
                 save := None; no_gui := true |} 0 1 3)
    as (r' & text' & Hc' & Hf' & Hrun');
    [reflexivity | right; reflexivity | lia | lia | lia | reflexivity
     | vm_compute; split; discriminate |].
  assert (Hr : r' = r) by congruence. subst r'.
  assert (Ht : text' = text) by congruence. subst text'.
  exists r, text. split; [exact Hc|]. split; [exact Hrun | exact Hrun'].
Defined.

Lemma run_cli_mode_interactive_witness :
  let run := run_cli_mode (fun _ => "10.0") (fun k => k)
               (fun _ => Raise (ValueError "invalid literal for int()"))
               (fun _ => Raise (ValueError "could not convert string to float"))
               (Typed "") (Typed "") (Typed "")
               (fun _ => None) (fun _ _ => None) in
  run {| samples := None; excess := lit 20 0; mix := 5;
         save := None; no_gui := true |}
  = ((prompts (fun _ => "10.0")
        ++ fst (run {| samples := Some 8; excess := DEFAULT_EXCESS; mix := 2;
                       save := None; no_gui := true |}))%list,
     snd (run {| samples := Some 8; excess := DEFAULT_EXCESS; mix := 2;
                 save := None; no_gui := true |})).
Proof.
  intros run.
  apply (run_cli_mode_interactive (fun _ => "10.0") (fun k => k)
           (fun _ => Raise (ValueError "invalid literal for int()"))
           (fun _ => Raise (ValueError "could not convert string to float"))
           (Typed "") (Typed "") (Typed "")
           (fun _ => None) (fun _ _ => None)
           {| samples := None; excess := lit 20 0; mix := 5;
              save := None; no_gui := true |} 8 DEFAULT_EXCESS 2);
    reflexivity.
Defined.
